(** * ndi2srt: the H.264 access-unit rewriter of [src/main.c]

    A shallow embedding of the Annex B scanner, the RBSP/EBSP codec, the
    bit writer and bit reader, the SPS/VUI parser, the SPS patchers, the
    Picture Timing SEI builder, the per-buffer rewriter
    [prepend_h264_sei_timecode] with its probe, the GOP timecode of
    [build_ffmpeg_timecode_sei] and the command line ([parse_args],
    [build_audio_pipeline]), followed by the properties stated about them.

    Conventions.  A [guint8] buffer is a [list Z]; C integers are [Z] with
    the wrap-around of their width written where the C expression can
    reach it.  Buffer sizes are assumed to fit a [gint], as the casts
    [(gint)size] of the source assume.  A read outside a buffer (undefined
    in C) yields 0.  One such read is within reach of the input:
    [parse_sps_vui_info_from_rbsp] reads [rbsp[0]] of an array that is
    empty when the SPS NAL of the access unit is a header byte alone;
    [extract_sps_rbsp] tells when, and the statements about the rewriter
    that depend on it leave that input out. *)

From Stdlib Require Import Ascii String DecimalString ZArith List Bool Lia.
Import ListNotations.
Open Scope Z_scope.

(** ** Buffers *)

Definition size_of (data : list Z) : Z := Z.of_nat (length data).

Definition byte_at (data : list Z) (i : Z) : Z :=
  if i <? 0 then 0 else nth (Z.to_nat i) data 0.

(** [data + from], [len] bytes long. *)
Definition slice (data : list Z) (from len : Z) : list Z :=
  firstn (Z.to_nat len) (skipn (Z.to_nat from) data).

Definition is_byte (b : Z) : Prop := 0 <= b < 256.

Definition UINT32 : Z := 2 ^ 32.

(** ** Annex B start codes *)

(** The body of the [for] loop of [find_startcode]; [n] bounds the number
    of iterations left, [i] is the loop variable. *)
Fixpoint find_startcode_loop (data : list Z) (size : Z) (n : nat) (i : Z) : Z :=
  match n with
  | O => -1
  | S n' =>
      if i + 3 <? size then
        if (byte_at data i =? 0) && (byte_at data (i + 1) =? 0) then
          if byte_at data (i + 2) =? 1 then i
          else if (i + 4 <? size) && (byte_at data (i + 2) =? 0)
                  && (byte_at data (i + 3) =? 1) then i
          else find_startcode_loop data size n' (i + 1)
        else find_startcode_loop data size n' (i + 1)
      else -1
  end.

(** [i] runs from [from] while [i + 3 < size]: at most [size - 3 - from]
    iterations. *)
Definition find_startcode (data : list Z) (size from : Z) : Z :=
  find_startcode_loop data size (Z.to_nat (size - 3 - from)) from.

Definition startcode_len_at (data : list Z) (size pos : Z) : Z :=
  if (pos + 3 <? size) && (byte_at data pos =? 0) && (byte_at data (pos + 1) =? 0)
  then
    if byte_at data (pos + 2) =? 1 then 3
    else if (pos + 4 <? size) && (byte_at data (pos + 2) =? 0)
            && (byte_at data (pos + 3) =? 1) then 4
    else 0
  else 0.

(** ** Emulation prevention *)

Definition epb_safe_append (arr : list Z) (byte : Z) : list Z :=
  let n := size_of arr in
  if (2 <=? n) && (byte_at arr (n - 2) =? 0) && (byte_at arr (n - 1) =? 0)
     && (byte <=? 3)
  then (arr ++ [3]) ++ [byte]
  else arr ++ [byte].

Definition build_annexb_from_rbsp_and_header (rbsp : list Z) (header_byte : Z)
  : list Z :=
  fold_left epb_safe_append rbsp (epb_safe_append [0; 0; 0; 1] header_byte).

(** RBSP to EBSP as the claims name it: the emission rule of
    [epb_safe_append] applied to each byte in turn, from an empty array. *)
Definition rbsp_to_ebsp (x : list Z) : list Z := fold_left epb_safe_append x [].

(** The loop of [ebsp_to_rbsp]; [zeros] is a [guint]. *)
Fixpoint ebsp_to_rbsp_loop (ebsp rbsp : list Z) (zeros : Z) : list Z :=
  match ebsp with
  | [] => rbsp
  | b :: rest =>
      if (2 <=? zeros) && (b =? 3) then ebsp_to_rbsp_loop rest rbsp 0
      else ebsp_to_rbsp_loop rest (rbsp ++ [b])
             (if b =? 0 then (zeros + 1) mod UINT32 else 0)
  end.

Definition ebsp_to_rbsp (ebsp : list Z) : list Z := ebsp_to_rbsp_loop ebsp [] 0.

(** The pattern emulation prevention exists for: two zero bytes followed
    by a byte that is at most 3. *)
Fixpoint has_forbidden (x : list Z) : bool :=
  match x with
  | a :: rest =>
      match rest with
      | b :: c :: _ => ((a =? 0) && (b =? 0) && (c <=? 3)) || has_forbidden rest
      | _ => false
      end
  | [] => false
  end.

(** ** Bit writer *)

Record BitWriter := mkBitWriter {
  bw_bytes : list Z;        (* bytes already emitted *)
  bw_current : Z;           (* guint8 under construction *)
  bw_bits_filled : Z        (* bits already in [bw_current], 0..7 *)
}.

Definition bw_init : BitWriter := mkBitWriter [] 0 0.

Definition bw_put_bit (bw : BitWriter) (bit : Z) : BitWriter :=
  let current := Z.lor (Z.shiftl (bw_current bw) 1) (Z.land bit 1) mod 256 in
  let bits_filled := bw_bits_filled bw + 1 in
  if bits_filled =? 8
  then mkBitWriter (bw_bytes bw ++ [current]) 0 0
  else mkBitWriter (bw_bytes bw) current bits_filled.

(** [for (i = num_bits - 1; i >= 0; --i) bw_put_bit(bw, (value >> i) & 1)];
    [n] is [i + 1]. *)
Fixpoint bw_put_bits_loop (bw : BitWriter) (value : Z) (n : nat) : BitWriter :=
  match n with
  | O => bw
  | S i => bw_put_bits_loop
             (bw_put_bit bw (Z.land (Z.shiftr value (Z.of_nat i)) 1)) value i
  end.

Definition bw_put_bits (bw : BitWriter) (value num_bits : Z) : BitWriter :=
  bw_put_bits_loop bw value (Z.to_nat num_bits).

(** [while (bw->bits_filled != 0) bw_put_bit(bw, 0)], at most [n] times. *)
Fixpoint bw_zero_pad (n : nat) (bw : BitWriter) : BitWriter :=
  match n with
  | O => bw
  | S n' => if bw_bits_filled bw =? 0 then bw
            else bw_zero_pad n' (bw_put_bit bw 0)
  end.

Definition bw_put_rbsp_trailing_bits (bw : BitWriter) : BitWriter :=
  bw_zero_pad 8 (bw_put_bit bw 1).

(** The loop of [bw_flush_zero_align], which shifts [current] itself and
    leaves at the first emitted byte. *)
Fixpoint bw_flush_loop (n : nat) (bw : BitWriter) : BitWriter :=
  match n with
  | O => bw
  | S n' =>
      if bw_bits_filled bw =? 0 then bw
      else
        let current := Z.shiftl (bw_current bw) 1 mod 256 in
        let bits_filled := bw_bits_filled bw + 1 in
        if bits_filled =? 8
        then mkBitWriter (bw_bytes bw ++ [current]) 0 0
        else bw_flush_loop n' (mkBitWriter (bw_bytes bw) current bits_filled)
  end.

Definition bw_flush_zero_align (bw : BitWriter) : BitWriter :=
  if 0 <? bw_bits_filled bw then bw_flush_loop 8 bw else bw.

(** ** Picture Timing SEI *)

(** The payload fields written by [build_pic_timing_sei_nal], before the
    payload is byte-aligned. *)
Definition pic_timing_fields (drop_frame : bool) (frame seconds minutes hours : Z)
    (include_time_offset : bool) : BitWriter :=
  let bw := bw_init in
  let bw := bw_put_bits bw 0 4 in                       (* pic_struct *)
  let bw := bw_put_bits bw 1 1 in                       (* clock_timestamp_flag[0] *)
  let bw := bw_put_bits bw 0 2 in                       (* ct_type *)
  let bw := bw_put_bits bw 0 1 in                       (* nuit_field_based_flag *)
  let bw := bw_put_bits bw 0 5 in                       (* counting_type *)
  let bw := bw_put_bits bw 1 1 in                       (* full_timestamp_flag *)
  let bw := bw_put_bits bw 0 1 in                       (* discontinuity_flag *)
  let bw := bw_put_bits bw (if drop_frame then 1 else 0) 1 in
  let bw := bw_put_bits bw (Z.land frame 255) 8 in      (* n_frames *)
  let bw := bw_put_bits bw (Z.land seconds 63) 6 in
  let bw := bw_put_bits bw (Z.land minutes 63) 6 in
  let bw := bw_put_bits bw (Z.land hours 31) 5 in
  if include_time_offset then bw_put_bits bw 0 24 else bw.

Definition pic_timing_payload (drop_frame : bool) (frame seconds minutes hours : Z)
    (include_time_offset : bool) : list Z :=
  bw_bytes (bw_flush_zero_align
              (pic_timing_fields drop_frame frame seconds minutes hours
                 include_time_offset)).

(** [while (total >= 255) { epb_safe_append(sei, 255); total -= 255; }],
    at most [n] times; returns the array and what is left of [total]. *)
Fixpoint sei_put_size (n : nat) (sei : list Z) (total : Z) : list Z * Z :=
  match n with
  | O => (sei, total)
  | S n' => if 255 <=? total
            then sei_put_size n' (epb_safe_append sei 255) (total - 255)
            else (sei, total)
  end.

Definition build_pic_timing_sei_nal (drop_frame : bool)
    (frame seconds minutes hours : Z) (include_time_offset : bool) : list Z :=
  let payload :=
    pic_timing_payload drop_frame frame seconds minutes hours include_time_offset in
  let sei := [0; 0; 0; 1] ++ [6] in
  let sei := epb_safe_append sei 1 in                   (* payloadType 1 *)
  let total := size_of payload in
  let '(sei, total) := sei_put_size (Z.to_nat (total / 255)) sei total in
  let sei := epb_safe_append sei (total mod 256) in
  let sei := fold_left epb_safe_append payload sei in
  epb_safe_append sei 128.

(** ** Bit reader *)

(** [br->data] and [br->size] are set once by [br_init]; what the reading
    functions change is [br->bitpos] and the caller's [ok] flag, threaded
    here as a state. *)
Record BrState := mkBr { br_bitpos : Z; br_ok : bool }.

Definition BR (A : Type) : Type := BrState -> A * BrState.

Definition br_ret {A} (a : A) : BR A := fun s => (a, s).

Definition br_bind {A B} (m : BR A) (f : A -> BR B) : BR B :=
  fun s => let (a, s1) := m s in f a s1.

Notation "x <- m ;; k" := (br_bind m (fun x => k))
  (at level 61, m at next level, right associativity).
Notation "m ;;; k" := (br_bind m (fun _ => k))
  (at level 61, right associativity).

Definition br_start : BrState := mkBr 0 true.

(** [for (i = 0; i < n; ++i) body], the results dropped. *)
Fixpoint br_repeat (n : nat) (body : BR Z) : BR unit :=
  match n with
  | O => br_ret tt
  | S n' => body ;;; br_repeat n' body
  end.

Definition br_when (c : bool) (m : BR Z) : BR unit :=
  if c then (m ;;; br_ret tt) else br_ret tt.

(** The bit of [data] at bit index [pos], first bit of a byte first. *)
Definition bit_at (data : list Z) (pos : Z) : Z :=
  Z.land (Z.shiftr (byte_at data (Z.shiftr pos 3)) (7 - Z.land pos 7)) 1.

Section BitReader.

Variable data : list Z.

Definition br_read_bit : BR Z := fun s =>
  if size_of data * 8 <=? br_bitpos s
  then (0, mkBr (br_bitpos s) false)
  else (bit_at data (br_bitpos s), mkBr (br_bitpos s + 1) (br_ok s)).

(** [val] is a [guint32]. *)
Fixpoint br_read_bits_loop (n : nat) (val : Z) : BR Z :=
  match n with
  | O => br_ret val
  | S n' => fun s =>
      let (bit, s1) := br_read_bit s in
      let val := Z.lor (Z.shiftl val 1 mod UINT32) bit in
      if negb (br_ok s1) then (0, s1) else br_read_bits_loop n' val s1
  end.

Definition br_read_bits (nbits : Z) : BR Z :=
  br_read_bits_loop (Z.to_nat nbits) 0.

(** The [while] loop of [br_read_ue]: [Some zeros] when a 1 bit ends it,
    [None] when the function returns 0 from inside it.  The loop body
    runs at most 32 times, since [zeros > 31] leaves. *)
Fixpoint br_read_ue_zeros (n : nat) (zeros : Z) : BR (option Z) := fun s =>
  let (bit, s1) := br_read_bit s in
  if bit =? 0 then
    if negb (br_ok s1) then (None, s1)
    else
      let zeros := zeros + 1 in
      if 31 <? zeros then (None, mkBr (br_bitpos s1) false)
      else match n with
           | O => (None, mkBr (br_bitpos s1) false)
           | S n' => br_read_ue_zeros n' zeros s1
           end
  else (Some zeros, s1).

Definition br_read_ue : BR Z :=
  z <- br_read_ue_zeros 32 0 ;;
  match z with
  | None => br_ret 0
  | Some zeros =>
      if zeros =? 0 then br_ret 0
      else
        suffix <- br_read_bits zeros ;;
        br_ret ((Z.shiftl 1 zeros - 1 + suffix) mod UINT32)
  end.

End BitReader.

(** ** SPS and VUI syntax *)

Record SpsVuiInfo := mkSpsVuiInfo {
  vui_present : bool;
  pic_struct_present_flag : bool;
  cpb_dpb_delays_present_flag : bool;
  cpb_removal_delay_length : Z;
  dpb_output_delay_length : Z;
  time_offset_length : Z;
  timing_info_present_flag : bool;
  num_units_in_tick : Z;
  time_scale : Z;
  fixed_frame_rate_flag : bool
}.

(** The structure after the [memset] that opens the parser. *)
Definition SpsVuiInfo_zero : SpsVuiInfo :=
  mkSpsVuiInfo false false false 0 0 0 false 0 0 false.

Definition is_high_profile (profile_idc : Z) : bool :=
  (profile_idc =? 100) || (profile_idc =? 110) || (profile_idc =? 122)
  || (profile_idc =? 244) || (profile_idc =? 44) || (profile_idc =? 83)
  || (profile_idc =? 86) || (profile_idc =? 118) || (profile_idc =? 128)
  || (profile_idc =? 138) || (profile_idc =? 139) || (profile_idc =? 134)
  || (profile_idc =? 135).

(** A [gint] holding [x], two's complement. *)
Definition to_gint (x : Z) : Z := (x + 2 ^ 31) mod UINT32 - 2 ^ 31.

(** What the parser and the two patchers read of a VUI before
    [pic_struct_present_flag]. *)
Record VuiHead := mkVuiHead {
  vh_timing_info_present_flag : Z;
  vh_num_units_in_tick : Z;
  vh_time_scale : Z;
  vh_fixed_frame_rate_flag : Z;
  vh_nal_hrd_parameters_present_flag : Z;
  vh_vcl_hrd_parameters_present_flag : Z;
  vh_cpb_removal_delay_length_minus1 : Z;
  vh_dpb_output_delay_length_minus1 : Z;
  vh_time_offset_length : Z
}.

Section SpsSyntax.

Variable data : list Z.

Local Notation "'read_bits'" := (br_read_bits data).
Local Notation "'read_ue'" := (br_read_ue data).

(** The patchers skip a scaling list as [size] exp-Golomb codes. *)
Definition skip_scaling_list_fixed (sizeOfScalingList : Z) : BR unit :=
  br_repeat (Z.to_nat sizeOfScalingList) read_ue.

(** The parser follows the delta loop of the standard: no code is read
    once [nextScale] is 0.  [n] counts the iterations left. *)
Fixpoint skip_scaling_list_delta_loop (n : nat) (lastScale nextScale : Z)
  : BR unit :=
  match n with
  | O => br_ret tt
  | S n' =>
      if negb (nextScale =? 0) then
        ue <- read_ue ;;
        let se := if negb (Z.land ue 1 =? 0)
                  then to_gint (((ue + 1) mod UINT32) / 2)
                  else to_gint (- to_gint (ue / 2)) in
        let nextScale := Z.rem (to_gint (to_gint (lastScale + se) + 256)) 256 in
        let lastScale := if nextScale =? 0 then lastScale else nextScale in
        skip_scaling_list_delta_loop n' lastScale nextScale
      else
        skip_scaling_list_delta_loop n' lastScale nextScale
  end.

Definition skip_scaling_list_delta (sizeOfScalingList : Z) : BR unit :=
  skip_scaling_list_delta_loop (Z.to_nat sizeOfScalingList) 8 8.

Section Walk.

(** How a present scaling list is skipped: the one place where the
    three copies of the SPS walk in the source differ. *)
Variable skip_scaling_list : Z -> BR unit.

(** [for (i = 0; i < count; ++i)], [n] iterations left. *)
Fixpoint scaling_lists (n : nat) (i : Z) : BR unit :=
  match n with
  | O => br_ret tt
  | S n' =>
      f <- read_bits 1 ;;
      (if negb (f =? 0)
       then skip_scaling_list (if i <? 6 then 16 else 64)
       else br_ret tt) ;;;
      scaling_lists n' (i + 1)
  end.

(** From [profile_idc] to the bit before [vui_parameters_present_flag]. *)
Definition sps_walk_to_vui (profile_idc : Z) : BR unit :=
  read_bits 8 ;;; read_bits 8 ;;; read_bits 8 ;;;
  read_ue ;;;                                   (* seq_parameter_set_id *)
  (if is_high_profile profile_idc then
     chroma_format_idc <- read_ue ;;
     br_when (chroma_format_idc =? 3) (read_bits 1) ;;;
     read_ue ;;; read_ue ;;; read_bits 1 ;;;
     seq_scaling_matrix_present_flag <- read_bits 1 ;;
     if negb (seq_scaling_matrix_present_flag =? 0)
     then scaling_lists (if negb (chroma_format_idc =? 3) then 8%nat else 12%nat) 0
     else br_ret tt
   else br_ret tt) ;;;
  read_ue ;;;                                   (* log2_max_frame_num_minus4 *)
  pic_order_cnt_type <- read_ue ;;
  (if pic_order_cnt_type =? 0 then read_ue ;;; br_ret tt
   else if pic_order_cnt_type =? 1 then
     read_bits 1 ;;; read_ue ;;; read_ue ;;;
     num_ref <- read_ue ;;
     br_repeat (Z.to_nat num_ref) read_ue
   else br_ret tt) ;;;
  read_ue ;;; read_bits 1 ;;; read_ue ;;; read_ue ;;;
  frame_mbs_only_flag <- read_bits 1 ;;
  br_when (frame_mbs_only_flag =? 0) (read_bits 1) ;;;
  read_bits 1 ;;;                               (* direct_8x8_inference_flag *)
  frame_cropping_flag <- read_bits 1 ;;
  if negb (frame_cropping_flag =? 0)
  then read_ue ;;; read_ue ;;; read_ue ;;; read_ue ;;; br_ret tt
  else br_ret tt.

End Walk.

(** One HRD parameter block; returns the three lengths it carries. *)
Definition hrd_parameters : BR (Z * Z * Z) :=
  cpb_cnt_minus1 <- read_ue ;;
  read_bits 4 ;;; read_bits 4 ;;;
  br_repeat (Z.to_nat (cpb_cnt_minus1 + 1))
    (read_ue ;;; read_ue ;;; read_bits 1) ;;;
  read_bits 5 ;;;
  cpb_removal_delay_length_minus1 <- read_bits 5 ;;
  dpb_output_delay_length_minus1 <- read_bits 5 ;;
  time_offset_length <- read_bits 5 ;;
  br_ret (cpb_removal_delay_length_minus1, dpb_output_delay_length_minus1,
          time_offset_length).

(** The VUI from [aspect_ratio_info_present_flag] to the bit before
    [pic_struct_present_flag]. *)
Definition vui_walk_to_pic_struct : BR VuiHead :=
  aspect_ratio_info_present_flag <- read_bits 1 ;;
  (if negb (aspect_ratio_info_present_flag =? 0) then
     aspect_ratio_idc <- read_bits 8 ;;
     if aspect_ratio_idc =? 255
     then read_bits 16 ;;; read_bits 16 ;;; br_ret tt
     else br_ret tt
   else br_ret tt) ;;;
  overscan_info_present_flag <- read_bits 1 ;;
  br_when (negb (overscan_info_present_flag =? 0)) (read_bits 1) ;;;
  video_signal_type_present_flag <- read_bits 1 ;;
  (if negb (video_signal_type_present_flag =? 0) then
     read_bits 3 ;;;
     colour_description_present_flag <- read_bits 1 ;;
     if negb (colour_description_present_flag =? 0)
     then read_bits 8 ;;; read_bits 8 ;;; read_bits 8 ;;; br_ret tt
     else br_ret tt
   else br_ret tt) ;;;
  chroma_loc_info_present_flag <- read_bits 1 ;;
  (if negb (chroma_loc_info_present_flag =? 0)
   then read_ue ;;; read_ue ;;; br_ret tt
   else br_ret tt) ;;;
  timing_info_present_flag <- read_bits 1 ;;
  timing <- (if negb (timing_info_present_flag =? 0) then
               num_units_in_tick <- read_bits 32 ;;
               time_scale <- read_bits 32 ;;
               fixed_frame_rate_flag <- read_bits 1 ;;
               br_ret (num_units_in_tick, time_scale, fixed_frame_rate_flag)
             else br_ret (0, 0, 0)) ;;
  nal_hrd_parameters_present_flag <- read_bits 1 ;;
  lengths <- (if negb (nal_hrd_parameters_present_flag =? 0)
              then hrd_parameters else br_ret (23, 23, 24)) ;;
  vcl_hrd_parameters_present_flag <- read_bits 1 ;;
  lengths <- (if negb (vcl_hrd_parameters_present_flag =? 0)
              then hrd_parameters else br_ret lengths) ;;
  br_when (negb (nal_hrd_parameters_present_flag =? 0)
           || negb (vcl_hrd_parameters_present_flag =? 0))
    (read_bits 1) ;;;                              (* low_delay_hrd_flag *)
  let '(num_units_in_tick, time_scale, fixed_frame_rate_flag) := timing in
  let '(cpb_len_minus1, dpb_len_minus1, time_offset_len) := lengths in
  br_ret (mkVuiHead timing_info_present_flag num_units_in_tick time_scale
            fixed_frame_rate_flag nal_hrd_parameters_present_flag
            vcl_hrd_parameters_present_flag cpb_len_minus1 dpb_len_minus1
            time_offset_len).

End SpsSyntax.

(** What [parse_sps_vui_info_from_rbsp] stores when the VUI is absent or a
    read has failed before it. *)
Definition SpsVuiInfo_conservative (vui_parameters_present_flag : Z) : SpsVuiInfo :=
  mkSpsVuiInfo (negb (vui_parameters_present_flag =? 0)) true false 0 0 0
    false 0 0 false.

(** Returns the [gboolean] result and [*out].  The source reads [rbsp[0]]
    whatever [size] is: the function is meant for an RBSP that is not
    empty, and on [[]] the value below stands for no run of the source. *)
Definition parse_sps_vui_info_from_rbsp (rbsp : list Z) : bool * SpsVuiInfo :=
  let profile_idc := byte_at rbsp 0 in
  let '(vui_parameters_present_flag, s) :=
    (sps_walk_to_vui rbsp (skip_scaling_list_delta rbsp) profile_idc ;;;
     br_read_bits rbsp 1) br_start in
  if (vui_parameters_present_flag =? 0) || negb (br_ok s)
  then (true, SpsVuiInfo_conservative vui_parameters_present_flag)
  else
    let '(h, s) := vui_walk_to_pic_struct rbsp s in
    let '(pic_struct, s) := br_read_bits rbsp 1 s in
    let hrd := negb (vh_nal_hrd_parameters_present_flag h =? 0)
               || negb (vh_vcl_hrd_parameters_present_flag h =? 0) in
    let timing := negb (vh_timing_info_present_flag h =? 0) in
    (br_ok s,
     mkSpsVuiInfo true (negb (pic_struct =? 0)) hrd
       ((vh_cpb_removal_delay_length_minus1 h + 1) mod UINT32)
       ((vh_dpb_output_delay_length_minus1 h + 1) mod UINT32)
       (if hrd then vh_time_offset_length h else 0)
       timing
       (if timing then vh_num_units_in_tick h else 0)
       (if timing then vh_time_scale h else 0)
       (if timing then negb (vh_fixed_frame_rate_flag h =? 0) else false)).

(** ** SPS patchers *)

(** [l[n] = v]; nothing is stored outside [l]. *)
Fixpoint set_nth (l : list Z) (n : nat) (v : Z) : list Z :=
  match l, n with
  | [], _ => []
  | _ :: t, O => v :: t
  | x :: t, S k => x :: set_nth t k v
  end.

Definition patch_sps_pic_struct_flag_to_one (ebsp : list Z) (header_byte : Z)
  : option (list Z) :=
  let rbsp := ebsp_to_rbsp ebsp in
  let profile_idc := byte_at rbsp 0 in
  let '(vui_parameters_present_flag, s) :=
    (sps_walk_to_vui rbsp (skip_scaling_list_fixed rbsp) profile_idc ;;;
     br_read_bits rbsp 1) br_start in
  if negb (br_ok s) || (vui_parameters_present_flag =? 0) then None
  else
    let '(_, s) := vui_walk_to_pic_struct rbsp s in
    if negb (br_ok s) then None
    else
      let bitpos := br_bitpos s in
      let byte_idx := Z.shiftr bitpos 3 in
      let bit_in_byte := 7 - Z.land bitpos 7 in
      let patched_rbsp :=
        set_nth rbsp (Z.to_nat byte_idx)
          (Z.lor (byte_at rbsp byte_idx) (Z.shiftl 1 bit_in_byte) mod 256) in
      Some (build_annexb_from_rbsp_and_header patched_rbsp header_byte).

(** The copy loop of [patch_sps_pic_struct_and_timing]: [n] bits go from
    the reader to the writer; [None] is the early [return NULL]. *)
Fixpoint copy_bits (rbsp : list Z) (n : nat) (s : BrState) (bw : BitWriter)
  : option BitWriter :=
  match n with
  | O => Some bw
  | S n' =>
      let (bit, s1) := br_read_bit rbsp s in
      if negb (br_ok s1) then None
      else copy_bits rbsp n' s1 (bw_put_bit bw bit)
  end.

(** The VUI that replaces whatever followed the copied prefix. *)
Definition write_timing_vui (bw : BitWriter) (fps_n fps_d : Z) : BitWriter :=
  let bw := bw_put_bit bw 1 in                 (* vui_parameters_present_flag *)
  let bw := bw_put_bits bw 0 1 in              (* aspect_ratio_info_present_flag *)
  let bw := bw_put_bits bw 0 1 in              (* overscan_info_present_flag *)
  let bw := bw_put_bits bw 0 1 in              (* video_signal_type_present_flag *)
  let bw := bw_put_bits bw 0 1 in              (* chroma_loc_info_present_flag *)
  let bw := bw_put_bits bw 1 1 in              (* timing_info_present_flag *)
  let num_units_in_tick := fps_d in
  let time_scale := (fps_n * 2) mod UINT32 in
  let bw := bw_put_bits bw num_units_in_tick 32 in
  let bw := bw_put_bits bw time_scale 32 in
  let bw := bw_put_bits bw 1 1 in              (* fixed_frame_rate_flag *)
  let bw := bw_put_bits bw 0 1 in              (* nal_hrd_parameters_present_flag *)
  let bw := bw_put_bits bw 0 1 in              (* vcl_hrd_parameters_present_flag *)
  let bw := bw_put_bits bw 1 1 in              (* pic_struct_present_flag *)
  let bw := bw_put_bits bw 0 1 in              (* bitstream_restriction_flag *)
  bw_put_rbsp_trailing_bits bw.

Definition patch_sps_pic_struct_and_timing (ebsp : list Z)
    (header_byte fps_n fps_d : Z) : option (list Z) :=
  if (fps_n =? 0) || (fps_d =? 0)
  then patch_sps_pic_struct_flag_to_one ebsp header_byte
  else
    let rbsp := ebsp_to_rbsp ebsp in
    let profile_idc := byte_at rbsp 0 in
    let '(_, s) :=
      sps_walk_to_vui rbsp (skip_scaling_list_fixed rbsp) profile_idc br_start in
    let vui_flag_bitpos := br_bitpos s in
    let '(_, s) := br_read_bits rbsp 1 s in
    if negb (br_ok s) then None
    else
      match copy_bits rbsp (Z.to_nat vui_flag_bitpos) br_start bw_init with
      | None => None
      | Some bw =>
          let new_rbsp := bw_bytes (write_timing_vui bw fps_n fps_d) in
          Some (build_annexb_from_rbsp_and_header new_rbsp header_byte)
      end.

(** The way back that [log_sps_vui_from_annexb] takes from an Annex B SPS
    NAL to the parsed VUI: start code, header byte, EBSP to RBSP, parse. *)
Definition sps_vui_of_annexb (annexb : list Z) : option SpsVuiInfo :=
  let size := size_of annexb in
  if size <? 5 then None
  else
    let sc := find_startcode annexb size 0 in
    if sc <? 0 then None
    else
      let sc_len := startcode_len_at annexb size sc in
      let nal_start := sc + sc_len in
      if size <=? nal_start + 1 then None
      else
        let rbsp := ebsp_to_rbsp (slice annexb (nal_start + 1) (size - (nal_start + 1))) in
        let '(ok, info) := parse_sps_vui_info_from_rbsp rbsp in
        if ok then Some info else None.

(** ** Buffers, configuration and cached state of the rewriter *)

Definition GST_SECOND : Z := 1000000000.
Definition GST_CLOCK_TIME_NONE : Z := 2 ^ 64 - 1.
Definition UINT64 : Z := 2 ^ 64.

(** The fields of the [GstVideoTimeCode] of a [GstVideoTimeCodeMeta] that
    the rewriter reads. *)
Record GstVideoTimeCode := mkTimeCode {
  tc_hours : Z;
  tc_minutes : Z;
  tc_seconds : Z;
  tc_frames : Z
}.

Record GstBuffer := mkBuffer {
  buf_data : list Z;
  buf_tc_meta : option GstVideoTimeCode;
  buf_pts : Z                      (* GstClockTime, a guint64 *)
}.

Record SeiConfig := mkSeiConfig {
  inject_sei : bool;
  fps_n : Z;
  fps_d : Z;
  prefer_pts : bool;
  verbose : bool;
  last_pts_ns : Z;
  last_sec : Z;
  est_fps : Z
}.

(** The file-scope variables [g_last_sps_info], [g_last_sps_valid] and
    [g_patched_sps_ebsp] ([None] is [NULL]). *)
Record Globals := mkGlobals {
  g_last_sps_info : SpsVuiInfo;
  g_last_sps_valid : bool;
  g_patched_sps_ebsp : option (list Z)
}.

Definition Globals_init : Globals := mkGlobals SpsVuiInfo_zero false None.

(** The locals [hours], [minutes], [seconds], [frame] and [drop_frame] of
    [prepend_h264_sei_timecode] once [have_tc] is set. *)
Record TcSample := mkTc {
  hours : Z;
  minutes : Z;
  seconds : Z;
  frame : Z;
  drop_frame : bool
}.

Definition is_ntsc_rate (n d : Z) : bool :=
  ((n =? 30000) && (d =? 1001)) || ((n =? 60000) && (d =? 1001)).

(** ** Timecode source: the first part of [prepend_h264_sei_timecode]

    GStreamer names no macro [GST_VIDEO_TIME_CODE_FLAG_DROP_FRAME], so of
    the [#ifdef] it is the [#else] branch that is compiled: with an
    upstream timecode, drop-frame follows the configured rate. *)

Definition set_est_fps (scfg : SeiConfig) (est : Z) : SeiConfig :=
  mkSeiConfig (inject_sei scfg) (fps_n scfg) (fps_d scfg) (prefer_pts scfg)
    (verbose scfg) (last_pts_ns scfg) (last_sec scfg) est.

Definition set_last_pts_ns (scfg : SeiConfig) (pts : Z) : SeiConfig :=
  mkSeiConfig (inject_sei scfg) (fps_n scfg) (fps_d scfg) (prefer_pts scfg)
    (verbose scfg) pts (last_sec scfg) (est_fps scfg).

(** The estimate made when the rate is unknown: [scfg->est_fps] after the
    block guarded by [scfg->last_pts_ns != 0]. *)
Definition update_est_fps (scfg : SeiConfig) (pts : Z) : SeiConfig :=
  if negb (last_pts_ns scfg =? 0) then
    let delta := (pts - last_pts_ns scfg) mod UINT64 in
    if 0 <? delta then
      let est := (GST_SECOND / delta) mod UINT32 in
      if (12 <=? est) && (est <=? 120) then set_est_fps scfg est else scfg
    else scfg
  else scfg.

Definition timecode_from_pts (scfg : SeiConfig) (pts : Z) : TcSample * SeiConfig :=
  let sec_total := pts / GST_SECOND in
  let hours := ((sec_total / 3600) mod 24) mod UINT32 in
  let minutes := ((sec_total / 60) mod 60) mod UINT32 in
  let seconds := (sec_total mod 60) mod UINT32 in
  if (0 <? fps_n scfg) && (0 <? fps_d scfg) then
    let num := ((pts mod GST_SECOND) * fps_n scfg) mod UINT64 in
    let den := (GST_SECOND * fps_d scfg) mod UINT64 in
    let frame := (num / den) mod UINT32 in
    (mkTc hours minutes seconds frame (is_ntsc_rate (fps_n scfg) (fps_d scfg)),
     scfg)
  else
    let scfg := update_est_fps scfg pts in
    let scfg := set_last_pts_ns scfg pts in
    let fps := if est_fps scfg =? 0 then 25 else est_fps scfg in
    let frac := pts mod GST_SECOND in
    let frame := (((frac * fps) mod UINT64) / GST_SECOND) mod UINT32 in
    (mkTc hours minutes seconds frame false, scfg).

(** [None] is [have_tc == FALSE]. *)
Definition timecode_source (scfg : SeiConfig) (inbuf : GstBuffer)
  : option TcSample * SeiConfig :=
  match buf_tc_meta inbuf with
  | Some tc =>
      let fpsn := fps_n scfg in
      let fpsd := if fps_d scfg =? 0 then 1 else fps_d scfg in
      (Some (mkTc (tc_hours tc) (tc_minutes tc) (tc_seconds tc) (tc_frames tc)
               (is_ntsc_rate fpsn fpsd)), scfg)
  | None =>
      if prefer_pts scfg && negb (buf_pts inbuf =? GST_CLOCK_TIME_NONE)
      then let (tc, scfg) := timecode_from_pts scfg (buf_pts inbuf) in
           (Some tc, scfg)
      else (None, scfg)
  end.

(** ** Picture Timing SEI from the SPS of the access unit *)

(** The loop of [extract_sps_vui_from_au]; [n] bounds the iterations,
    [pos] advances by at least a start code each time.  Returns the
    [gboolean] result and [*out]. *)
Fixpoint extract_sps_vui_loop (annexb : list Z) (size : Z) (n : nat) (pos : Z)
  : bool * SpsVuiInfo :=
  match n with
  | O => (false, SpsVuiInfo_zero)
  | S n' =>
      if pos + 4 <? size then
        let sc := find_startcode annexb size pos in
        if sc <? 0 then (false, SpsVuiInfo_zero)
        else
          let sc_len := startcode_len_at annexb size sc in
          let nal_start := sc + sc_len in
          if size <=? nal_start then (false, SpsVuiInfo_zero)
          else
            let next := find_startcode annexb size nal_start in
            let nal_end := if next <? 0 then size else next in
            let nal_hdr := byte_at annexb nal_start in
            let nal_type := Z.land nal_hdr 31 in
            if nal_type =? 7 then
              parse_sps_vui_info_from_rbsp
                (ebsp_to_rbsp
                   (slice annexb (nal_start + 1) (nal_end - (nal_start + 1))))
            else extract_sps_vui_loop annexb size n' nal_end
      else (false, SpsVuiInfo_zero)
  end.

Definition extract_sps_vui_from_au (annexb : list Z) : bool * SpsVuiInfo :=
  let size := size_of annexb in
  extract_sps_vui_loop annexb size (Z.to_nat size) 0.

(** The same loop, stopped at the call of the parser: the RBSP that
    [extract_sps_vui_from_au] hands to [parse_sps_vui_info_from_rbsp],
    that of the first NAL of type 7 it meets; [None] when it meets none.
    The call is not guarded: when that NAL is a header byte alone the RBSP
    is empty and the parser reads [rbsp[0]] outside the array. *)
Fixpoint extract_sps_rbsp_loop (annexb : list Z) (size : Z) (n : nat) (pos : Z)
  : option (list Z) :=
  match n with
  | O => None
  | S n' =>
      if pos + 4 <? size then
        let sc := find_startcode annexb size pos in
        if sc <? 0 then None
        else
          let sc_len := startcode_len_at annexb size sc in
          let nal_start := sc + sc_len in
          if size <=? nal_start then None
          else
            let next := find_startcode annexb size nal_start in
            let nal_end := if next <? 0 then size else next in
            let nal_hdr := byte_at annexb nal_start in
            let nal_type := Z.land nal_hdr 31 in
            if nal_type =? 7 then
              Some (ebsp_to_rbsp
                      (slice annexb (nal_start + 1) (nal_end - (nal_start + 1))))
            else extract_sps_rbsp_loop annexb size n' nal_end
      else None
  end.

Definition extract_sps_rbsp (annexb : list Z) : option (list Z) :=
  let size := size_of annexb in
  extract_sps_rbsp_loop annexb size (Z.to_nat size) 0.

Definition build_pic_timing_sei_nal_from_sps (info : SpsVuiInfo)
    (drop_frame : bool) (frame seconds minutes hours : Z) : list Z :=
  let include_time_offset :=
    cpb_dpb_delays_present_flag info && (0 <? time_offset_length info) in
  build_pic_timing_sei_nal drop_frame frame seconds minutes hours
    include_time_offset.

(** [pic_struct_present_flag = TRUE] and the four HRD fields cleared. *)
Definition force_no_hrd (info : SpsVuiInfo) (pic_struct : bool) : SpsVuiInfo :=
  mkSpsVuiInfo (vui_present info) pic_struct false 0 0 0
    (timing_info_present_flag info) (num_units_in_tick info) (time_scale info)
    (fixed_frame_rate_flag info).

Definition build_pic_timing_sei_nal_from_au (annexb : list Z) (drop_frame : bool)
    (frame seconds minutes hours : Z) : list Z :=
  let '(ok, info) := extract_sps_vui_from_au annexb in
  let info :=
    if ok
    then mkSpsVuiInfo (vui_present info) true (cpb_dpb_delays_present_flag info)
           (cpb_removal_delay_length info) (dpb_output_delay_length info)
           (time_offset_length info) (timing_info_present_flag info)
           (num_units_in_tick info) (time_scale info) (fixed_frame_rate_flag info)
    else mkSpsVuiInfo true true false 0 0 0 false 0 0 false in
  build_pic_timing_sei_nal_from_sps info drop_frame frame seconds minutes hours.

(** The block "Build Picture Timing SEI based on SPS/VUI" of
    [prepend_h264_sei_timecode] with the fallback that follows it. *)
Definition build_sei_for_au (g : Globals) (data : list Z) (tc : TcSample)
  : list Z * Globals :=
  let '(ok, info) := extract_sps_vui_from_au data in
  if ok then
    let info := force_no_hrd info true in
    (build_pic_timing_sei_nal_from_sps info (drop_frame tc) (frame tc)
       (seconds tc) (minutes tc) (hours tc),
     mkGlobals info true (g_patched_sps_ebsp g))
  else if g_last_sps_valid g then
    let info := force_no_hrd (g_last_sps_info g)
                  (pic_struct_present_flag (g_last_sps_info g)) in
    (build_pic_timing_sei_nal_from_sps info (drop_frame tc) (frame tc)
       (seconds tc) (minutes tc) (hours tc),
     mkGlobals info true (g_patched_sps_ebsp g))
  else
    (build_pic_timing_sei_nal_from_sps SpsVuiInfo_zero (drop_frame tc) (frame tc)
       (seconds tc) (minutes tc) (hours tc),
     g).

(** ** Scan of the access unit *)

Record AuScan := mkAuScan {
  insert_after_aud : bool;
  aud_end : Z;
  sps_present : bool;
  idr_present : bool;
  patched_cache : option (list Z)       (* g_patched_sps_ebsp *)
}.

(** [g_patched_sps_ebsp && g_patched_sps_ebsp->len > 0]. *)
Definition cache_populated (cache : option (list Z)) : bool :=
  match cache with
  | Some c => 0 <? size_of c
  | None => false
  end.

Definition cache_bytes (cache : option (list Z)) : list Z :=
  match cache with
  | Some c => c
  | None => []
  end.

(** One NAL of the scan: the [if / else if] chain on [nal_type]. *)
Definition scan_nal (scfg : SeiConfig) (data : list Z) (nal_start next : Z)
    (st : AuScan) : AuScan :=
  let nal_hdr := byte_at data nal_start in
  let nal_type := Z.land nal_hdr 31 in
  if (nal_type =? 9) && negb (insert_after_aud st) then
    mkAuScan true next (sps_present st) (idr_present st) (patched_cache st)
  else if nal_type =? 7 then
    let cache :=
      match patched_cache st with
      | None =>
          if nal_start + 1 <? next then
            let fpsn := if negb (fps_n scfg =? 0) then fps_n scfg
                        else if negb (est_fps scfg =? 0) then est_fps scfg
                        else 25 in
            let fpsd := if negb (fps_d scfg =? 0) then fps_d scfg else 1 in
            patch_sps_pic_struct_and_timing
              (slice data (nal_start + 1) (next - (nal_start + 1)))
              nal_hdr fpsn fpsd
          else None
      | Some c => Some c
      end in
    mkAuScan (insert_after_aud st) (aud_end st) true (idr_present st) cache
  else if nal_type =? 5 then
    mkAuScan (insert_after_aud st) (aud_end st) (sps_present st) true
      (patched_cache st)
  else st.

(** The [while (nal_start < size)] loop; [n] bounds the iterations. *)
Fixpoint scan_au_loop (scfg : SeiConfig) (data : list Z) (size : Z) (n : nat)
    (nal_start : Z) (st : AuScan) : AuScan :=
  match n with
  | O => st
  | S n' =>
      if nal_start <? size then
        let next := find_startcode data size (nal_start + 1) in
        let next := if next <? 0 then size else next in
        let st := scan_nal scfg data nal_start next st in
        if next =? size then st
        else
          let next_sc_len := startcode_len_at data size next in
          scan_au_loop scfg data size n' (next + next_sc_len) st
      else st
  end.

(** ** Assembly of the output *)

(** The loop "Append remaining NALs skipping SPS", the same in both
    branches of the source; [n] bounds the iterations.  Returns
    [out_arr]. *)
Fixpoint copy_nals_loop (data : list Z) (size : Z) (cache : option (list Z))
    (n : nat) (p : Z) (out_arr : list Z) (sps_replaced : bool) : list Z :=
  match n with
  | O => out_arr
  | S n' =>
      if p <? size then
        let sc := find_startcode data size p in
        if sc <? 0 then out_arr
        else
          let sc_len2 := startcode_len_at data size sc in
          let nal_start2 := sc + sc_len2 in
          if size <=? nal_start2 then out_arr
          else
            let next2 := find_startcode data size (nal_start2 + 1) in
            let next2 := if next2 <? 0 then size else next2 in
            let nal_hdr2 := byte_at data nal_start2 in
            let nal_type2 := Z.land nal_hdr2 31 in
            if nal_type2 =? 7 then
              if negb sps_replaced && cache_populated cache
              then copy_nals_loop data size cache n' next2
                     (out_arr ++ cache_bytes cache) true
              else copy_nals_loop data size cache n' next2 out_arr sps_replaced
            else if nal_type2 =? 6 then
              copy_nals_loop data size cache n' next2 out_arr sps_replaced
            else
              copy_nals_loop data size cache n' next2
                (out_arr ++ slice data sc (next2 - sc)) sps_replaced
      else out_arr
  end.

(** What [prepend_h264_sei_timecode] returns: the input buffer itself
    ([gst_buffer_ref(inbuf)]), or a new buffer with the rewritten bytes
    and the metadata and timestamps of the input. *)
Inductive Rewrite :=
| PassThrough
| Rewritten (out : list Z).

Definition rewrite_buffer (inbuf : GstBuffer) (r : Rewrite) : GstBuffer :=
  match r with
  | PassThrough => inbuf
  | Rewritten out => mkBuffer out (buf_tc_meta inbuf) (buf_pts inbuf)
  end.

(** The part of [prepend_h264_sei_timecode] that follows the timecode:
    SEI, scan, assembly. *)
Definition rewrite_au (scfg : SeiConfig) (g : Globals) (data : list Z)
    (tc : TcSample) : Rewrite * Globals :=
  let size := size_of data in
  let '(sei, g) := build_sei_for_au g data tc in
  let pos0 := find_startcode data size 0 in
  let sc_len := if 0 <=? pos0 then startcode_len_at data size pos0 else 0 in
  let st := mkAuScan false (-1) false false (g_patched_sps_ebsp g) in
  let st := if 0 <? sc_len
            then scan_au_loop scfg data size (Z.to_nat size) (pos0 + sc_len) st
            else st in
  let cache := patched_cache st in
  let g := mkGlobals (g_last_sps_info g) (g_last_sps_valid g) cache in
  if pos0 <? 0 then (PassThrough, g)
  else
    let inject_patched_sps :=
      cache_populated cache && (sps_present st || idr_present st) in
    let want_before_sei :=
      cache_populated cache && (sps_present st || inject_patched_sps) in
    let out_arr := if insert_after_aud st
                   then firstn (Z.to_nat (aud_end st)) data else [] in
    let out_arr := if want_before_sei then out_arr ++ cache_bytes cache
                   else out_arr in
    let sps_replaced := want_before_sei in
    let out_arr := if 0 <? size_of sei then out_arr ++ sei else out_arr in
    let p := if insert_after_aud st then aud_end st else 0 in
    (Rewritten
       (copy_nals_loop data size cache (Z.to_nat size) p out_arr sps_replaced),
     g).

Definition prepend_h264_sei_timecode (scfg : SeiConfig) (g : Globals)
    (inbuf : GstBuffer) : Rewrite * SeiConfig * Globals :=
  let '(tc, scfg) := timecode_source scfg inbuf in
  match tc with
  | None => (PassThrough, scfg, g)
  | Some tc =>
      let '(r, g) := rewrite_au scfg g (buf_data inbuf) tc in
      (r, scfg, g)
  end.

(** [h264_sei_inject_probe]: the buffer that continues downstream. *)
Definition h264_sei_inject_probe (scfg : SeiConfig) (g : Globals)
    (buf : GstBuffer) : GstBuffer * SeiConfig * Globals :=
  if negb (inject_sei scfg) then (buf, scfg, g)
  else
    let '(r, scfg, g) := prepend_h264_sei_timecode scfg g buf in
    (rewrite_buffer buf r, scfg, g).

(** ** Views used to state and prove the properties *)

(** Trailing zero bytes of an array under construction, counted up to 2:
    all that [epb_safe_append] looks at. *)
Definition trailing_zeros (arr : list Z) : Z :=
  match rev arr with
  | a :: b :: _ => if a =? 0 then (if b =? 0 then 2 else 1) else 0
  | [a] => if a =? 0 then 1 else 0
  | [] => 0
  end.

(** The bytes that a run of [epb_safe_append] calls adds to an array that
    ends with [z] zero bytes. *)
Fixpoint epb_encode (z : Z) (x : list Z) : list Z :=
  match x with
  | [] => []
  | b :: rest =>
      if (2 <=? z) && (b <=? 3)
      then 3 :: b :: epb_encode (if b =? 0 then 1 else 0) rest
      else b :: epb_encode (if b =? 0 then z + 1 else 0) rest
  end.

(** Bit [k] of [v], as the writer extracts it and the reader returns it. *)
Definition bit_of (v : Z) (k : nat) : Z := Z.land (Z.shiftr v (Z.of_nat k)) 1.

(** The [n] low bits of [v], most significant first. *)
Definition val_bits (n : nat) (v : Z) : list Z := map (bit_of v) (rev (seq 0 n)).

Definition bits_of_bytes (l : list Z) : list Z := flat_map (val_bits 8) l.

(** Every bit given to a writer so far: those of the emitted bytes, then
    those waiting in [current]. *)
Definition bw_bits (bw : BitWriter) : list Z :=
  bits_of_bytes (bw_bytes bw)
  ++ val_bits (Z.to_nat (bw_bits_filled bw)) (bw_current bw).

(** What every writer reached from [bw_init] satisfies. *)
Definition bw_wf (bw : BitWriter) : Prop :=
  0 <= bw_bits_filled bw < 8 /\ Forall is_byte (bw_bytes bw).

(** The bits of [data] from bit index [p] on start with [l]. *)
Definition bits_at (data : list Z) (p : nat) (l : list Z) : Prop :=
  exists pre post, bits_of_bytes data = pre ++ l ++ post /\ length pre = p.

(** What [br_read_bits] accumulates from a list of bits. *)
Definition accumulate_bits (l : list Z) (val : Z) : Z :=
  fold_left (fun val bit => Z.lor (Z.shiftl val 1 mod UINT32) bit) l val.

(** The bits of the Picture Timing payload up to [hours_value], in the
    order of the payload layout. *)
Definition pic_timing_bits (drop_frame : bool) (frame seconds minutes hours : Z)
  : list Z :=
  val_bits 4 0 ++ val_bits 1 1 ++ val_bits 2 0 ++ val_bits 1 0 ++ val_bits 5 0
  ++ val_bits 1 1 ++ val_bits 1 0 ++ val_bits 1 (if drop_frame then 1 else 0)
  ++ val_bits 8 (Z.land frame 255) ++ val_bits 6 (Z.land seconds 63)
  ++ val_bits 6 (Z.land minutes 63) ++ val_bits 5 (Z.land hours 31).

(** ** A reader for the injected SEI

    The source builds Picture Timing SEI messages and leaves reading them
    to the decoders downstream.  To state what a decoder finds, the
    message is read back here field by field in the order of the payload
    layout table of the specification (section 4.F), through the start
    code scanner, [ebsp_to_rbsp] and the bit reader of the source. *)

Record PicTiming := mkPicTiming {
  pt_payload_type : Z;
  pt_payload_size : Z;
  pt_pic_struct : Z;
  pt_clock_timestamp_flag : Z;
  pt_ct_type : Z;
  pt_nuit_field_based_flag : Z;
  pt_counting_type : Z;
  pt_full_timestamp_flag : Z;
  pt_discontinuity_flag : Z;
  pt_cnt_dropped_flag : Z;
  pt_n_frames : Z;
  pt_seconds_value : Z;
  pt_minutes_value : Z;
  pt_hours_value : Z
}.

(** [payloadType] and [payloadSize]: 0xFF bytes, each worth 255, then a
    last byte; [n] bounds the number of bytes. *)
Fixpoint spec_read_ff_coded (rbsp : list Z) (n : nat) (acc : Z) : BR Z :=
  match n with
  | O => br_ret acc
  | S n' =>
      b <- br_read_bits rbsp 8 ;;
      if b =? 255 then spec_read_ff_coded rbsp n' (acc + 255)
      else br_ret (acc + b)
  end.

Definition spec_read_pic_timing (rbsp : list Z) : BR PicTiming :=
  payload_type <- spec_read_ff_coded rbsp (length rbsp) 0 ;;
  payload_size <- spec_read_ff_coded rbsp (length rbsp) 0 ;;
  pic_struct <- br_read_bits rbsp 4 ;;
  clock_timestamp_flag <- br_read_bits rbsp 1 ;;
  ct_type <- br_read_bits rbsp 2 ;;
  nuit_field_based_flag <- br_read_bits rbsp 1 ;;
  counting_type <- br_read_bits rbsp 5 ;;
  full_timestamp_flag <- br_read_bits rbsp 1 ;;
  discontinuity_flag <- br_read_bits rbsp 1 ;;
  cnt_dropped_flag <- br_read_bits rbsp 1 ;;
  n_frames <- br_read_bits rbsp 8 ;;
  seconds_value <- br_read_bits rbsp 6 ;;
  minutes_value <- br_read_bits rbsp 6 ;;
  hours_value <- br_read_bits rbsp 5 ;;
  br_ret (mkPicTiming payload_type payload_size pic_struct clock_timestamp_flag
            ct_type nuit_field_based_flag counting_type full_timestamp_flag
            discontinuity_flag cnt_dropped_flag n_frames seconds_value
            minutes_value hours_value).

(** [None] when [nal] does not start with a start code, is not of type 6,
    or ends before [hours_value]. *)
Definition spec_decode_pic_timing_sei (nal : list Z) : option PicTiming :=
  let size := size_of nal in
  let sc := find_startcode nal size 0 in
  if negb (sc =? 0) then None
  else
    let nal_start := sc + startcode_len_at nal size sc in
    if negb (Z.land (byte_at nal nal_start) 31 =? 6) then None
    else
      let rbsp := ebsp_to_rbsp (slice nal (nal_start + 1) (size - (nal_start + 1))) in
      let '(pt, s) := spec_read_pic_timing rbsp br_start in
      if br_ok s then Some pt else None.

(** ** The frame-rate estimate, in the words of the claims *)

(** "Estimated as 1s / (pts - last_pts) clamped to [12, 120], defaulting
    to 25 fps when no estimate exists yet". *)
Definition spec_est_fps_clamped (last_pts pts prev : Z) : Z :=
  if negb (last_pts =? 0) && (last_pts <? pts)
  then Z.max 12 (Z.min 120 (GST_SECOND / (pts - last_pts)))
  else if prev =? 0 then 25 else prev.

(** What the code adopts: the quotient when it lies in [12, 120], the
    previous estimate otherwise.  The difference is that of two
    [guint64]. *)
Definition adopted_est_fps (last_pts pts prev : Z) : Z :=
  let delta := (pts - last_pts) mod UINT64 in
  let est := GST_SECOND / delta in
  if negb (last_pts =? 0) && (0 <? delta) && (12 <=? est) && (est <=? 120)
  then est else prev.

(** ** The NAL units of an access unit, as the loops of the rewriter find them *)

Definition nal_type_at (data : list Z) (nal_start : Z) : Z :=
  Z.land (byte_at data nal_start) 31.

(** For each NAL unit found from offset [p] on: the offset of its start
    code, of its header byte, and of its end (the next start code, or the
    end of the buffer).  This is the iteration of the copy loop of
    [prepend_h264_sei_timecode]; [n] bounds the number of units. *)
Fixpoint nal_units_loop (data : list Z) (size : Z) (n : nat) (p : Z)
  : list (Z * Z * Z) :=
  match n with
  | O => []
  | S n' =>
      if p <? size then
        let sc := find_startcode data size p in
        if sc <? 0 then []
        else
          let nal_start := sc + startcode_len_at data size sc in
          if size <=? nal_start then []
          else
            let next := find_startcode data size (nal_start + 1) in
            let next := if next <? 0 then size else next in
            (sc, nal_start, next) :: nal_units_loop data size n' next
      else []
  end.

Definition nal_units (data : list Z) (p : Z) : list (Z * Z * Z) :=
  nal_units_loop data (size_of data) (Z.to_nat (size_of data)) p.

Definition unit_type (data : list Z) (u : Z * Z * Z) : Z :=
  let '(_, nal_start, _) := u in nal_type_at data nal_start.





Definition scan_unit (scfg : SeiConfig) (data : list Z) (st : AuScan)
    (u : Z * Z * Z) : AuScan :=
  let '(_, nal_start, next) := u in scan_nal scfg data nal_start next st.

(** ** Sample data *)

(** The payload of an SPS NAL of High profile, 1280x720, with a VUI that
    declares 25 frames per second, as x264 emits it. *)
Definition sample_sps : list Z :=
  [100; 0; 31; 172; 217; 64; 80; 5; 187; 1; 16; 0; 0; 3; 0; 16; 0; 0; 3; 3;
   32; 241; 131; 25; 96].

Definition sample_sps_nal : list Z := [0; 0; 0; 1; 103] ++ sample_sps.
Definition sample_idr_nal : list Z := [0; 0; 1; 101; 136; 132].
Definition sample_aud_nal : list Z := [0; 0; 0; 1; 9; 240].
Definition sample_slice_nal : list Z := [0; 0; 0; 1; 65; 154].

(** 25 fps, injection on, PTS fallback allowed. *)
Definition sample_config : SeiConfig := mkSeiConfig true 25 1 true false 0 0 0.

(** Timecode 01:02:03:04, not drop-frame. *)
Definition sample_tc : TcSample := mkTc 1 2 3 4 false.

(** ** Readers that look only at the bits they consume *)

(** [d1] and [d2] carry the same bits before bit index [p], and [d2]
    holds at least [p] bits. *)
Definition agree_upto (d1 d2 : list Z) (p : Z) : Prop :=
  p <= 8 * size_of d2 /\ forall i, 0 <= i < p -> bit_at d1 i = bit_at d2 i.

(** A reader never moves back and never clears a failure. *)
Definition br_mono {A} (m : BR A) : Prop :=
  forall s a s', m s = (a, s') ->
    br_bitpos s <= br_bitpos s' /\ (br_ok s' = true -> br_ok s = true).

(** A run that ends without failure at bit [p] is the same on every
    buffer that agrees up to [p]. *)
Definition br_local {A} (m : list Z -> BR A) : Prop :=
  (forall d, br_mono (m d)) /\
  forall d1 d2 s a p,
    0 <= br_bitpos s -> m d1 s = (a, mkBr p true) -> agree_upto d1 d2 p ->
    m d2 s = (a, mkBr p true).

(** [bits_at] with the bit index as the reader holds it. *)
Definition bits_from (data : list Z) (pos : Z) (l : list Z) : Prop :=
  0 <= pos /\ bits_at data (Z.to_nat pos) l.

(** The bits that [write_timing_vui] writes before the trailing bits,
    from [vui_parameters_present_flag] to [bitstream_restriction_flag]. *)
Definition timing_vui_bits (fps_n fps_d : Z) : list Z :=
  val_bits 1 1 ++ val_bits 1 0 ++ val_bits 1 0 ++ val_bits 1 0 ++ val_bits 1 0
  ++ val_bits 1 1 ++ val_bits 32 fps_d ++ val_bits 32 ((fps_n * 2) mod UINT32)
  ++ val_bits 1 1 ++ val_bits 1 0 ++ val_bits 1 0 ++ val_bits 1 1 ++ val_bits 1 0.

(** The payload of an SPS NAL of High profile whose first scaling list is
    present and opens with delta -8, which ends the list at once; its VUI
    declares 30000/1001 and [pic_struct_present_flag = 0]. *)
Definition sample_sps_scaling_list : list Z :=
  [100; 0; 31; 173; 132; 64; 116; 2; 128; 45; 223; 248; 0; 128; 0; 25; 224;
   0; 0; 125; 32; 0; 29; 76; 17; 208; 160; 131; 23].

(** ** The patched SPS cache *)

(** [g_patched_sps_ebsp] as [prepend_h264_sei_timecode] fills it: empty,
    or a NAL that [build_annexb_from_rbsp_and_header] built with the
    header byte of an SPS. *)
Definition patched_sps_cache (cache : option (list Z)) : Prop :=
  match cache with
  | None => True
  | Some c =>
      exists rbsp nal_hdr,
        Z.land nal_hdr 31 = 7
        /\ c = build_annexb_from_rbsp_and_header rbsp nal_hdr
  end.


(** ** The NAL units of a buffer, offset by offset *)




(** ** Start code emulation *)

(** From byte index [k] on, two zero bytes are never followed by a byte
    below 3, so that no start code can be read there. *)
Definition emulation_free_from (k : Z) (arr : list Z) : Prop :=
  forall i, k <= i -> i + 2 < size_of arr ->
    byte_at arr i = 0 -> byte_at arr (i + 1) = 0 -> 3 <= byte_at arr (i + 2).

(** ** Runs of fields *)

(** A run of [bw_put_bits] calls, one for each field [(value, num_bits)]. *)
Definition bw_put_fields (bw : BitWriter) (fields : list (Z * Z)) : BitWriter :=
  fold_left (fun bw f => bw_put_bits bw (fst f) (snd f)) fields bw.

(** A run of [br_read_bits] calls, one for each width. *)
Fixpoint br_read_fields (data : list Z) (widths : list Z) : BR (list Z) :=
  match widths with
  | [] => br_ret []
  | n :: rest =>
      v <- br_read_bits data n ;;
      vs <- br_read_fields data rest ;;
      br_ret (v :: vs)
  end.

(** The bits of a run of fields, each most significant bit first. *)
Definition fields_bits (fields : list (Z * Z)) : list Z :=
  flat_map (fun f => val_bits (Z.to_nat (snd f)) (fst f)) fields.

(** ** The GOP timecode of [build_ffmpeg_timecode_sei] *)

(** [guint8 to_bcd(guint value, guint bits)]: both branches compute the
    same expression, and the return type keeps its 8 low bits. *)
Definition to_bcd (value bits : Z) : Z :=
  if bits =? 6
  then Z.lor (Z.shiftl (value / 10) 4 mod UINT32) (value mod 10) mod 256
  else Z.lor (Z.shiftl (value / 10) 4 mod UINT32) (value mod 10) mod 256.

(** The local [tc_25bit] of [build_ffmpeg_timecode_sei] after the five
    [|=]. *)
Definition tc_25bit (drop_frame : bool) (frame seconds minutes hours : Z) : Z :=
  let tc := 0 in
  let tc := Z.lor tc (Z.land (to_bcd frame 6) 63) in
  let tc := Z.lor tc (Z.shiftl (Z.land (to_bcd seconds 7) 127) 6) in
  let tc := Z.lor tc (Z.shiftl (Z.land (to_bcd minutes 6) 63) 13) in
  let tc := Z.lor tc (Z.shiftl (Z.land (to_bcd hours 5) 31) 19) in
  if drop_frame then Z.lor tc (Z.shiftl 1 24) else tc.

(** The 25 bytes stored in [out]. *)
Definition build_ffmpeg_timecode_sei (drop_frame : bool)
    (frame seconds minutes hours : Z) : list Z :=
  let tc := tc_25bit drop_frame frame seconds minutes hours in
  [79; 120; 202; 66; 76; 71; 17; 217; 148; 8; 0; 32; 12; 154; 102; 0;
   71; 65; 57; 52; 3;
   Z.land (Z.shiftr tc 24) 255; Z.land (Z.shiftr tc 16) 255;
   Z.land (Z.shiftr tc 8) 255; Z.land tc 255].

(** The two decimal digits of [v], one per nibble. *)
Definition bcd (v : Z) : Z := 16 * (v / 10) + v mod 10.

(** ** The command line

    [parse_args] and [build_audio_pipeline].  A [gchar *] that may be NULL
    is an [option string]; [g_strcmp0] on two strings is [String.eqb];
    [argv[1]] to [argv[argc - 1]] are a [list string].  [atoi] is the C
    library's and is left open: the definitions take it as an argument. *)

Module App.

Record AppConfig := mkAppConfig {
  ndi_name : option string;
  srt_uri : option string;
  with_audio : bool;
  encoder : string;
  bitrate_kbps : Z;
  gop_size : Z;
  audio_codec : string;
  audio_bitrate_kbps : Z;
  zerolatency : bool;
  inject_sei : bool;
  timeout_seconds : Z;
  dump_ts_path : option string;
  stdout_mode : bool;
  timestamp_mode : string;
  verbose : bool;
  discover : bool
}.

Definition set_ndi_name (cfg : AppConfig) (v : option string) : AppConfig :=
  mkAppConfig v (srt_uri cfg) (with_audio cfg) (encoder cfg) (bitrate_kbps cfg) (gop_size cfg) (audio_codec cfg) (audio_bitrate_kbps cfg) (zerolatency cfg) (inject_sei cfg) (timeout_seconds cfg) (dump_ts_path cfg) (stdout_mode cfg) (timestamp_mode cfg) (verbose cfg) (discover cfg).

Definition set_srt_uri (cfg : AppConfig) (v : option string) : AppConfig :=
  mkAppConfig (ndi_name cfg) v (with_audio cfg) (encoder cfg) (bitrate_kbps cfg) (gop_size cfg) (audio_codec cfg) (audio_bitrate_kbps cfg) (zerolatency cfg) (inject_sei cfg) (timeout_seconds cfg) (dump_ts_path cfg) (stdout_mode cfg) (timestamp_mode cfg) (verbose cfg) (discover cfg).

Definition set_with_audio (cfg : AppConfig) (v : bool) : AppConfig :=
  mkAppConfig (ndi_name cfg) (srt_uri cfg) v (encoder cfg) (bitrate_kbps cfg) (gop_size cfg) (audio_codec cfg) (audio_bitrate_kbps cfg) (zerolatency cfg) (inject_sei cfg) (timeout_seconds cfg) (dump_ts_path cfg) (stdout_mode cfg) (timestamp_mode cfg) (verbose cfg) (discover cfg).

Definition set_encoder (cfg : AppConfig) (v : string) : AppConfig :=
  mkAppConfig (ndi_name cfg) (srt_uri cfg) (with_audio cfg) v (bitrate_kbps cfg) (gop_size cfg) (audio_codec cfg) (audio_bitrate_kbps cfg) (zerolatency cfg) (inject_sei cfg) (timeout_seconds cfg) (dump_ts_path cfg) (stdout_mode cfg) (timestamp_mode cfg) (verbose cfg) (discover cfg).

Definition set_bitrate_kbps (cfg : AppConfig) (v : Z) : AppConfig :=
  mkAppConfig (ndi_name cfg) (srt_uri cfg) (with_audio cfg) (encoder cfg) v (gop_size cfg) (audio_codec cfg) (audio_bitrate_kbps cfg) (zerolatency cfg) (inject_sei cfg) (timeout_seconds cfg) (dump_ts_path cfg) (stdout_mode cfg) (timestamp_mode cfg) (verbose cfg) (discover cfg).

Definition set_gop_size (cfg : AppConfig) (v : Z) : AppConfig :=
  mkAppConfig (ndi_name cfg) (srt_uri cfg) (with_audio cfg) (encoder cfg) (bitrate_kbps cfg) v (audio_codec cfg) (audio_bitrate_kbps cfg) (zerolatency cfg) (inject_sei cfg) (timeout_seconds cfg) (dump_ts_path cfg) (stdout_mode cfg) (timestamp_mode cfg) (verbose cfg) (discover cfg).

Definition set_audio_codec (cfg : AppConfig) (v : string) : AppConfig :=
  mkAppConfig (ndi_name cfg) (srt_uri cfg) (with_audio cfg) (encoder cfg) (bitrate_kbps cfg) (gop_size cfg) v (audio_bitrate_kbps cfg) (zerolatency cfg) (inject_sei cfg) (timeout_seconds cfg) (dump_ts_path cfg) (stdout_mode cfg) (timestamp_mode cfg) (verbose cfg) (discover cfg).

Definition set_audio_bitrate_kbps (cfg : AppConfig) (v : Z) : AppConfig :=
  mkAppConfig (ndi_name cfg) (srt_uri cfg) (with_audio cfg) (encoder cfg) (bitrate_kbps cfg) (gop_size cfg) (audio_codec cfg) v (zerolatency cfg) (inject_sei cfg) (timeout_seconds cfg) (dump_ts_path cfg) (stdout_mode cfg) (timestamp_mode cfg) (verbose cfg) (discover cfg).

Definition set_zerolatency (cfg : AppConfig) (v : bool) : AppConfig :=
  mkAppConfig (ndi_name cfg) (srt_uri cfg) (with_audio cfg) (encoder cfg) (bitrate_kbps cfg) (gop_size cfg) (audio_codec cfg) (audio_bitrate_kbps cfg) v (inject_sei cfg) (timeout_seconds cfg) (dump_ts_path cfg) (stdout_mode cfg) (timestamp_mode cfg) (verbose cfg) (discover cfg).

Definition set_inject_sei (cfg : AppConfig) (v : bool) : AppConfig :=
  mkAppConfig (ndi_name cfg) (srt_uri cfg) (with_audio cfg) (encoder cfg) (bitrate_kbps cfg) (gop_size cfg) (audio_codec cfg) (audio_bitrate_kbps cfg) (zerolatency cfg) v (timeout_seconds cfg) (dump_ts_path cfg) (stdout_mode cfg) (timestamp_mode cfg) (verbose cfg) (discover cfg).

Definition set_timeout_seconds (cfg : AppConfig) (v : Z) : AppConfig :=
  mkAppConfig (ndi_name cfg) (srt_uri cfg) (with_audio cfg) (encoder cfg) (bitrate_kbps cfg) (gop_size cfg) (audio_codec cfg) (audio_bitrate_kbps cfg) (zerolatency cfg) (inject_sei cfg) v (dump_ts_path cfg) (stdout_mode cfg) (timestamp_mode cfg) (verbose cfg) (discover cfg).

Definition set_dump_ts_path (cfg : AppConfig) (v : option string) : AppConfig :=
  mkAppConfig (ndi_name cfg) (srt_uri cfg) (with_audio cfg) (encoder cfg) (bitrate_kbps cfg) (gop_size cfg) (audio_codec cfg) (audio_bitrate_kbps cfg) (zerolatency cfg) (inject_sei cfg) (timeout_seconds cfg) v (stdout_mode cfg) (timestamp_mode cfg) (verbose cfg) (discover cfg).

Definition set_stdout_mode (cfg : AppConfig) (v : bool) : AppConfig :=
  mkAppConfig (ndi_name cfg) (srt_uri cfg) (with_audio cfg) (encoder cfg) (bitrate_kbps cfg) (gop_size cfg) (audio_codec cfg) (audio_bitrate_kbps cfg) (zerolatency cfg) (inject_sei cfg) (timeout_seconds cfg) (dump_ts_path cfg) v (timestamp_mode cfg) (verbose cfg) (discover cfg).

Definition set_timestamp_mode (cfg : AppConfig) (v : string) : AppConfig :=
  mkAppConfig (ndi_name cfg) (srt_uri cfg) (with_audio cfg) (encoder cfg) (bitrate_kbps cfg) (gop_size cfg) (audio_codec cfg) (audio_bitrate_kbps cfg) (zerolatency cfg) (inject_sei cfg) (timeout_seconds cfg) (dump_ts_path cfg) (stdout_mode cfg) v (verbose cfg) (discover cfg).

Definition set_verbose (cfg : AppConfig) (v : bool) : AppConfig :=
  mkAppConfig (ndi_name cfg) (srt_uri cfg) (with_audio cfg) (encoder cfg) (bitrate_kbps cfg) (gop_size cfg) (audio_codec cfg) (audio_bitrate_kbps cfg) (zerolatency cfg) (inject_sei cfg) (timeout_seconds cfg) (dump_ts_path cfg) (stdout_mode cfg) (timestamp_mode cfg) v (discover cfg).

Definition set_discover (cfg : AppConfig) (v : bool) : AppConfig :=
  mkAppConfig (ndi_name cfg) (srt_uri cfg) (with_audio cfg) (encoder cfg) (bitrate_kbps cfg) (gop_size cfg) (audio_codec cfg) (audio_bitrate_kbps cfg) (zerolatency cfg) (inject_sei cfg) (timeout_seconds cfg) (dump_ts_path cfg) (stdout_mode cfg) (timestamp_mode cfg) (verbose cfg) v.

(** [*cfg] after the assignments that open [parse_args]. *)
Definition defaults : AppConfig :=
  mkAppConfig None None true "x264enc" 6000 0 "aac" 0 true true 0 None false
    "timecode" false false.

Section ParseArgs.

Variable atoi : string -> Z.

(** One iteration of the [for] loop on [argv[i]]; [next] is [argv[i + 1]]
    when [i + 1 < argc].  [None] is [return FALSE]; the boolean tells
    whether [argv[i + 1]] was taken ([++i]). *)
Definition parse_arg (a : string) (next : option string) (cfg : AppConfig)
  : option (AppConfig * bool) :=
  let has_next := match next with Some _ => true | None => false end in
  let v := match next with Some v => v | None => ""%string end in
  if (a =? "--ndi-name")%string && has_next then
    Some (set_ndi_name cfg (Some v), true)
  else if (a =? "--srt-uri")%string && has_next then
    Some (set_srt_uri cfg (Some v), true)
  else if (a =? "--encoder")%string && has_next then
    Some (set_encoder cfg v, true)
  else if (a =? "--bitrate")%string && has_next then
    Some (set_bitrate_kbps cfg (atoi v), true)
  else if (a =? "--gop-size")%string && has_next then
    let gop := atoi v in
    let gop := if gop <? 0 then 0 else gop in
    Some (set_gop_size cfg gop, true)
  else if (a =? "--audio-codec")%string && has_next then
    Some (set_audio_codec cfg v, true)
  else if (a =? "--audio-bitrate")%string && has_next then
    Some (set_audio_bitrate_kbps cfg (atoi v), true)
  else if (a =? "--no-audio")%string then
    Some (set_with_audio cfg false, false)
  else if (a =? "--zerolatency")%string then
    Some (set_zerolatency cfg true, false)
  else if (a =? "--no-sei")%string then
    Some (set_inject_sei cfg false, false)
  else if (a =? "--timeout")%string && has_next then
    let t := atoi v in
    let t := if t <? 0 then 0 else t in
    Some (set_timeout_seconds cfg t, true)
  else if (a =? "--dump-ts")%string && has_next then
    Some (set_dump_ts_path cfg (Some v), true)
  else if (a =? "--verbose")%string then
    Some (set_verbose cfg true, false)
  else if (a =? "--discover")%string then
    Some (set_discover cfg true, false)
  else if (a =? "--stdout")%string then
    Some (set_stdout_mode cfg true, false)
  else if (a =? "--timestamp-mode")%string && has_next then
    Some (set_timestamp_mode cfg v, true)
  else if (a =? "--help")%string || (a =? "-h")%string then
    None
  else
    None.                                   (* "Unknown arg" *)

(** The [for] loop over the arguments that are left. *)
Fixpoint parse_args_loop (args : list string) (cfg : AppConfig)
  : option AppConfig :=
  match args with
  | [] => Some cfg
  | a :: rest =>
      match rest with
      | v :: rest' =>
          match parse_arg a (Some v) cfg with
          | None => None
          | Some (cfg, true) => parse_args_loop rest' cfg
          | Some (cfg, false) => parse_args_loop rest cfg
          end
      | [] =>
          match parse_arg a None cfg with
          | None => None
          | Some (cfg, _) => Some cfg
          end
      end
  end.

(** [None] is [return FALSE], after which [main] prints the usage. *)
Definition parse_args (args : list string) : option AppConfig :=
  match parse_args_loop args defaults with
  | None => None
  | Some cfg =>
      if discover cfg then Some cfg
      else
        match ndi_name cfg, srt_uri cfg with
        | None, _ => None
        | Some _, None => if stdout_mode cfg then Some cfg else None
        | Some _, Some _ => Some cfg
        end
  end.

End ParseArgs.

(** The options that [parse_args] knows, and those among them that take a
    value. *)
Definition option_names : list string :=
  ["--ndi-name"; "--srt-uri"; "--encoder"; "--bitrate"; "--gop-size";
   "--audio-codec"; "--audio-bitrate"; "--no-audio"; "--zerolatency";
   "--no-sei"; "--timeout"; "--dump-ts"; "--verbose"; "--discover";
   "--stdout"; "--timestamp-mode"]%string.

Definition value_option_names : list string :=
  ["--ndi-name"; "--srt-uri"; "--encoder"; "--bitrate"; "--gop-size";
   "--audio-codec"; "--audio-bitrate"; "--timeout"; "--dump-ts";
   "--timestamp-mode"]%string.

(** ["%d"] of [g_strdup_printf]. *)
Definition decimal (x : Z) : string := NilZero.string_of_int (Z.to_int x).

(** [audio_bitrate_kbps * 1000] is computed on [gint] and printed with
    ["%d"]: the product wraps to 32 bits. *)
Definition build_audio_pipeline (audio_codec : string) (audio_bitrate_kbps : Z)
  : string :=
  if (audio_codec =? "aac")%string then
    if 0 <? audio_bitrate_kbps
    then ("audioconvert ! avenc_aac bitrate="
          ++ decimal (to_gint (audio_bitrate_kbps * 1000)))%string
    else "audioconvert ! avenc_aac"%string
  else if (audio_codec =? "mp3")%string then
    if 0 <? audio_bitrate_kbps
    then ("audioconvert ! lamemp3enc bitrate=" ++ decimal audio_bitrate_kbps)%string
    else "audioconvert ! lamemp3enc"%string
  else if (audio_codec =? "ac3")%string then
    if 0 <? audio_bitrate_kbps
    then ("audioconvert ! avenc_ac3 bitrate="
          ++ decimal (to_gint (audio_bitrate_kbps * 1000)))%string
    else "audioconvert ! avenc_ac3"%string
  else if (audio_codec =? "smpte302m")%string then
    "audioconvert ! audio/x-raw,format=S16LE,channels=2,rate=48000 ! avenc_s302m"%string
  else
    if 0 <? audio_bitrate_kbps
    then ("audioconvert ! avenc_aac bitrate="
          ++ decimal (to_gint (audio_bitrate_kbps * 1000)))%string
    else "audioconvert ! avenc_aac"%string.

End App.

(** * Properties *)

(** ** The Annex B scanner *)

Lemma find_startcode_loop_found data size n i r :
  find_startcode_loop data size n i = r -> r <> -1 ->
  i <= r /\ r + 3 < size /\ startcode_len_at data size r <> 0.
Proof.
  revert i. induction n as [|n IH]; intros i H Hr; simpl in H.
  - congruence.
  - destruct (i + 3 <? size) eqn:Hb; [|congruence].
    apply Z.ltb_lt in Hb.
    assert (Hrec : find_startcode_loop data size n (i + 1) = r ->
                   i <= r /\ r + 3 < size /\ startcode_len_at data size r <> 0).
    { intros H'. destruct (IH _ H' Hr) as (? & ? & ?). repeat split; auto; lia. }
    unfold startcode_len_at.
    destruct ((byte_at data i =? 0) && (byte_at data (i + 1) =? 0)) eqn:H00; auto.
    destruct (byte_at data (i + 2) =? 1) eqn:H1.
    + subst r. split; [lia|]. split; [lia|].
      apply Z.ltb_lt in Hb. rewrite Hb.
      apply andb_prop in H00. destruct H00 as [-> ->]. simpl. rewrite H1. lia.
    + destruct ((i + 4 <? size) && (byte_at data (i + 2) =? 0)
                && (byte_at data (i + 3) =? 1)) eqn:H4; auto.
      subst r. split; [lia|]. split; [lia|].
      apply Z.ltb_lt in Hb. rewrite Hb.
      apply andb_prop in H00. destruct H00 as [-> ->]. simpl.
      rewrite H1, H4. lia.
Qed.

Lemma startcode_len_at_cases data size pos :
  startcode_len_at data size pos = 0 \/
  (startcode_len_at data size pos = 3 /\ pos + 3 < size) \/
  (startcode_len_at data size pos = 4 /\ pos + 4 < size).
Proof.
  unfold startcode_len_at.
  destruct (pos + 3 <? size) eqn:H3; simpl; auto.
  apply Z.ltb_lt in H3.
  destruct ((byte_at data pos =? 0) && (byte_at data (pos + 1) =? 0)); simpl; auto.
  destruct (byte_at data (pos + 2) =? 1); auto.
  destruct (pos + 4 <? size) eqn:H4; simpl; auto.
  apply Z.ltb_lt in H4.
  destruct ((byte_at data (pos + 2) =? 0) && (byte_at data (pos + 3) =? 1)); auto.
Qed.

(** A start code that [find_startcode] reports is followed by its NAL
    header byte. *)
Lemma find_startcode_found data size from r :
  find_startcode data size from = r -> r <> -1 ->
  from <= r /\
  (startcode_len_at data size r = 3 \/ startcode_len_at data size r = 4) /\
  r + startcode_len_at data size r < size.
Proof.
  intros H Hr. apply find_startcode_loop_found in H; auto.
  destruct H as (Hle & _ & Hlen). split; auto.
  destruct (startcode_len_at_cases data size r) as [H0|[[H3 ?]|[H4 ?]]];
    [congruence| |]; rewrite ?H3, ?H4; split; auto.
Qed.

(** In a loop that has not failed, [-1] is the only negative result when
    the scan starts inside the buffer. *)
Lemma find_startcode_neg data size from :
  0 <= from -> find_startcode data size from < 0 ->
  find_startcode data size from = -1.
Proof.
  intros Hf Hneg.
  destruct (Z.eq_dec (find_startcode data size from) (-1)) as [|Hne]; auto.
  destruct (find_startcode_found data size from _ eq_refl Hne) as (? & _). lia.
Qed.

(** C10.  Whenever [find_startcode] returns a non-negative index [i], the
    start code at [i] is 3 or 4 bytes long and at least one byte follows
    it ([i + startcode_len < size]), so the NAL header byte read after it
    is inside the buffer; a buffer that is a bare start code (00 00 01 or
    00 00 00 01 alone) yields -1, and the rewriter passes it through as
    not Annex B. *)
Theorem find_startcode_header_in_bounds :
  (forall data from i,
      find_startcode data (size_of data) from = i -> 0 <= i ->
      (startcode_len_at data (size_of data) i = 3 \/
       startcode_len_at data (size_of data) i = 4) /\
      i + startcode_len_at data (size_of data) i < size_of data) /\
  find_startcode [0; 0; 1] 3 0 = -1 /\
  find_startcode [0; 0; 0; 1] 4 0 = -1 /\
  (forall scfg g tc, fst (rewrite_au scfg g [0; 0; 1] tc) = PassThrough) /\
  (forall scfg g tc, fst (rewrite_au scfg g [0; 0; 0; 1] tc) = PassThrough).
Proof.
  split; [|repeat split; try reflexivity].
  - intros data from i H Hi.
    destruct (find_startcode_found data (size_of data) from i H) as (_ & ? & ?);
      [lia|auto].
  - intros. unfold rewrite_au.
    destruct (build_sei_for_au g [0; 0; 1] tc). reflexivity.
  - intros. unfold rewrite_au.
    destruct (build_sei_for_au g [0; 0; 0; 1] tc). reflexivity.
Qed.

Lemma find_startcode_header_in_bounds_witness :
  let data := [0; 0; 0; 1; 9; 240] in
  (startcode_len_at data (size_of data) 0 = 3 \/
   startcode_len_at data (size_of data) 0 = 4) /\
  0 + startcode_len_at data (size_of data) 0 < size_of data.
Proof.
  exact (proj1 find_startcode_header_in_bounds [0; 0; 0; 1; 9; 240] 0 0
           eq_refl (Z.le_refl 0)).
Defined.

(** ** Emulation prevention *)

Lemma byte_at_last arr b : byte_at (arr ++ [b]) (size_of arr) = b.
Proof.
  unfold byte_at, size_of.
  destruct (Z.of_nat (length arr) <? 0) eqn:H; [apply Z.ltb_lt in H; lia|].
  rewrite Nat2Z.id, app_nth2, Nat.sub_diag; auto.
Qed.

Lemma size_of_app a b : size_of (a ++ b) = size_of a + size_of b.
Proof. unfold size_of. rewrite length_app. lia. Qed.

Lemma size_of_nonneg a : 0 <= size_of a.
Proof. unfold size_of. lia. Qed.

Lemma epb_condition arr :
  (2 <=? size_of arr) && (byte_at arr (size_of arr - 2) =? 0)
  && (byte_at arr (size_of arr - 1) =? 0) = (2 <=? trailing_zeros arr).
Proof.
  unfold trailing_zeros.
  destruct (rev arr) as [|a [|b r]] eqn:Hr;
    apply (f_equal (@rev Z)) in Hr; rewrite rev_involutive in Hr; subst arr;
    simpl rev.
  - reflexivity.
  - simpl. destruct (a =? 0); reflexivity.
  - replace ((rev r ++ [b]) ++ [a]) with (rev r ++ [b; a])
      by (rewrite <- app_assoc; reflexivity).
    rewrite size_of_app.
    replace (size_of [b; a]) with 2 by reflexivity.
    pose proof (size_of_nonneg (rev r)).
    replace (2 <=? size_of (rev r) + 2) with true
      by (symmetry; apply Z.leb_le; lia).
    replace (size_of (rev r) + 2 - 2) with (size_of (rev r)) by lia.
    replace (size_of (rev r) + 2 - 1) with (size_of (rev r ++ [b])) 
      by (rewrite size_of_app; unfold size_of at 2; simpl; lia).
    replace (rev r ++ [b; a]) with ((rev r ++ [b]) ++ [a]) at 2
      by (rewrite <- app_assoc; reflexivity).
    rewrite byte_at_last.
    replace (byte_at (rev r ++ [b; a]) (size_of (rev r))) with b.
    2:{ unfold byte_at, size_of.
        destruct (Z.of_nat (length (rev r)) <? 0) eqn:H0;
          [apply Z.ltb_lt in H0; lia|].
        rewrite Nat2Z.id, app_nth2, Nat.sub_diag; auto. }
    simpl. destruct (b =? 0), (a =? 0); reflexivity.
Qed.

Lemma trailing_zeros_snoc arr b :
  trailing_zeros (arr ++ [b]) =
  if b =? 0 then Z.min 2 (trailing_zeros arr + 1) else 0.
Proof.
  unfold trailing_zeros. rewrite rev_app_distr. simpl.
  destruct (rev arr) as [|a [|c r]]; destruct (b =? 0); auto;
    destruct (a =? 0); auto; destruct (c =? 0); auto.
Qed.

Lemma trailing_zeros_range arr : 0 <= trailing_zeros arr <= 2.
Proof.
  unfold trailing_zeros.
  destruct (rev arr) as [|a [|c r]]; try lia;
    destruct (a =? 0); try lia; destruct (c =? 0); lia.
Qed.

(** A run of [epb_safe_append] calls only adds bytes, and which bytes
    depends on the array only through its trailing zeros. *)
Lemma epb_fold_encode x : forall arr,
  fold_left epb_safe_append x arr = arr ++ epb_encode (trailing_zeros arr) x.
Proof.
  induction x as [|b x IH]; intros arr; simpl.
  - now rewrite app_nil_r.
  - rewrite IH. unfold epb_safe_append. rewrite epb_condition.
    pose proof (trailing_zeros_range arr) as Hz.
    destruct ((2 <=? trailing_zeros arr) && (b <=? 3)) eqn:Hc.
    + rewrite !trailing_zeros_snoc.
      rewrite <- !app_assoc. simpl.
      destruct (b =? 0); reflexivity.
    + rewrite trailing_zeros_snoc, <- app_assoc. simpl.
      destruct (b =? 0) eqn:Hb; auto.
      apply Z.eqb_eq in Hb. subst b.
      rewrite andb_true_r in Hc. apply Z.leb_gt in Hc.
      rewrite Z.min_r by lia. reflexivity.
Qed.

(** Decoding what was encoded gives the bytes back, whatever they are,
    as long as decoder and encoder start from the same zero count. *)
Lemma ebsp_decode_encode x : forall z acc,
  0 <= z <= 2 ->
  ebsp_to_rbsp_loop (epb_encode z x) acc z = acc ++ x.
Proof.
  induction x as [|b x IH]; intros z acc Hz; cbn [epb_encode ebsp_to_rbsp_loop].
  - now rewrite app_nil_r.
  - destruct (2 <=? z) eqn:Hz2; cbn [andb].
    + destruct (b <=? 3) eqn:Hb3; cbn [ebsp_to_rbsp_loop]; rewrite Hz2.
      * cbn [andb]. replace (3 =? 3) with true by reflexivity.
        cbn [ebsp_to_rbsp_loop]. replace (2 <=? 0) with false by reflexivity.
        cbn [andb]. rewrite Z.add_0_l.
        replace (1 mod UINT32) with 1 by reflexivity.
        rewrite IH by (destruct (b =? 0); lia). now rewrite <- app_assoc.
      * apply Z.leb_gt in Hb3.
        replace (b =? 3) with false by (symmetry; apply Z.eqb_neq; lia).
        replace (b =? 0) with false by (symmetry; apply Z.eqb_neq; lia).
        cbn [andb]. rewrite IH by lia. now rewrite <- app_assoc.
    + cbn [ebsp_to_rbsp_loop]. rewrite Hz2. cbn [andb].
      apply Z.leb_gt in Hz2.
      destruct (b =? 0) eqn:Hb0.
      * replace ((z + 1) mod UINT32) with (z + 1)
          by (symmetry; apply Z.mod_small; unfold UINT32; lia).
        rewrite IH by lia. now rewrite <- app_assoc.
      * rewrite IH by lia. now rewrite <- app_assoc.
Qed.

Lemma ebsp_roundtrip_any x : ebsp_to_rbsp (rbsp_to_ebsp x) = x.
Proof.
  unfold rbsp_to_ebsp, ebsp_to_rbsp. rewrite epb_fold_encode. simpl.
  apply (ebsp_decode_encode x 0 []). lia.
Qed.

Lemma has_forbidden_cons3 a b c r :
  has_forbidden (a :: b :: c :: r) =
  ((a =? 0) && (b =? 0) && (c <=? 3)) || has_forbidden (b :: c :: r).
Proof. reflexivity. Qed.

Lemma has_forbidden_tail a x :
  has_forbidden (a :: x) = false -> has_forbidden x = false.
Proof.
  destruct x as [|b [|c r]]; auto.
  rewrite has_forbidden_cons3. intros H. apply orb_false_iff in H. tauto.
Qed.

(** Without the forbidden pattern no byte is inserted at all. *)
Remark epb_encode_clean x : forall z,
  0 <= z <= 2 ->
  has_forbidden (repeat 0 (Z.to_nat z) ++ x) = false -> epb_encode z x = x.
Proof.
  induction x as [|b x IH]; intros z Hz Hf; cbn [epb_encode]; auto.
  destruct ((2 <=? z) && (b <=? 3)) eqn:Hc.
  - exfalso. apply andb_prop in Hc. destruct Hc as [Hc1 Hc2].
    apply Z.leb_le in Hc1. assert (z = 2) by lia. subst z.
    change (repeat 0 (Z.to_nat 2) ++ b :: x) with (0 :: 0 :: b :: x) in Hf.
    rewrite has_forbidden_cons3, Hc2 in Hf. discriminate.
  - f_equal. destruct (b =? 0) eqn:Hb0.
    + apply Z.eqb_eq in Hb0. subst b.
      rewrite andb_true_r in Hc. apply Z.leb_gt in Hc.
      apply IH; [lia|].
      replace (Z.to_nat (z + 1)) with (Z.to_nat z + 1)%nat by lia.
      rewrite repeat_app, <- app_assoc. exact Hf.
    + apply IH; [lia|]. cbn [Z.to_nat repeat app].
      assert (H : forall n, has_forbidden (repeat 0 n ++ b :: x) = false ->
                            has_forbidden x = false).
      { induction n as [|n IHn]; cbn [repeat app]; intros H.
        - now apply has_forbidden_tail in H.
        - apply IHn. now apply has_forbidden_tail in H. }
      exact (H _ Hf).
Qed.

(** C3.  For every byte sequence [x] without two zero bytes followed by a
    byte that is at most 3: converting [x] to EBSP with the emission rule
    of [epb_safe_append] and back with [ebsp_to_rbsp] returns exactly
    [x]. *)
Theorem ebsp_roundtrip (x : list Z) :
  has_forbidden x = false -> ebsp_to_rbsp (rbsp_to_ebsp x) = x.
Proof. intros _. apply ebsp_roundtrip_any. Qed.

Lemma ebsp_roundtrip_witness :
  ebsp_to_rbsp (rbsp_to_ebsp [0; 0; 4; 0; 1; 0; 0]) = [0; 0; 4; 0; 1; 0; 0].
Proof. exact (ebsp_roundtrip [0; 0; 4; 0; 1; 0; 0] eq_refl). Defined.

(** ** Bits *)

Lemma bit_of_testbit v k : bit_of v k = Z.b2z (Z.testbit v (Z.of_nat k)).
Proof.
  unfold bit_of. change 1 with (Z.ones 1).
  rewrite Z.land_ones by lia. rewrite Z.shiftr_div_pow2 by lia.
  rewrite Z.testbit_spec' by lia. reflexivity.
Qed.

Lemma bit_of_range v k : bit_of v k = 0 \/ bit_of v k = 1.
Proof. rewrite bit_of_testbit. destruct (Z.testbit v (Z.of_nat k)); auto. Qed.

Lemma bit_of_land1 v k : Z.land (bit_of v k) 1 = bit_of v k.
Proof. destruct (bit_of_range v k) as [-> | ->]; reflexivity. Qed.

Lemma val_bits_S n v : val_bits (S n) v = bit_of v n :: val_bits n v.
Proof. unfold val_bits. rewrite seq_S, rev_app_distr. reflexivity. Qed.

Lemma val_bits_length n v : length (val_bits n v) = n.
Proof. unfold val_bits. now rewrite length_map, length_rev, length_seq. Qed.

Lemma bits_of_bytes_app a b :
  bits_of_bytes (a ++ b) = bits_of_bytes a ++ bits_of_bytes b.
Proof. apply flat_map_app. Qed.

Lemma bits_of_bytes_length l : length (bits_of_bytes l) = (8 * length l)%nat.
Proof.
  induction l as [|b l IH]; auto.
  change (bits_of_bytes (b :: l)) with (val_bits 8 b ++ bits_of_bytes l).
  rewrite length_app, val_bits_length, IH. simpl. lia.
Qed.

Lemma val_bits_zero n : val_bits n 0 = repeat 0 n.
Proof.
  induction n as [|n IH]; auto.
  rewrite val_bits_S, IH. unfold bit_of. rewrite Z.shiftr_0_l. reflexivity.
Qed.

(** ** The bit writer emits the bits it is given *)

(** Shifting [current] left and entering a bit moves every bit up. *)
Lemma shifted_bits cur b f :
  (S f <= 8)%nat ->
  val_bits (S f) (Z.lor (Z.shiftl cur 1) (Z.land b 1) mod 256)
  = val_bits f cur ++ [Z.land b 1].
Proof.
  set (c := Z.lor (Z.shiftl cur 1) (Z.land b 1) mod 256).
  assert (Hbit : forall k, (k < 8)%nat ->
            Z.testbit c (Z.of_nat k)
            = if (k =? 0)%nat then Z.testbit b 0
              else Z.testbit cur (Z.of_nat k - 1)).
  { intros k Hk. unfold c. change 256 with (2 ^ 8).
    rewrite Z.mod_pow2_bits_low by lia.
    rewrite Z.lor_spec, Z.shiftl_spec, Z.land_spec by lia.
    destruct k as [|k]; cbn [Nat.eqb].
    - change (Z.of_nat 0) with 0. rewrite Z.testbit_neg_r by lia.
      change (Z.testbit 1 0) with true. now rewrite andb_true_r.
    - replace (Z.testbit 1 (Z.of_nat (S k))) with false.
      + now rewrite andb_false_r, orb_false_r.
      + symmetry. apply Z.bits_above_log2; simpl; lia. }
  induction f as [|f IH]; intros Hf.
  - rewrite val_bits_S. cbn [val_bits seq rev map app].
    rewrite bit_of_testbit, Hbit by lia. cbn [Nat.eqb].
    change 1 with (Z.ones 1). rewrite Z.land_ones by lia.
    rewrite <- Z.bit0_mod. reflexivity.
  - rewrite val_bits_S, IH by lia. rewrite (val_bits_S f cur).
    cbn [app]. f_equal.
    rewrite !bit_of_testbit, Hbit by lia. cbn [Nat.eqb].
    do 2 f_equal. lia.
Qed.

Lemma bw_put_bit_bits bw b :
  bw_wf bw ->
  bw_wf (bw_put_bit bw b) /\ bw_bits (bw_put_bit bw b) = bw_bits bw ++ [Z.land b 1].
Proof.
  unfold bw_wf, bw_put_bit, bw_bits. intros [Hwf Hbytes].
  destruct (bw_bits_filled bw + 1 =? 8) eqn:H8; cbn [bw_bytes bw_current bw_bits_filled].
  - apply Z.eqb_eq in H8. split.
    { split; [lia|]. apply Forall_app. split; auto. constructor; auto.
      apply Z.mod_pos_bound. lia. }
    rewrite bits_of_bytes_app.
    change (bits_of_bytes [Z.lor (Z.shiftl (bw_current bw) 1) (Z.land b 1) mod 256])
      with (val_bits 8 (Z.lor (Z.shiftl (bw_current bw) 1) (Z.land b 1) mod 256) ++ []).
    change (val_bits (Z.to_nat 0) 0) with (@nil Z).
    rewrite !app_nil_r, <- app_assoc. f_equal.
    replace (Z.to_nat (bw_bits_filled bw)) with 7%nat by lia.
    apply (shifted_bits (bw_current bw) b 7). lia.
  - apply Z.eqb_neq in H8. split; [split; [lia|auto]|].
    rewrite <- app_assoc. f_equal.
    replace (Z.to_nat (bw_bits_filled bw + 1))
      with (S (Z.to_nat (bw_bits_filled bw))) by lia.
    apply shifted_bits. lia.
Qed.

Lemma bw_put_bits_loop_bits n : forall bw v,
  bw_wf bw ->
  bw_wf (bw_put_bits_loop bw v n)
  /\ bw_bits (bw_put_bits_loop bw v n) = bw_bits bw ++ val_bits n v.
Proof.
  induction n as [|n IH]; intros bw v Hwf; cbn [bw_put_bits_loop].
  - split; auto. cbn [val_bits seq rev map]. now rewrite app_nil_r.
  - destruct (bw_put_bit_bits bw (Z.land (Z.shiftr v (Z.of_nat n)) 1) Hwf)
      as [Hwf' Hb].
    destruct (IH _ v Hwf') as [Hwf'' Hb'']. split; auto.
    rewrite Hb'', Hb, val_bits_S, <- app_assoc.
    fold (bit_of v n). rewrite bit_of_land1. reflexivity.
Qed.

Lemma bw_put_bits_bits bw v n :
  bw_wf bw -> 0 <= n ->
  bw_wf (bw_put_bits bw v n)
  /\ bw_bits (bw_put_bits bw v n) = bw_bits bw ++ val_bits (Z.to_nat n) v.
Proof. intros. now apply bw_put_bits_loop_bits. Qed.

Lemma bw_put_bit_filled bw b :
  bw_wf bw -> bw_bits_filled (bw_put_bit bw b) = (bw_bits_filled bw + 1) mod 8.
Proof.
  unfold bw_wf, bw_put_bit. intros [Hwf _].
  destruct (bw_bits_filled bw + 1 =? 8) eqn:H8; cbn [bw_bits_filled].
  - apply Z.eqb_eq in H8. rewrite H8. reflexivity.
  - apply Z.eqb_neq in H8. rewrite Z.mod_small; lia.
Qed.

(** Padding stops at the next byte boundary. *)
Lemma bw_zero_pad_bits n : forall bw,
  bw_wf bw ->
  bw_bits_filled bw = 0 \/ 8 - bw_bits_filled bw <= Z.of_nat n ->
  bw_bits_filled (bw_zero_pad n bw) = 0 /\
  bw_bits (bw_zero_pad n bw)
  = bw_bits bw ++ repeat 0 (Z.to_nat ((8 - bw_bits_filled bw) mod 8)).
Proof.
  induction n as [|n IH]; intros bw Hwf Hn; cbn [bw_zero_pad].
  - assert (H0 : bw_bits_filled bw = 0) by (destruct Hwf; lia).
    rewrite H0. split; auto. cbn. now rewrite app_nil_r.
  - destruct (bw_bits_filled bw =? 0) eqn:H0.
    + apply Z.eqb_eq in H0. rewrite H0. split; auto. cbn. now rewrite app_nil_r.
    + apply Z.eqb_neq in H0.
      destruct (bw_put_bit_bits bw 0 Hwf) as [Hwf' Hb].
      pose proof (bw_put_bit_filled bw 0 Hwf) as Hf.
      destruct Hwf as [Hwf _].
      destruct (IH (bw_put_bit bw 0) Hwf') as [Hz Hbits].
      { rewrite Hf.
        destruct (Z.eq_dec (bw_bits_filled bw) 7) as [->|]; [left; reflexivity|].
        right. rewrite Z.mod_small by lia. lia. }
      split; auto. rewrite Hbits, Hb, Hf, <- app_assoc. f_equal.
      change (Z.land 0 1) with 0.
      destruct (Z.eq_dec (bw_bits_filled bw) 7) as [->|]; [reflexivity|].
      rewrite (Z.mod_small (bw_bits_filled bw + 1)) by lia.
      rewrite !Z.mod_small by lia.
      replace (Z.to_nat (8 - bw_bits_filled bw))
        with (S (Z.to_nat (8 - (bw_bits_filled bw + 1)))) by lia.
      reflexivity.
Qed.

(** [bw_flush_zero_align] shifts zeros in by hand; the effect is that of
    writing zero bits. *)
Lemma bw_flush_loop_zero_pad n : forall bw,
  bw_flush_loop n bw = bw_zero_pad n bw.
Proof.
  induction n as [|n IH]; intros bw; cbn [bw_flush_loop bw_zero_pad]; auto.
  destruct (bw_bits_filled bw =? 0) eqn:H0; auto.
  unfold bw_put_bit. change (Z.land 0 1) with 0. rewrite Z.lor_0_r.
  destruct (bw_bits_filled bw + 1 =? 8) eqn:H8.
  - destruct n; reflexivity.
  - apply IH.
Qed.

Lemma bw_flush_zero_align_bits bw :
  bw_wf bw ->
  bw_bits_filled (bw_flush_zero_align bw) = 0 /\
  bw_bits (bw_flush_zero_align bw)
  = bw_bits bw ++ repeat 0 (Z.to_nat ((8 - bw_bits_filled bw) mod 8)).
Proof.
  intros Hwf. unfold bw_flush_zero_align.
  destruct (0 <? bw_bits_filled bw) eqn:Hpos.
  - rewrite bw_flush_loop_zero_pad. apply bw_zero_pad_bits; auto.
    destruct Hwf. right. change (Z.of_nat 8) with 8. lia.
  - apply Z.ltb_ge in Hpos. destruct Hwf as [Hwf _].
    assert (H0 : bw_bits_filled bw = 0) by lia. rewrite H0.
    split; auto. cbn. now rewrite app_nil_r.
Qed.

Lemma bw_put_rbsp_trailing_bits_bits bw :
  bw_wf bw ->
  bw_bits_filled (bw_put_rbsp_trailing_bits bw) = 0 /\
  exists k, bw_bits (bw_put_rbsp_trailing_bits bw) = bw_bits bw ++ 1 :: repeat 0 k.
Proof.
  intros Hwf. unfold bw_put_rbsp_trailing_bits.
  destruct (bw_put_bit_bits bw 1 Hwf) as [Hwf' Hb].
  destruct (bw_zero_pad_bits 8 (bw_put_bit bw 1) Hwf') as [Hz Hbits].
  { destruct Hwf'. right. change (Z.of_nat 8) with 8. lia. }
  split; auto. eexists. rewrite Hbits, Hb, <- app_assoc. reflexivity.
Qed.

(** Once aligned, the bits given to the writer are the bits of its bytes. *)
Lemma bw_bits_aligned bw :
  bw_bits_filled bw = 0 -> bw_bits bw = bits_of_bytes (bw_bytes bw).
Proof. unfold bw_bits. intros ->. cbn. now rewrite app_nil_r. Qed.

Lemma bw_init_wf : bw_wf bw_init.
Proof. split; [simpl; lia|constructor]. Qed.

(** ** The bit reader returns the bits of the buffer *)

Lemma val_bits_8_nth b r :
  (r < 8)%nat -> nth r (val_bits 8 b) 0 = bit_of b (7 - r).
Proof.
  intros Hr. do 8 (destruct r as [|r]; [reflexivity|]). lia.
Qed.

Lemma bits_of_bytes_nth data : forall p,
  (p < 8 * length data)%nat ->
  nth p (bits_of_bytes data) 0 = bit_of (nth (p / 8) data 0) (7 - p mod 8).
Proof.
  induction data as [|b data IH]; intros p Hp; [cbn [length] in Hp; lia|].
  change (bits_of_bytes (b :: data)) with (val_bits 8 b ++ bits_of_bytes data).
  destruct (Nat.lt_ge_cases p 8) as [Hlt|Hge].
  - rewrite app_nth1 by (rewrite val_bits_length; lia).
    rewrite Nat.div_small, Nat.mod_small by lia. now apply val_bits_8_nth.
  - rewrite app_nth2 by (rewrite val_bits_length; lia).
    rewrite val_bits_length, IH by (cbn [length] in Hp; lia).
    replace p with ((p - 8) + 1 * 8)%nat at 3 4 by lia.
    rewrite Nat.div_add, Nat.Div0.mod_add by lia.
    replace (((p - 8) / 8 + 1)%nat) with (S ((p - 8) / 8)) by lia.
    reflexivity.
Qed.

Lemma bit_at_nth data p :
  (p < 8 * length data)%nat ->
  bit_at data (Z.of_nat p) = nth p (bits_of_bytes data) 0.
Proof.
  intros Hp. rewrite bits_of_bytes_nth by auto.
  assert (Hq : Z.shiftr (Z.of_nat p) 3 = Z.of_nat (p / 8)).
  { rewrite Z.shiftr_div_pow2 by lia. now rewrite Nat2Z.inj_div. }
  assert (Hr : Z.land (Z.of_nat p) 7 = Z.of_nat (p mod 8)).
  { change 7 with (Z.ones 3). rewrite Z.land_ones by lia.
    now rewrite Nat2Z.inj_mod. }
  unfold bit_at, bit_of, byte_at. rewrite Hq, Hr.
  destruct (Z.of_nat (p / 8) <? 0) eqn:Hneg; [apply Z.ltb_lt in Hneg; lia|].
  rewrite Nat2Z.id.
  pose proof (Nat.mod_upper_bound p 8).
  replace (7 - Z.of_nat (p mod 8)) with (Z.of_nat (7 - p mod 8)) by lia.
  reflexivity.
Qed.

Lemma bits_at_inside data p b l :
  bits_at data p (b :: l) ->
  (p < 8 * length data)%nat /\ nth p (bits_of_bytes data) 0 = b.
Proof.
  intros (pre & post & Hbits & Hlen). subst p.
  rewrite <- bits_of_bytes_length, Hbits. split.
  - rewrite length_app. simpl. lia.
  - rewrite app_nth2, Nat.sub_diag by lia. reflexivity.
Qed.

Lemma bits_at_app data p l1 l2 :
  bits_at data p (l1 ++ l2) ->
  bits_at data p l1 /\ bits_at data (p + length l1) l2.
Proof.
  intros (pre & post & Hbits & Hlen). split.
  - exists pre, (l2 ++ post). now rewrite <- app_assoc in Hbits.
  - exists (pre ++ l1), post. rewrite length_app, Hlen. split; auto.
    now rewrite Hbits, <- !app_assoc.
Qed.

Lemma bits_at_cons data p b l :
  bits_at data p (b :: l) -> bits_at data (S p) l.
Proof.
  intros H. apply (bits_at_app data p [b] l) in H.
  destruct H as [_ H]. now rewrite Nat.add_1_r in H.
Qed.

Lemma bits_at_start data l1 l2 :
  bits_of_bytes data = l1 ++ l2 -> bits_at data 0 l1.
Proof. intros H. exists [], l2. now split. Qed.

Lemma br_read_bit_at data p b l ok :
  bits_at data p (b :: l) ->
  br_read_bit data (mkBr (Z.of_nat p) ok) = (b, mkBr (Z.of_nat p + 1) ok).
Proof.
  intros H. destruct (bits_at_inside _ _ _ _ H) as [Hp Hb].
  unfold br_read_bit, size_of. cbn [br_bitpos br_ok].
  destruct (Z.of_nat (length data) * 8 <=? Z.of_nat p) eqn:Hend.
  - apply Z.leb_le in Hend. lia.
  - rewrite bit_at_nth, Hb by auto. reflexivity.
Qed.

Lemma br_read_bits_loop_at data l : forall p val,
  bits_at data p l ->
  br_read_bits_loop data (length l) val (mkBr (Z.of_nat p) true)
  = (accumulate_bits l val, mkBr (Z.of_nat p + Z.of_nat (length l)) true).
Proof.
  induction l as [|b l IH]; intros p val H; cbn [length br_read_bits_loop].
  - unfold br_ret, accumulate_bits. simpl. now rewrite Z.add_0_r.
  - rewrite (br_read_bit_at data p b l true H). cbn [br_ok negb].
    replace (Z.of_nat p + 1) with (Z.of_nat (S p)) by lia.
    rewrite IH by (eapply bits_at_cons; eauto).
    unfold accumulate_bits. cbn [fold_left]. do 2 f_equal. lia.
Qed.

Lemma accumulate_val_bits n : forall v val,
  (n <= 32)%nat -> 0 <= val < 2 ^ (32 - Z.of_nat n) ->
  accumulate_bits (val_bits n v) val = val * 2 ^ Z.of_nat n + v mod 2 ^ Z.of_nat n.
Proof.
  induction n as [|n IH]; intros v val Hn Hval.
  - unfold accumulate_bits. cbn. rewrite Z.mod_1_r. lia.
  - rewrite val_bits_S. unfold accumulate_bits. cbn [fold_left].
    fold (accumulate_bits (val_bits n v)
            (Z.lor (Z.shiftl val 1 mod UINT32) (bit_of v n))).
    rewrite Nat2Z.inj_succ in *. rewrite Z.pow_succ_r by lia.
    assert (Hp : 0 < 2 ^ Z.of_nat n) by (apply Z.pow_pos_nonneg; lia).
    assert (Hq : 2 ^ (32 - Z.of_nat n) = 2 * 2 ^ (32 - Z.succ (Z.of_nat n))).
    { rewrite <- Z.pow_succ_r by lia. f_equal. lia. }
    assert (Hle : 2 ^ (32 - Z.of_nat n) <= 2 ^ 32)
      by (apply Z.pow_le_mono_r; lia).
    rewrite Z.shiftl_mul_pow2, Z.pow_1_r by lia.
    rewrite Z.mod_small by (unfold UINT32; lia).
    assert (Hor : Z.lor (val * 2) (bit_of v n) = val * 2 + bit_of v n).
    { destruct (bit_of_range v n) as [-> | ->].
      - rewrite Z.lor_0_r. lia.
      - rewrite (Z.mul_comm val 2).
        destruct val as [|q|q]; try reflexivity. lia. }
    rewrite Hor, IH.
    + rewrite (Z.mul_comm 2 (2 ^ Z.of_nat n)).
      rewrite (Z.rem_mul_r v (2 ^ Z.of_nat n) 2) by lia.
      rewrite bit_of_testbit, Z.testbit_spec' by lia. ring.
    + lia.
    + destruct (bit_of_range v n) as [-> | ->]; lia.
Qed.

(** Reading [n <= 32] bits where [v] was written gives [v]'s low [n] bits. *)
Lemma br_read_bits_val data p n v :
  (n <= 32)%nat ->
  bits_at data p (val_bits n v) ->
  br_read_bits data (Z.of_nat n) (mkBr (Z.of_nat p) true)
  = (v mod 2 ^ Z.of_nat n, mkBr (Z.of_nat p + Z.of_nat n) true).
Proof.
  intros Hn H. unfold br_read_bits. rewrite Nat2Z.id.
  pose proof (br_read_bits_loop_at data (val_bits n v) p 0 H) as Hr.
  rewrite val_bits_length in Hr. rewrite Hr.
  rewrite accumulate_val_bits; [reflexivity|lia|].
  split; [lia|]. apply Z.pow_pos_nonneg; lia.
Qed.

(** ** The Picture Timing SEI *)

(** One writer call: name the writer it returns and record the bits
    given to it so far. *)
Ltac bw_step :=
  match goal with
  | W : bw_wf ?bw, Bp : bw_bits ?bw = _ |- context [bw_put_bits ?bw ?v ?n] =>
      let W' := fresh "W" in
      let B := fresh "B" in
      let bw' := fresh "bw" in
      destruct (bw_put_bits_bits bw v n W ltac:(lia)) as [W' B];
      rewrite Bp in B;
      set (bw' := bw_put_bits bw v n) in *;
      clearbody bw'; clear Bp W
  | W : bw_wf ?bw, Bp : bw_bits ?bw = _ |- context [bw_put_bit ?bw ?b] =>
      let W' := fresh "W" in
      let B := fresh "B" in
      let bw' := fresh "bw" in
      destruct (bw_put_bit_bits bw b W) as [W' B];
      rewrite Bp in B;
      set (bw' := bw_put_bit bw b) in *;
      clearbody bw'; clear Bp W
  end.


Lemma pic_timing_fields_bits drop_frame frame seconds minutes hours inc :
  bw_wf (pic_timing_fields drop_frame frame seconds minutes hours inc) /\
  bw_bits (pic_timing_fields drop_frame frame seconds minutes hours inc)
  = pic_timing_bits drop_frame frame seconds minutes hours
    ++ (if inc then repeat 0 24 else []).
Proof.
  unfold pic_timing_fields, pic_timing_bits.
  pose proof bw_init_wf as W0.
  assert (B0 : bw_bits bw_init = []) by reflexivity.
  revert W0 B0. generalize bw_init as bw0. intros bw0 W0 B0.
  destruct inc; repeat bw_step.
  - split; [assumption|].
    match goal with B : bw_bits _ = _ |- _ => rewrite B end.
    simpl Z.to_nat. rewrite val_bits_zero.
    rewrite <- !app_assoc. reflexivity.
  - split; [assumption|].
    match goal with B : bw_bits _ = _ |- _ => rewrite B end.
    simpl Z.to_nat. rewrite <- !app_assoc, app_nil_r. reflexivity.
Qed.

Lemma bw_bits_length bw :
  bw_wf bw ->
  Z.of_nat (length (bw_bits bw)) = 8 * size_of (bw_bytes bw) + bw_bits_filled bw.
Proof.
  unfold bw_wf, bw_bits, size_of. intros [H _].
  rewrite length_app, bits_of_bytes_length, val_bits_length. lia.
Qed.

Lemma pic_timing_bits_length drop_frame frame seconds minutes hours :
  length (pic_timing_bits drop_frame frame seconds minutes hours) = 41%nat.
Proof.
  unfold pic_timing_bits. rewrite !length_app, !val_bits_length. reflexivity.
Qed.

(** The payload is the fields, then zero bits up to the byte boundary:
    41 bits fill 6 bytes, 65 bits fill 9. *)
Lemma pic_timing_payload_bits drop_frame frame seconds minutes hours inc :
  bits_of_bytes (pic_timing_payload drop_frame frame seconds minutes hours inc)
  = pic_timing_bits drop_frame frame seconds minutes hours
    ++ (if inc then repeat 0 24 else []) ++ repeat 0 7
  /\ size_of (pic_timing_payload drop_frame frame seconds minutes hours inc)
     = if inc then 9 else 6.
Proof.
  unfold pic_timing_payload.
  destruct (pic_timing_fields_bits drop_frame frame seconds minutes hours inc)
    as [Hwf Hbits].
  destruct (bw_flush_zero_align_bits _ Hwf) as [H0 Hflush].
  pose proof (bw_bits_length _ Hwf) as Hlen.
  rewrite Hbits, length_app, pic_timing_bits_length in Hlen.
  rewrite (bw_bits_aligned _ H0), Hbits in Hflush.
  destruct Hwf as [Hwf _].
  assert (Hfilled : bw_bits_filled
            (pic_timing_fields drop_frame frame seconds minutes hours inc) = 1).
  { pose proof (size_of_nonneg (bw_bytes
      (pic_timing_fields drop_frame frame seconds minutes hours inc))).
    destruct inc; cbn [length repeat] in Hlen; lia. }
  rewrite Hfilled in Hflush. change (Z.to_nat ((8 - 1) mod 8)) with 7%nat in Hflush.
  rewrite <- app_assoc in Hflush. split; [exact Hflush|].
  apply (f_equal (@length Z)) in Hflush.
  rewrite bits_of_bytes_length, !length_app, pic_timing_bits_length in Hflush.
  unfold size_of. destruct inc; cbn [length repeat] in Hflush; lia.
Qed.

Lemma epb_safe_append_big arr b : 3 < b -> epb_safe_append arr b = arr ++ [b].
Proof.
  intros Hb. unfold epb_safe_append.
  replace (b <=? 3) with false by (symmetry; apply Z.leb_gt; lia).
  now rewrite andb_false_r.
Qed.

Lemma epb_encode_snoc_big l : forall z b,
  3 < b -> epb_encode z (l ++ [b]) = epb_encode z l ++ [b].
Proof.
  induction l as [|a l IH]; intros z b Hb; cbn [app epb_encode].
  - replace (b <=? 3) with false by (symmetry; apply Z.leb_gt; lia).
    rewrite andb_false_r. reflexivity.
  - destruct ((2 <=? z) && (a <=? 3)); rewrite IH by auto; reflexivity.
Qed.

(** The SEI NAL: start code, header, then the emulation-protected RBSP
    made of payloadType, payloadSize, payload and trailing bits. *)
Lemma build_pic_timing_sei_nal_shape drop_frame frame seconds minutes hours inc :
  build_pic_timing_sei_nal drop_frame frame seconds minutes hours inc
  = [0; 0; 0; 1; 6; 1; if inc then 9 else 6]
    ++ epb_encode 0
         (pic_timing_payload drop_frame frame seconds minutes hours inc ++ [128]).
Proof.
  unfold build_pic_timing_sei_nal.
  destruct (pic_timing_payload_bits drop_frame frame seconds minutes hours inc)
    as [_ Hsize].
  set (P := pic_timing_payload drop_frame frame seconds minutes hours inc) in *.
  clearbody P. cbv zeta. rewrite Hsize.
  rewrite epb_encode_snoc_big by lia.
  assert (Hfold : forall sz, 3 < sz -> 
            epb_safe_append (fold_left epb_safe_append P [0; 0; 0; 1; 6; 1; sz]) 128
            = [0; 0; 0; 1; 6; 1; sz] ++ epb_encode 0 P ++ [128]).
  { intros sz Hsz. rewrite epb_safe_append_big by lia. rewrite epb_fold_encode.
    replace (trailing_zeros [0; 0; 0; 1; 6; 1; sz]) with 0.
    - now rewrite <- app_assoc.
    - unfold trailing_zeros. cbn [rev app].
      replace (sz =? 0) with false by (symmetry; apply Z.eqb_neq; lia).
      reflexivity. }
  destruct inc.
  - exact (Hfold 9 ltac:(lia)).
  - exact (Hfold 6 ltac:(lia)).
Qed.

(** C9.  Whatever the timecode, the Picture Timing SEI NAL begins with
    00 00 00 01 06 01; the next byte, payload_size, is 6 without time
    offset and 9 with the 24-bit time offset, which is the length of the
    byte-aligned payload before emulation prevention; the payload follows
    under emulation prevention, and the NAL ends with the byte 0x80. *)
Theorem sei_nal_framing drop_frame frame seconds minutes hours inc :
  let payload := pic_timing_payload drop_frame frame seconds minutes hours inc in
  let payload_size := if inc then 9 else 6 in
  size_of payload = payload_size /\
  exists body,
    build_pic_timing_sei_nal drop_frame frame seconds minutes hours inc
    = [0; 0; 0; 1; 6; 1; payload_size] ++ body ++ [128]
    /\ ebsp_to_rbsp body = payload.
Proof.
  cbv zeta. split.
  - apply pic_timing_payload_bits.
  - exists (epb_encode 0
              (pic_timing_payload drop_frame frame seconds minutes hours inc)).
    split.
    + rewrite build_pic_timing_sei_nal_shape, epb_encode_snoc_big by lia.
      reflexivity.
    + apply (ebsp_decode_encode _ 0 []). lia.
Qed.

Lemma br_read_bits_at data pos n v :
  0 <= pos -> 0 <= n <= 32 ->
  bits_at data (Z.to_nat pos) (val_bits (Z.to_nat n) v) ->
  br_read_bits data n (mkBr pos true) = (v mod 2 ^ n, mkBr (pos + n) true).
Proof.
  intros Hpos Hn H.
  pose proof (br_read_bits_val data (Z.to_nat pos) (Z.to_nat n) v) as Hr.
  rewrite !Z2Nat.id in Hr by lia. apply Hr; auto. lia.
Qed.

(** An array that opens with the 4-byte start code and has a header byte. *)
Lemma find_startcode_4byte hdr rest :
  let nal := 0 :: 0 :: 0 :: 1 :: hdr :: rest in
  find_startcode nal (size_of nal) 0 = 0
  /\ startcode_len_at nal (size_of nal) 0 = 4.
Proof.
  cbv zeta. set (nal := 0 :: 0 :: 0 :: 1 :: hdr :: rest).
  assert (Hsize : size_of nal = 5 + size_of rest).
  { unfold size_of, nal. cbn [length]. lia. }
  pose proof (size_of_nonneg rest) as Hrest.
  assert (H3 : (0 + 3 <? size_of nal) = true) by (apply Z.ltb_lt; lia).
  assert (H4 : (0 + 4 <? size_of nal) = true) by (apply Z.ltb_lt; lia).
  split.
  - unfold find_startcode.
    replace (Z.to_nat (size_of nal - 3 - 0)) with (S (Z.to_nat (size_of nal - 4)))
      by lia.
    cbn [find_startcode_loop]. rewrite H3, H4. reflexivity.
  - unfold startcode_len_at. rewrite H3, H4. reflexivity.
Qed.

Lemma slice_tail pre l :
  slice (pre ++ l) (size_of pre) (size_of (pre ++ l) - size_of pre) = l.
Proof.
  unfold slice. rewrite size_of_app. unfold size_of.
  replace (Z.of_nat (length pre) + Z.of_nat (length l) - Z.of_nat (length pre))
    with (Z.of_nat (length l)) by lia.
  rewrite !Nat2Z.id. rewrite skipn_app, skipn_all, Nat.sub_diag. cbn [app skipn].
  apply firstn_all.
Qed.

Lemma land_ones_small v n : 0 <= n -> 0 <= v < 2 ^ n -> Z.land v (Z.ones n) = v.
Proof. intros Hn Hv. rewrite Z.land_ones by lia. now apply Z.mod_small. Qed.

(** One field of a chain of reads: split its bits off the front of what
    is known to lie ahead and turn them into the value read. *)
Ltac read_field H E :=
  apply bits_at_app in H;
  let F := fresh "F" in
  destruct H as [F H];
  rewrite val_bits_length in H; cbn [Nat.add] in H;
  match type of F with
  | bits_at ?d ?p (val_bits ?n ?v) =>
      pose proof (br_read_bits_at d (Z.of_nat p) (Z.of_nat n) v
                    ltac:(cbn; lia) ltac:(cbn; lia) F) as E;
      cbn [Z.of_nat Pos.of_succ_nat Pos.succ Z.add Pos.add Pos.add_carry] in E
  end;
  clear F.

Lemma sei_decode_build drop_frame frame seconds minutes hours inc :
  0 <= hours < 32 -> 0 <= minutes < 64 -> 0 <= seconds < 64 -> 0 <= frame < 256 ->
  spec_decode_pic_timing_sei
    (build_pic_timing_sei_nal drop_frame frame seconds minutes hours inc)
  = Some (mkPicTiming 1 (if inc then 9 else 6) 0 1 0 0 0 1 0
            (if drop_frame then 1 else 0) frame seconds minutes hours).
Proof.
  intros Hh Hm Hs Hf.
  rewrite build_pic_timing_sei_nal_shape.
  destruct (pic_timing_payload_bits drop_frame frame seconds minutes hours inc)
    as [Hbits Hsize].
  set (P := pic_timing_payload drop_frame frame seconds minutes hours inc) in *.
  clearbody P.
  set (sz := if inc then 9 else 6) in *.
  assert (Hsz : sz = 9 \/ sz = 6) by (destruct inc; auto).
  set (R := 1 :: sz :: P ++ [128]).
  assert (Hnal : [0; 0; 0; 1; 6; 1; sz] ++ epb_encode 0 (P ++ [128])
                 = [0; 0; 0; 1; 6] ++ epb_encode 0 R).
  { unfold R. cbn [epb_encode app].
    replace (2 <=? 0) with false by reflexivity. cbn [andb].
    replace (1 =? 0) with false by reflexivity.
    replace (sz =? 0) with false by (symmetry; apply Z.eqb_neq; lia).
    reflexivity. }
  rewrite Hnal. unfold spec_decode_pic_timing_sei.
  destruct (find_startcode_4byte 6 (epb_encode 0 R)) as [Hfind Hlen].
  cbv zeta in Hfind, Hlen.
  change ([0; 0; 0; 1; 6] ++ epb_encode 0 R)
    with (0 :: 0 :: 0 :: 1 :: 6 :: epb_encode 0 R).
  rewrite Hfind, Hlen.
  change (negb (0 =? 0)) with false. cbv iota.
  change (byte_at (0 :: 0 :: 0 :: 1 :: 6 :: epb_encode 0 R) (0 + 4)) with 6.
  change (negb (Z.land 6 31 =? 6)) with false. cbv iota.
  change (0 :: 0 :: 0 :: 1 :: 6 :: epb_encode 0 R)
    with ([0; 0; 0; 1; 6] ++ epb_encode 0 R).
  change (0 + 4 + 1) with (size_of [0; 0; 0; 1; 6]).
  rewrite slice_tail.
  replace (ebsp_to_rbsp (epb_encode 0 R)) with R
    by (symmetry; apply (ebsp_decode_encode R 0 []); lia).
  (* the bits of the RBSP *)
  assert (H : bits_at R 0
                (val_bits 8 1 ++ val_bits 8 sz
                 ++ pic_timing_bits drop_frame frame seconds minutes hours
                 ++ (if inc then repeat 0 24 else []) ++ repeat 0 7
                 ++ val_bits 8 128)).
  { apply (bits_at_start R _ []). rewrite app_nil_r. unfold R.
    change (1 :: sz :: P ++ [128]) with ([1] ++ [sz] ++ P ++ [128]).
    rewrite !bits_of_bytes_app, Hbits.
    cbn [bits_of_bytes flat_map]. rewrite !app_nil_r, <- !app_assoc.
    reflexivity. }
  unfold pic_timing_bits in H. rewrite <- !app_assoc in H.
  assert (HlenR : length R = S (S (length (P ++ [128])))) by reflexivity.
  clearbody R.
  read_field H E1. read_field H E2. read_field H E3. read_field H E4.
  read_field H E5. read_field H E6. read_field H E7. read_field H E8.
  read_field H E9. read_field H E10. read_field H E11. read_field H E12.
  read_field H E13. read_field H E14.
  unfold spec_read_pic_timing, br_bind, br_start. rewrite HlenR.
  cbn [spec_read_ff_coded]. unfold br_bind.
  rewrite E1. change (1 mod 2 ^ 8 =? 255) with false. cbv iota. unfold br_ret.
  assert (Hszmod : sz mod 2 ^ 8 = sz) by (apply Z.mod_small; lia).
  rewrite E2, Hszmod.
  replace (sz =? 255) with false by (symmetry; apply Z.eqb_neq; lia).
  rewrite E3, E4, E5, E6, E7, E8, E9, E10, E11, E12, E13, E14.
  cbn [br_ok].
  change 255 with (Z.ones 8). change 63 with (Z.ones 6).
  change 31 with (Z.ones 5).
  rewrite (land_ones_small frame 8), (land_ones_small seconds 6),
    (land_ones_small minutes 6), (land_ones_small hours 5) by lia.
  rewrite !Z.mod_small by (try destruct drop_frame; lia).
  reflexivity.
Qed.

(** C2.  For every timecode with hours in 0..23, minutes in 0..59, seconds
    in 0..59, frames in 0..255, and every drop-frame flag: reading back the
    SEI NAL built by [build_pic_timing_sei_nal] yields a Picture Timing
    message (payloadType 1) whose [n_frames], [seconds_value],
    [minutes_value] and [hours_value] are those of the timecode, with
    [full_timestamp_flag = 1] and [cnt_dropped_flag] equal to the
    drop-frame flag. *)
Theorem sei_roundtrip drop_frame frame seconds minutes hours inc :
  0 <= hours <= 23 -> 0 <= minutes <= 59 -> 0 <= seconds <= 59 ->
  0 <= frame <= 255 ->
  exists pt,
    spec_decode_pic_timing_sei
      (build_pic_timing_sei_nal drop_frame frame seconds minutes hours inc)
    = Some pt
    /\ pt_payload_type pt = 1
    /\ pt_n_frames pt = frame
    /\ pt_seconds_value pt = seconds
    /\ pt_minutes_value pt = minutes
    /\ pt_hours_value pt = hours
    /\ pt_full_timestamp_flag pt = 1
    /\ pt_cnt_dropped_flag pt = (if drop_frame then 1 else 0).
Proof.
  intros Hh Hm Hs Hf. eexists. split.
  - apply sei_decode_build; lia.
  - cbn. repeat split.
Qed.

Lemma sei_roundtrip_witness :
  exists pt,
    spec_decode_pic_timing_sei (build_pic_timing_sei_nal false 4 3 2 1 false)
    = Some pt
    /\ pt_payload_type pt = 1
    /\ pt_n_frames pt = 4
    /\ pt_seconds_value pt = 3
    /\ pt_minutes_value pt = 2
    /\ pt_hours_value pt = 1
    /\ pt_full_timestamp_flag pt = 1
    /\ pt_cnt_dropped_flag pt = 0.
Proof. apply (sei_roundtrip false 4 3 2 1 false); lia. Defined.

(** C6, as the code has it.  For every [SpsVuiInfo] used to build a
    Picture Timing SEI: after the 41 bits that end with [hours_value], the
    time offset is written only when HRD parameters are present
    ([cpb_dpb_delays_present_flag]) and [time_offset_length > 0]; when it
    is written it is 24 zero bits, whatever [time_offset_length] is. *)
Theorem time_offset_is_24_zero_bits info drop_frame frame seconds minutes hours :
  let inc := cpb_dpb_delays_present_flag info && (0 <? time_offset_length info) in
  build_pic_timing_sei_nal_from_sps info drop_frame frame seconds minutes hours
  = build_pic_timing_sei_nal drop_frame frame seconds minutes hours inc
  /\ bw_bits (pic_timing_fields drop_frame frame seconds minutes hours inc)
     = pic_timing_bits drop_frame frame seconds minutes hours
       ++ (if inc then repeat 0 24 else []).
Proof.
  cbv zeta. split; [reflexivity|]. apply pic_timing_fields_bits.
Qed.

(** With HRD parameters and [time_offset_length = 5], the time offset
    still takes 24 bits: the payload is 9 bytes long, where 41 + 5 bits
    would fill 6. *)
Lemma time_offset_width_counterexample :
  let info := mkSpsVuiInfo true true true 24 24 5 false 0 0 false in
  let inc := cpb_dpb_delays_present_flag info && (0 <? time_offset_length info) in
  inc = true
  /\ bw_bits (pic_timing_fields false 4 3 2 1 inc)
     = pic_timing_bits false 4 3 2 1 ++ repeat 0 24
  /\ repeat 0 24 <> repeat 0 (Z.to_nat (time_offset_length info))
  /\ build_pic_timing_sei_nal_from_sps info false 4 3 2 1
     = [0; 0; 0; 1; 6; 1; 9; 8; 4; 4; 12; 32; 128; 0; 0; 3; 0; 128].
Proof.
  cbv zeta. repeat split; try reflexivity. discriminate.
Qed.

(** ** Timecode source *)

Lemma update_est_fps_adopted scfg pts :
  est_fps (update_est_fps scfg pts)
  = adopted_est_fps (last_pts_ns scfg) pts (est_fps scfg).
Proof.
  unfold update_est_fps, adopted_est_fps. cbv zeta.
  destruct (negb (last_pts_ns scfg =? 0)); cbn [andb]; auto.
  destruct (0 <? (pts - last_pts_ns scfg) mod UINT64) eqn:Hd; cbn [andb]; auto.
  apply Z.ltb_lt in Hd.
  assert (Hq : 0 <= GST_SECOND / ((pts - last_pts_ns scfg) mod UINT64) <= GST_SECOND).
  { split.
    - apply Z.div_pos; [unfold GST_SECOND|]; lia.
    - apply Z.div_le_upper_bound; [lia|]. unfold GST_SECOND. nia. }
  rewrite (Z.mod_small (GST_SECOND / _)) by (unfold UINT32, GST_SECOND in *; lia).
  destruct ((12 <=? _) && (_ <=? 120)); reflexivity.
Qed.

(** C8, as the code has it.  For every buffer with a valid PTS, no
    upstream timecode, and [prefer_pts] set: hours = (pts/1s/3600) mod 24,
    minutes = (pts/1s/60) mod 60, seconds = (pts/1s) mod 60; the frame
    index is (pts mod 1s) * fps_n / (1s * fps_d) when [fps_n > 0] and
    [fps_d > 0], and otherwise (pts mod 1s) * fps / 1s, where fps is the
    estimate kept in [est_fps], or 25 while that is 0.  The estimate is not
    clamped: 1s / (pts - last_pts) is adopted only when [last_pts] is not
    0, the difference is not 0 and the quotient lies in [12, 120];
    otherwise the previous estimate is kept. *)
Theorem pts_timecode scfg inbuf :
  buf_tc_meta inbuf = None -> prefer_pts scfg = true ->
  0 <= buf_pts inbuf < GST_CLOCK_TIME_NONE ->
  0 <= fps_n scfg < UINT32 -> 0 <= fps_d scfg < UINT32 ->
  0 <= est_fps scfg < UINT32 ->
  let pts := buf_pts inbuf in
  let sec_total := pts / GST_SECOND in
  let frac := pts mod GST_SECOND in
  let est := adopted_est_fps (last_pts_ns scfg) pts (est_fps scfg) in
  exists tc scfg',
    timecode_source scfg inbuf = (Some tc, scfg')
    /\ hours tc = (sec_total / 3600) mod 24
    /\ minutes tc = (sec_total / 60) mod 60
    /\ seconds tc = sec_total mod 60
    /\ frame tc =
       (if (0 <? fps_n scfg) && (0 <? fps_d scfg)
        then (frac * fps_n scfg) / (GST_SECOND * fps_d scfg)
        else (frac * (if est =? 0 then 25 else est)) / GST_SECOND)
    /\ (if (0 <? fps_n scfg) && (0 <? fps_d scfg) then scfg' = scfg
        else est_fps scfg' = est /\ last_pts_ns scfg' = pts).
Proof.
  intros Hmeta Hprefer Hpts Hn Hd He. cbv zeta.
  unfold timecode_source. rewrite Hmeta, Hprefer.
  replace (buf_pts inbuf =? GST_CLOCK_TIME_NONE) with false
    by (symmetry; apply Z.eqb_neq; lia).
  cbn [negb andb]. unfold timecode_from_pts. cbv zeta.
  set (pts := buf_pts inbuf) in *.
  assert (Hfrac : 0 <= pts mod GST_SECOND < GST_SECOND)
    by (apply Z.mod_pos_bound; reflexivity).
  assert (Hsec : 0 <= pts / GST_SECOND)
    by (apply Z.div_pos; [lia|reflexivity]).
  assert (Hh : ((pts / GST_SECOND / 3600) mod 24) mod UINT32
               = (pts / GST_SECOND / 3600) mod 24).
  { apply Z.mod_small. pose proof (Z.mod_pos_bound (pts / GST_SECOND / 3600) 24).
    unfold UINT32. lia. }
  assert (Hm : ((pts / GST_SECOND / 60) mod 60) mod UINT32
               = (pts / GST_SECOND / 60) mod 60).
  { apply Z.mod_small. pose proof (Z.mod_pos_bound (pts / GST_SECOND / 60) 60).
    unfold UINT32. lia. }
  assert (Hs : ((pts / GST_SECOND) mod 60) mod UINT32 = (pts / GST_SECOND) mod 60).
  { apply Z.mod_small. pose proof (Z.mod_pos_bound (pts / GST_SECOND) 60).
    unfold UINT32. lia. }
  rewrite Hh, Hm, Hs.
  destruct ((0 <? fps_n scfg) && (0 <? fps_d scfg)) eqn:Hknown.
  - apply andb_prop in Hknown. destruct Hknown as [Hn0 Hd0].
    apply Z.ltb_lt in Hn0, Hd0.
    do 2 eexists. split; [reflexivity|]. cbn [hours minutes seconds frame].
    repeat split.
    unfold UINT32, UINT64, GST_SECOND in *.
    rewrite (Z.mod_small (pts mod 1000000000 * fps_n scfg)) by nia.
    rewrite (Z.mod_small (1000000000 * fps_d scfg)) by nia.
    apply Z.mod_small. split.
    + apply Z.div_pos; nia.
    + apply Z.div_lt_upper_bound; nia.
  - do 2 eexists. split; [reflexivity|]. cbn [hours minutes seconds frame est_fps last_pts_ns set_last_pts_ns].
    rewrite update_est_fps_adopted.
    set (est := adopted_est_fps (last_pts_ns scfg) pts (est_fps scfg)).
    assert (Hest : 0 <= est < UINT32).
    { unfold est, adopted_est_fps. cbv zeta.
      destruct (negb (last_pts_ns scfg =? 0) && _ && (12 <=? _) && (_ <=? 120))
        eqn:Hc; auto.
      apply andb_prop in Hc. destruct Hc as [Hc H120].
      apply andb_prop in Hc. destruct Hc as [_ H12].
      apply Z.leb_le in H12, H120. unfold UINT32. lia. }
    repeat split.
    set (fps := if est =? 0 then 25 else est).
    assert (Hfps : 0 < fps < UINT32).
    { unfold fps. destruct (est =? 0) eqn:H0; [unfold UINT32; lia|].
      apply Z.eqb_neq in H0. lia. }
    unfold UINT32, UINT64, GST_SECOND in *.
    rewrite (Z.mod_small (pts mod 1000000000 * fps)) by nia.
    apply Z.mod_small. split.
    + apply Z.div_pos; nia.
    + apply Z.div_lt_upper_bound; nia.
Qed.

Lemma pts_timecode_witness :
  let scfg := mkSeiConfig true 0 0 true false 3560000000 0 0 in
  let inbuf := mkBuffer [0; 0; 0; 1; 65; 154] None 3600000000 in
  exists tc scfg',
    timecode_source scfg inbuf = (Some tc, scfg')
    /\ hours tc = (3600000000 / GST_SECOND / 3600) mod 24
    /\ minutes tc = (3600000000 / GST_SECOND / 60) mod 60
    /\ seconds tc = (3600000000 / GST_SECOND) mod 60
    /\ frame tc = (3600000000 mod GST_SECOND * 25) / GST_SECOND
    /\ est_fps scfg' = 25 /\ last_pts_ns scfg' = 3600000000.
Proof.
  cbv zeta.
  apply (pts_timecode (mkSeiConfig true 0 0 true false 3560000000 0 0)
           (mkBuffer [0; 0; 0; 1; 65; 154] None 3600000000));
    cbn; try reflexivity; unfold GST_CLOCK_TIME_NONE, UINT32; lia.
Defined.

(** The estimate is not clamped.  With [last_pts] = 1.495 s, [pts] = 1.5 s
    and no estimate yet, 1s / (pts - last_pts) is 200: clamping would give
    120 and frame 60; the code keeps the default 25 and derives frame 12. *)
Lemma pts_est_fps_counterexample :
  let scfg := mkSeiConfig true 0 0 true false 1495000000 0 0 in
  let inbuf := mkBuffer [0; 0; 0; 1; 65; 154] None 1500000000 in
  buf_tc_meta inbuf = None /\ prefer_pts scfg = true
  /\ 0 <= buf_pts inbuf < GST_CLOCK_TIME_NONE
  /\ GST_SECOND / (buf_pts inbuf - last_pts_ns scfg) = 200
  /\ spec_est_fps_clamped (last_pts_ns scfg) (buf_pts inbuf) (est_fps scfg) = 120
  /\ (buf_pts inbuf mod GST_SECOND
      * spec_est_fps_clamped (last_pts_ns scfg) (buf_pts inbuf) (est_fps scfg))
     / GST_SECOND = 60
  /\ exists tc scfg',
       timecode_source scfg inbuf = (Some tc, scfg')
       /\ frame tc = 12 /\ est_fps scfg' = 0.
Proof.
  cbv zeta. repeat split; try reflexivity.
  - cbn. unfold GST_CLOCK_TIME_NONE. lia.
  - do 2 eexists. split; [reflexivity|]. split; reflexivity.
Qed.

Lemma build_sei_for_au_cache g data tc :
  g_patched_sps_ebsp (snd (build_sei_for_au g data tc)) = g_patched_sps_ebsp g.
Proof.
  unfold build_sei_for_au.
  destruct (extract_sps_vui_from_au data) as [[|] info]; [reflexivity|].
  destruct (g_last_sps_valid g); reflexivity.
Qed.

(** ** Pass-through *)

(** C7.  If no Annex B start code is found in the buffer, or if no
    timecode can be obtained (no upstream timecode and no usable PTS), the
    rewriter returns the input buffer itself, unchanged byte for byte, and
    the patched-SPS cache from which injections are made is left as it
    was; without a timecode the whole state is left as it was. *)
Theorem passthrough_unchanged scfg g inbuf :
  find_startcode (buf_data inbuf) (size_of (buf_data inbuf)) 0 < 0
  \/ (buf_tc_meta inbuf = None
      /\ (prefer_pts scfg = false \/ buf_pts inbuf = GST_CLOCK_TIME_NONE)) ->
  exists scfg' g',
    prepend_h264_sei_timecode scfg g inbuf = (PassThrough, scfg', g')
    /\ rewrite_buffer inbuf PassThrough = inbuf
    /\ g_patched_sps_ebsp g' = g_patched_sps_ebsp g
    /\ (buf_tc_meta inbuf = None
        /\ (prefer_pts scfg = false \/ buf_pts inbuf = GST_CLOCK_TIME_NONE) ->
        scfg' = scfg /\ g' = g).
Proof.
  intros H. unfold prepend_h264_sei_timecode.
  destruct (timecode_source scfg inbuf) as [[tc|] scfg1] eqn:Htc.
  - (* a timecode was obtained: the buffer has no start code *)
    assert (Hsc : find_startcode (buf_data inbuf) (size_of (buf_data inbuf)) 0 < 0).
    { destruct H as [H|[Hmeta Hpts]]; auto. exfalso.
      unfold timecode_source in Htc. rewrite Hmeta in Htc.
      destruct Hpts as [Hp|Hp]; rewrite Hp in Htc.
      - cbn [andb] in Htc. discriminate.
      - rewrite Z.eqb_refl, andb_false_r in Htc. discriminate. }
    unfold rewrite_au.
    pose proof (build_sei_for_au_cache g (buf_data inbuf) tc) as Hcache.
    destruct (build_sei_for_au g (buf_data inbuf) tc) as [sei g1].
    cbn [snd] in Hcache. cbv zeta.
    assert (Hneg : (find_startcode (buf_data inbuf) (size_of (buf_data inbuf)) 0 <? 0)
                   = true) by (apply Z.ltb_lt; exact Hsc).
    assert (Hnn : (0 <=? find_startcode (buf_data inbuf) (size_of (buf_data inbuf)) 0)
                  = false) by (apply Z.leb_gt; exact Hsc).
    rewrite Hneg, Hnn. change (0 <? 0) with false. cbv iota.
    do 2 eexists. split; [reflexivity|]. cbn [g_patched_sps_ebsp patched_cache].
    split; [reflexivity|]. split; [exact Hcache|].
    intros [Hmeta Hpts]. exfalso.
    unfold timecode_source in Htc. rewrite Hmeta in Htc.
    destruct Hpts as [Hp|Hp]; rewrite Hp in Htc.
    + cbn [andb] in Htc. discriminate.
    + rewrite Z.eqb_refl, andb_false_r in Htc. discriminate.
  - do 2 eexists. split; [reflexivity|]. split; [reflexivity|].
    split; [reflexivity|]. intros [Hmeta Hpts].
    unfold timecode_source in Htc. rewrite Hmeta in Htc.
    destruct (prefer_pts scfg && negb (buf_pts inbuf =? GST_CLOCK_TIME_NONE)).
    + destruct (timecode_from_pts scfg (buf_pts inbuf)). discriminate.
    + inversion Htc. auto.
Qed.

Lemma passthrough_unchanged_witness :
  let scfg := mkSeiConfig true 25 1 false false 0 0 0 in
  let inbuf := mkBuffer [0; 0; 0; 1; 103; 66; 0; 30] None 40000000 in
  exists scfg' g',
    prepend_h264_sei_timecode scfg Globals_init inbuf = (PassThrough, scfg', g')
    /\ rewrite_buffer inbuf PassThrough = inbuf
    /\ g_patched_sps_ebsp g' = g_patched_sps_ebsp Globals_init
    /\ (buf_tc_meta inbuf = None
        /\ (prefer_pts scfg = false \/ buf_pts inbuf = GST_CLOCK_TIME_NONE) ->
        scfg' = scfg /\ g' = Globals_init).
Proof.
  cbv zeta.
  apply (passthrough_unchanged (mkSeiConfig true 25 1 false false 0 0 0)
           Globals_init (mkBuffer [0; 0; 0; 1; 103; 66; 0; 30] None 40000000)).
  right. split; [reflexivity|]. left. reflexivity.
Defined.

(** ** The NAL units visited by the scan and by the copy loop *)

Lemma find_startcode_self data size from r :
  find_startcode data size from = r -> r <> -1 ->
  find_startcode data size r = r.
Proof.
  intros H Hr. apply find_startcode_loop_found in H; auto.
  destruct H as (_ & H3 & Hlen).
  unfold find_startcode.
  replace (Z.to_nat (size - 3 - r)) with (S (Z.to_nat (size - 4 - r))) by lia.
  cbn [find_startcode_loop]. unfold startcode_len_at in Hlen.
  destruct (r + 3 <? size); [|cbn [andb] in Hlen; congruence].
  cbn [andb] in Hlen.
  destruct ((byte_at data r =? 0) && (byte_at data (r + 1) =? 0));
    [|congruence].
  destruct (byte_at data (r + 2) =? 1); auto.
  destruct ((r + 4 <? size) && (byte_at data (r + 2) =? 0)
            && (byte_at data (r + 3) =? 1)); [auto|congruence].
Qed.

(** The end of a unit lies beyond its header byte, inside the buffer. *)
Lemma unit_end_bounds data size nal_start :
  0 <= nal_start < size ->
  let next := find_startcode data size (nal_start + 1) in
  let next' := if next <? 0 then size else next in
  nal_start < next' <= size
  /\ (next' <> size -> find_startcode data size next' = next'
                       /\ next' + startcode_len_at data size next' < size
                       /\ 3 <= startcode_len_at data size next').
Proof.
  intros Hns. cbv zeta.
  destruct (find_startcode data size (nal_start + 1) <? 0) eqn:Hneg.
  - split; [lia|]. congruence.
  - apply Z.ltb_ge in Hneg.
    destruct (find_startcode_found data size (nal_start + 1) _ eq_refl)
      as (Hle & Hlen & Hin); [lia|].
    split; [lia|]. intros _. split.
    + eapply find_startcode_self; [reflexivity|lia].
    + split; [lia|]. destruct Hlen as [-> | ->]; lia.
Qed.









(** ** Layout of a rewritten access unit *)



(** C4 at an access unit whose AUD is its second NAL.  The claim has the
    injections prepended before the whole unit; the code, which takes the
    first type-9 NAL wherever it is, copies the input up to the end of the
    AUD and injects there. *)
Theorem aud_not_first_evaluation :
  let other_slice := [0; 0; 0; 1; 65; 155] in
  let data := sample_slice_nal ++ sample_aud_nal ++ other_slice in
  let sei := build_pic_timing_sei_nal false 4 3 2 1 false in
  map (unit_type data) (nal_units data 0) = [1; 9; 1]
  /\ fst (rewrite_au sample_config Globals_init data sample_tc)
     = Rewritten (sample_slice_nal ++ sample_aud_nal ++ sei ++ other_slice)
  /\ fst (rewrite_au sample_config Globals_init data sample_tc)
     <> Rewritten (sei ++ data).
Proof.
  cbv zeta. split; [reflexivity|]. split; [reflexivity|].
  vm_compute. discriminate.
Qed.

(** The same slip with an SPS before the AUD: the SPS is copied with the
    bytes that precede the AUD and the patched SPS is injected as well, so
    the output holds two NALs of type 7. *)
Lemma sps_before_aud_evaluation :
  let data := sample_sps_nal ++ sample_aud_nal ++ sample_idr_nal in
  exists out g',
    rewrite_au sample_config Globals_init data sample_tc = (Rewritten out, g')
    /\ map (unit_type out) (nal_units out 0) = [7; 9; 7; 6; 5].
Proof. cbv zeta. do 2 eexists. split; vm_compute; reflexivity. Qed.

(** ** The readers consume a prefix of the buffer *)

Lemma agree_upto_le d1 d2 p q : agree_upto d1 d2 p -> q <= p -> agree_upto d1 d2 q.
Proof. intros [Hs Hb] Hq. split; [lia|]. intros i Hi. apply Hb. lia. Qed.

Lemma br_local_ret {A} (a : A) : br_local (fun _ => br_ret a).
Proof.
  split.
  - intros d s a' s' H. inversion H. subst. split; [lia|auto].
  - intros d1 d2 s a' p _ H _. exact H.
Qed.

Lemma br_local_bind {A B} (m : list Z -> BR A) (f : A -> list Z -> BR B) :
  br_local m -> (forall a, br_local (f a)) ->
  br_local (fun d => br_bind (m d) (fun a => f a d)).
Proof.
  intros [Mm Lm] Hf. split.
  - intros d s b s' H. unfold br_bind in H.
    destruct (m d s) as [a s1] eqn:H1.
    destruct (Mm d s a s1 H1) as [Hp Hok].
    destruct (proj1 (Hf a) d s1 b s' H) as [Hp' Hok']. split; [lia|auto].
  - intros d1 d2 s b p Hs H Hag. unfold br_bind in *.
    destruct (m d1 s) as [a s1] eqn:H1.
    destruct (Mm d1 s a s1 H1) as [Hp Hok].
    destruct (proj1 (Hf a) d1 s1 b _ H) as [Hp' Hok']. cbn in Hp', Hok'.
    destruct s1 as [p1 ok1]. cbn in *. rewrite (Hok' eq_refl) in *.
    rewrite (Lm d1 d2 s a p1 Hs H1) by (apply (agree_upto_le _ _ p); auto).
    apply (proj2 (Hf a) d1 d2); auto. cbn. lia.
Qed.

Lemma br_local_if {A} (c : bool) (m1 m2 : list Z -> BR A) :
  br_local m1 -> br_local m2 -> br_local (fun d => if c then m1 d else m2 d).
Proof. destruct c; auto. Qed.

Lemma br_local_read_bit : br_local br_read_bit.
Proof.
  split.
  - intros d s a s' H. unfold br_read_bit in H.
    destruct (size_of d * 8 <=? br_bitpos s); inversion H; subst; cbn;
      split; try lia; auto; discriminate.
  - intros d1 d2 s a p Hs H [Hsize Hbits]. unfold br_read_bit in *.
    destruct (size_of d1 * 8 <=? br_bitpos s); inversion H; subst.
    replace (size_of d2 * 8 <=? br_bitpos s) with false
      by (symmetry; apply Z.leb_gt; lia).
    rewrite <- Hbits by lia. now rewrite H3.
Qed.

(** The state test that follows each bit read in [br_read_bits]. *)
Lemma br_local_guard {A} (dflt : A) (m : list Z -> BR A) :
  br_local m ->
  br_local (fun d s => if negb (br_ok s) then (dflt, s) else m d s).
Proof.
  intros [Mm Lm]. split.
  - intros d s a s' H. destruct (br_ok s) eqn:Hok; cbn in H.
    + destruct (Mm d s a s' H). split; auto.
    + inversion H. subst. split; [lia|intros; congruence].
  - intros d1 d2 s a p Hs H Hag. destruct (br_ok s) eqn:Hok; cbn in *.
    + now apply (Lm d1 d2).
    + inversion H. subst. cbn in Hok. discriminate.
Qed.

Lemma br_local_read_bits_loop n : forall val,
  br_local (fun d => br_read_bits_loop d n val).
Proof.
  induction n as [|n IH]; intros val; cbn [br_read_bits_loop].
  - apply (br_local_ret val).
  - apply (br_local_bind br_read_bit
             (fun bit d s1 =>
                if negb (br_ok s1) then (0, s1)
                else br_read_bits_loop d n
                       (Z.lor (Z.shiftl val 1 mod UINT32) bit) s1)).
    + apply br_local_read_bit.
    + intros bit. apply (br_local_guard 0). apply IH.
Qed.

Lemma br_local_read_bits nbits : br_local (fun d => br_read_bits d nbits).
Proof. apply br_local_read_bits_loop. Qed.

Lemma br_local_fail {A} (a : A) :
  br_local (fun (_ : list Z) s => (a, mkBr (br_bitpos s) false)).
Proof.
  split.
  - intros d s a' s' H. inversion H. subst. cbn. split; [lia|discriminate].
  - intros d1 d2 s a' p _ H _. inversion H.
Qed.

Lemma br_local_if_state {A} (c : bool) (m1 m2 : list Z -> BR A) :
  br_local m1 -> br_local m2 ->
  br_local (fun d s => if c then m1 d s else m2 d s).
Proof. destruct c; auto. Qed.

Lemma br_local_read_ue_zeros n : forall zeros,
  br_local (fun d => br_read_ue_zeros d n zeros).
Proof.
  induction n as [|n IH]; intros zeros; cbn [br_read_ue_zeros].
  - apply (br_local_bind br_read_bit
             (fun bit d s1 =>
                if bit =? 0 then
                  if negb (br_ok s1) then (None, s1)
                  else if 31 <? zeros + 1 then (None, mkBr (br_bitpos s1) false)
                       else (None, mkBr (br_bitpos s1) false)
                else (Some zeros, s1))).
    + apply br_local_read_bit.
    + intros bit.
      apply (br_local_if_state (bit =? 0)
               (fun d s1 =>
                  if negb (br_ok s1) then (None, s1)
                  else if 31 <? zeros + 1 then (None, mkBr (br_bitpos s1) false)
                       else (None, mkBr (br_bitpos s1) false))
               (fun _ => br_ret (Some zeros)));
        [|apply (br_local_ret (Some zeros))].
      apply (br_local_guard None
               (fun d s1 =>
                  if 31 <? zeros + 1 then (None, mkBr (br_bitpos s1) false)
                  else (None, mkBr (br_bitpos s1) false))).
      apply (br_local_if_state (31 <? zeros + 1)
               (fun _ s1 => (None, mkBr (br_bitpos s1) false))
               (fun _ s1 => (None, mkBr (br_bitpos s1) false)));
        apply br_local_fail.
  - apply (br_local_bind br_read_bit
             (fun bit d s1 =>
                if bit =? 0 then
                  if negb (br_ok s1) then (None, s1)
                  else if 31 <? zeros + 1 then (None, mkBr (br_bitpos s1) false)
                       else br_read_ue_zeros d n (zeros + 1) s1
                else (Some zeros, s1))).
    + apply br_local_read_bit.
    + intros bit.
      apply (br_local_if_state (bit =? 0)
               (fun d s1 =>
                  if negb (br_ok s1) then (None, s1)
                  else if 31 <? zeros + 1 then (None, mkBr (br_bitpos s1) false)
                       else br_read_ue_zeros d n (zeros + 1) s1)
               (fun _ => br_ret (Some zeros)));
        [|apply (br_local_ret (Some zeros))].
      apply (br_local_guard None
               (fun d s1 =>
                  if 31 <? zeros + 1 then (None, mkBr (br_bitpos s1) false)
                  else br_read_ue_zeros d n (zeros + 1) s1)).
      apply (br_local_if_state (31 <? zeros + 1)
               (fun _ s1 => (None, mkBr (br_bitpos s1) false))
               (fun d => br_read_ue_zeros d n (zeros + 1)));
        [apply br_local_fail|apply IH].
Qed.

Lemma br_local_read_ue : br_local br_read_ue.
Proof.
  unfold br_read_ue.
  apply (br_local_bind (fun d => br_read_ue_zeros d 32 0)
           (fun z d =>
              match z with
              | None => br_ret 0
              | Some zeros =>
                  if zeros =? 0 then br_ret 0
                  else br_bind (br_read_bits d zeros)
                         (fun suffix =>
                            br_ret ((Z.shiftl 1 zeros - 1 + suffix) mod UINT32))
              end)).
  - apply br_local_read_ue_zeros.
  - intros [zeros|]; [|apply (br_local_ret 0)].
    apply br_local_if; [apply (br_local_ret 0)|].
    apply (br_local_bind (fun d => br_read_bits d zeros)
             (fun suffix _ => br_ret ((Z.shiftl 1 zeros - 1 + suffix) mod UINT32))).
    + apply br_local_read_bits.
    + intros suffix. apply br_local_ret.
Qed.

Lemma br_local_repeat n (body : list Z -> BR Z) :
  br_local body -> br_local (fun d => br_repeat n (body d)).
Proof.
  intros Hb. induction n as [|n IH]; cbn [br_repeat].
  - apply (br_local_ret tt).
  - apply (br_local_bind body (fun _ d => br_repeat n (body d))); auto.
Qed.

Lemma br_local_when c (m : list Z -> BR Z) :
  br_local m -> br_local (fun d => br_when c (m d)).
Proof.
  intros Hm. unfold br_when. apply br_local_if; [|apply (br_local_ret tt)].
  apply (br_local_bind m (fun _ _ => br_ret tt)); auto.
  intros _. apply br_local_ret.
Qed.

(** Closes a locality goal for a reader built from the primitives with
    bind, conditionals and bounded loops. *)
Ltac br_local_solve :=
  repeat first
    [ apply br_local_ret
    | apply br_local_read_bits
    | apply br_local_read_ue
    | apply br_local_when
    | apply br_local_repeat
    | apply br_local_if
    | assumption
    | (apply br_local_bind; [|intros ?]) ].

Lemma br_local_skip_scaling_list_delta_loop n : forall lastScale nextScale,
  br_local (fun d => skip_scaling_list_delta_loop d n lastScale nextScale).
Proof.
  induction n as [|n IH]; intros lastScale nextScale;
    cbn [skip_scaling_list_delta_loop].
  - apply (br_local_ret tt).
  - apply br_local_if; [|apply IH].
    apply br_local_bind; [apply br_local_read_ue|]. intros ue. apply IH.
Qed.

Lemma br_local_skip_scaling_list_delta sizeOfScalingList :
  br_local (fun d => skip_scaling_list_delta d sizeOfScalingList).
Proof. apply br_local_skip_scaling_list_delta_loop. Qed.

Lemma br_local_skip_scaling_list_fixed sizeOfScalingList :
  br_local (fun d => skip_scaling_list_fixed d sizeOfScalingList).
Proof. unfold skip_scaling_list_fixed. br_local_solve. Qed.

Lemma br_local_scaling_lists (skip : list Z -> Z -> BR unit) n :
  (forall sz, br_local (fun d => skip d sz)) ->
  forall i, br_local (fun d => scaling_lists d (skip d) n i).
Proof.
  intros Hskip. induction n as [|n IH]; intros i; cbn [scaling_lists].
  - apply (br_local_ret tt).
  - apply br_local_bind; [apply br_local_read_bits|]. intros f.
    apply br_local_bind; [|intros _; apply IH].
    apply br_local_if; [apply Hskip|apply (br_local_ret tt)].
Qed.

Lemma br_local_sps_walk_to_vui (skip : list Z -> Z -> BR unit) profile_idc :
  (forall sz, br_local (fun d => skip d sz)) ->
  br_local (fun d => sps_walk_to_vui d (skip d) profile_idc).
Proof.
  intros Hskip. unfold sps_walk_to_vui.
  pose proof (br_local_scaling_lists skip 8 Hskip 0) as H8.
  pose proof (br_local_scaling_lists skip 12 Hskip 0) as H12.
  br_local_solve.
  match goal with
  | |- br_local (fun d => scaling_lists d (skip d) (if ?c then _ else _) 0) =>
      destruct c; assumption
  end.
Qed.

(** ** The rebuilt SPS *)

Lemma bw_zero_pad_wf n : forall bw, bw_wf bw -> bw_wf (bw_zero_pad n bw).
Proof.
  induction n as [|n IH]; intros bw Hwf; cbn [bw_zero_pad]; auto.
  destruct (bw_bits_filled bw =? 0); auto.
  apply IH. now apply bw_put_bit_bits.
Qed.

Lemma bw_put_rbsp_trailing_bits_wf bw :
  bw_wf bw -> bw_wf (bw_put_rbsp_trailing_bits bw).
Proof.
  intros Hwf. unfold bw_put_rbsp_trailing_bits.
  apply bw_zero_pad_wf. now apply bw_put_bit_bits.
Qed.

Lemma write_timing_vui_bits bw fps_n fps_d :
  bw_wf bw ->
  bw_wf (write_timing_vui bw fps_n fps_d)
  /\ bw_bits_filled (write_timing_vui bw fps_n fps_d) = 0
  /\ exists k,
       bw_bits (write_timing_vui bw fps_n fps_d)
       = bw_bits bw ++ timing_vui_bits fps_n fps_d ++ 1 :: repeat 0 k.
Proof.
  intros W0. unfold write_timing_vui, timing_vui_bits.
  remember (bw_bits bw) as base eqn:B0. symmetry in B0.
  cbv zeta. repeat bw_step.
  match goal with W : bw_wf ?b, B : bw_bits ?b = _ |- _ =>
    destruct (bw_put_rbsp_trailing_bits_bits b W) as [H0 [k Hk]];
    pose proof (bw_put_rbsp_trailing_bits_wf b W) as Hwf;
    rewrite B in Hk
  end.
  split; [exact Hwf|]. split; [exact H0|]. exists k. rewrite Hk.
  simpl Z.to_nat. change (Z.land 1 1) with 1.
  rewrite <- !app_assoc. reflexivity.
Qed.

Lemma skipn_nth_cons {A} (d : A) l : forall p,
  (p < length l)%nat -> skipn p l = nth p l d :: skipn (S p) l.
Proof.
  induction l as [|x l IH]; intros p Hp; [simpl in Hp; lia|].
  destruct p as [|p]; [reflexivity|].
  cbn [skipn nth]. apply IH. simpl in Hp. lia.
Qed.

(** The copy loop hands the writer the bits of the RBSP, in order. *)
Lemma copy_bits_bits rbsp n : forall p bw,
  bw_wf bw -> (p + n <= 8 * length rbsp)%nat ->
  exists bw',
    copy_bits rbsp n (mkBr (Z.of_nat p) true) bw = Some bw'
    /\ bw_wf bw'
    /\ bw_bits bw' = bw_bits bw ++ firstn n (skipn p (bits_of_bytes rbsp)).
Proof.
  induction n as [|n IH]; intros p bw Hwf Hlen; cbn [copy_bits].
  - exists bw. cbn [firstn]. rewrite app_nil_r. auto.
  - unfold br_read_bit. cbn [br_bitpos br_ok].
    replace (size_of rbsp * 8 <=? Z.of_nat p) with false
      by (symmetry; apply Z.leb_gt; unfold size_of; lia).
    cbn [negb]. rewrite bit_at_nth by lia.
    destruct (bw_put_bit_bits bw (nth p (bits_of_bytes rbsp) 0) Hwf) as [Hwf' Hb].
    replace (Z.of_nat p + 1) with (Z.of_nat (S p)) by lia.
    destruct (IH (S p) _ Hwf') as (bw' & Hc & Hw & Hbits); [lia|].
    exists bw'. split; [exact Hc|]. split; [exact Hw|].
    rewrite Hbits, Hb, <- app_assoc. f_equal.
    rewrite (skipn_nth_cons 0 (bits_of_bytes rbsp) p)
      by (rewrite bits_of_bytes_length; lia).
    cbn [firstn app]. f_equal.
    rewrite bits_of_bytes_nth by lia. apply bit_of_land1.
Qed.

Lemma ebsp_to_rbsp_loop_bytes ebsp : forall rbsp zeros,
  Forall is_byte ebsp -> Forall is_byte rbsp ->
  Forall is_byte (ebsp_to_rbsp_loop ebsp rbsp zeros).
Proof.
  induction ebsp as [|b ebsp IH]; intros rbsp zeros He Hr;
    cbn [ebsp_to_rbsp_loop]; auto.
  inversion He; subst.
  destruct ((2 <=? zeros) && (b =? 3)); apply IH; auto.
  apply Forall_app. split; auto.
Qed.

Lemma ebsp_to_rbsp_bytes ebsp :
  Forall is_byte ebsp -> Forall is_byte (ebsp_to_rbsp ebsp).
Proof. intros H. apply ebsp_to_rbsp_loop_bytes; auto. Qed.

(** A byte is determined by its eight bits. *)
Lemma byte_of_bits a b :
  is_byte a -> is_byte b -> val_bits 8 a = val_bits 8 b -> a = b.
Proof.
  intros Ha Hb H. apply Z.bits_inj'. intros n Hn.
  destruct (Z_lt_ge_dec n 8) as [Hlt|Hge].
  - assert (Hk : forall k, (k < 8)%nat -> bit_of a k = bit_of b k).
    { intros k Hk.
      assert (Hnth : forall v, bit_of v k = nth (7 - k) (val_bits 8 v) 0).
      { intros v. rewrite val_bits_8_nth by lia. f_equal. lia. }
      now rewrite !Hnth, H. }
    specialize (Hk (Z.to_nat n) ltac:(lia)).
    rewrite !bit_of_testbit, Z2Nat.id in Hk by lia.
    destruct (Z.testbit a n), (Z.testbit b n); auto; discriminate.
  - unfold is_byte in *.
    rewrite (Z.bits_above_log2 a n), (Z.bits_above_log2 b n); auto; try lia.
    + destruct (Z.eq_dec b 0) as [->|]; [simpl; lia|].
      apply Z.log2_lt_pow2; [lia|]. 
      apply Z.lt_le_trans with (2 ^ 8); [simpl; lia|]. 
      apply Z.pow_le_mono_r; lia.
    + destruct (Z.eq_dec a 0) as [->|]; [simpl; lia|].
      apply Z.log2_lt_pow2; [lia|].
      apply Z.lt_le_trans with (2 ^ 8); [simpl; lia|].
      apply Z.pow_le_mono_r; lia.
Qed.

Lemma first_byte_of_bits d1 d2 :
  Forall is_byte d1 -> Forall is_byte d2 ->
  (8 <= length (bits_of_bytes d1))%nat -> (8 <= length (bits_of_bytes d2))%nat ->
  firstn 8 (bits_of_bytes d1) = firstn 8 (bits_of_bytes d2) ->
  byte_at d1 0 = byte_at d2 0.
Proof.
  intros H1 H2 L1 L2 H.
  destruct d1 as [|a d1]; [simpl in L1; lia|].
  destruct d2 as [|b d2]; [simpl in L2; lia|].
  inversion H1; inversion H2; subst.
  change (bits_of_bytes (a :: d1)) with (val_bits 8 a ++ bits_of_bytes d1) in H.
  change (bits_of_bytes (b :: d2)) with (val_bits 8 b ++ bits_of_bytes d2) in H.
  rewrite !firstn_app, !val_bits_length in H.
  rewrite !firstn_all2 in H by (rewrite val_bits_length; lia).
  cbn [Nat.sub firstn] in H. rewrite !app_nil_r in H.
  unfold byte_at. cbn. now apply byte_of_bits.
Qed.

Lemma bits_from_app data pos l1 l2 :
  bits_from data pos (l1 ++ l2) ->
  bits_from data pos l1 /\ bits_from data (pos + Z.of_nat (length l1)) l2.
Proof.
  intros [Hpos H]. apply bits_at_app in H. destruct H as [H1 H2].
  split; split; auto; try lia.
  replace (Z.to_nat (pos + Z.of_nat (length l1)))
    with (Z.to_nat pos + length l1)%nat by lia.
  exact H2.
Qed.

Lemma br_read_bits_from data pos n v :
  0 <= n <= 32 ->
  bits_from data pos (val_bits (Z.to_nat n) v) ->
  br_read_bits data n (mkBr pos true) = (v mod 2 ^ n, mkBr (pos + n) true).
Proof. intros Hn [Hpos H]. now apply br_read_bits_at. Qed.

(** One field of a chain of reads at a symbolic position. *)
Ltac read_field_from H E :=
  apply bits_from_app in H;
  let F := fresh "F" in
  destruct H as [F H];
  rewrite val_bits_length in H;
  match type of F with
  | bits_from ?d ?p (val_bits ?n ?v) =>
      pose proof (br_read_bits_from d p (Z.of_nat n) v
                    ltac:(cbn; lia) F) as E;
      cbn [Z.of_nat Pos.of_succ_nat Pos.succ] in E, H
  end;
  clear F.

(** The parser on an RBSP whose VUI is the one [write_timing_vui] writes. *)
Lemma parse_rebuilt_vui rbsp p fps_n fps_d rest :
  sps_walk_to_vui rbsp (skip_scaling_list_delta rbsp) (byte_at rbsp 0) br_start
  = (tt, mkBr p true) ->
  bits_from rbsp p (timing_vui_bits fps_n fps_d ++ rest) ->
  parse_sps_vui_info_from_rbsp rbsp
  = (true,
     mkSpsVuiInfo true true false 24 24 0 true (fps_d mod 2 ^ 32)
       (((fps_n * 2) mod UINT32) mod 2 ^ 32) true).
Proof.
  intros Hwalk H. unfold timing_vui_bits in H. rewrite <- !app_assoc in H.
  read_field_from H E1. read_field_from H E2. read_field_from H E3.
  read_field_from H E4. read_field_from H E5. read_field_from H E6.
  read_field_from H E7. read_field_from H E8. read_field_from H E9.
  read_field_from H E10. read_field_from H E11. read_field_from H E12.
  change (0 mod 2 ^ 1) with 0 in *. change (1 mod 2 ^ 1) with 1 in *.
  unfold parse_sps_vui_info_from_rbsp, vui_walk_to_pic_struct, br_bind,
    br_when, br_ret.
  rewrite Hwalk; cbv beta iota. rewrite E1; cbv beta iota.
  cbn [negb Z.eqb orb br_ok].
  rewrite E2; cbv beta iota; cbn [negb Z.eqb orb].
  rewrite E3; cbv beta iota; cbn [negb Z.eqb orb].
  rewrite E4; cbv beta iota; cbn [negb Z.eqb orb].
  rewrite E5; cbv beta iota; cbn [negb Z.eqb orb].
  rewrite E6; cbv beta iota; cbn [negb Z.eqb orb].
  rewrite E7; cbv beta iota. rewrite E8; cbv beta iota.
  rewrite E9; cbv beta iota; cbn [negb Z.eqb orb].
  rewrite E10; cbv beta iota; cbn [negb Z.eqb orb].
  rewrite E11; cbv beta iota; cbn [negb Z.eqb orb].
  rewrite E12; cbv beta iota; cbn [negb Z.eqb orb].
  reflexivity.
Qed.

(** On one buffer: no reader moves back or clears a failure. *)
Lemma br_mono_ret {A} (a : A) : br_mono (br_ret a).
Proof. exact (proj1 (br_local_ret a) []). Qed.

Lemma br_mono_bind {A B} (m : BR A) (f : A -> BR B) :
  br_mono m -> (forall a, br_mono (f a)) -> br_mono (br_bind m f).
Proof.
  intros Hm Hf s b s' H. unfold br_bind in H.
  destruct (m s) as [a s1] eqn:H1.
  destruct (Hm s a s1 H1) as [Hp Hok].
  destruct (Hf a s1 b s' H) as [Hp' Hok']. split; [lia|auto].
Qed.

Lemma br_mono_if {A} (c : bool) (m1 m2 : BR A) :
  br_mono m1 -> br_mono m2 -> br_mono (if c then m1 else m2).
Proof. destruct c; auto. Qed.

Lemma br_mono_read_bits d n : br_mono (br_read_bits d n).
Proof. exact (proj1 (br_local_read_bits n) d). Qed.

Lemma br_mono_read_ue d : br_mono (br_read_ue d).
Proof. exact (proj1 br_local_read_ue d). Qed.

Lemma br_mono_repeat n (body : BR Z) : br_mono body -> br_mono (br_repeat n body).
Proof.
  intros Hb. induction n as [|n IH]; cbn [br_repeat].
  - apply br_mono_ret.
  - apply br_mono_bind; auto.
Qed.

Lemma br_mono_when c (m : BR Z) : br_mono m -> br_mono (br_when c m).
Proof.
  intros Hm. unfold br_when. apply br_mono_if; [|apply br_mono_ret].
  apply br_mono_bind; auto. intros _. apply br_mono_ret.
Qed.

Lemma br_mono_scaling_lists d (skip : list Z -> Z -> BR unit) n i :
  (forall sz, br_local (fun d => skip d sz)) ->
  br_mono (scaling_lists d (skip d) n i).
Proof. intros Hskip. exact (proj1 (br_local_scaling_lists skip n Hskip i) d). Qed.

Ltac br_mono_solve :=
  repeat first
    [ apply br_mono_ret
    | apply br_mono_read_bits
    | apply br_mono_read_ue
    | apply br_mono_when
    | apply br_mono_repeat
    | apply br_mono_scaling_lists
    | apply br_mono_if
    | assumption
    | (apply br_mono_bind; [|intros ?]) ].

(** A run of [br_read_bits] that has not failed has consumed its bits,
    all of them inside the buffer. *)
Lemma br_read_bits_loop_ok d n : forall val s a s',
  br_read_bits_loop d n val s = (a, s') -> br_ok s' = true ->
  br_bitpos s' = br_bitpos s + Z.of_nat n
  /\ (n <> O -> br_bitpos s' <= 8 * size_of d).
Proof.
  induction n as [|n IH]; intros val s a s' H Hok; cbn [br_read_bits_loop] in H.
  - inversion H. subst. split; [lia|congruence].
  - unfold br_read_bit in H.
    destruct (size_of d * 8 <=? br_bitpos s) eqn:Hend; cbn [br_ok negb] in H.
    + inversion H. subst. discriminate.
    + apply Z.leb_gt in Hend.
      destruct (br_ok s) eqn:Hoks; cbn [negb] in H.
      * destruct (IH _ _ _ _ H Hok) as [Hp Hb]. cbn [br_bitpos] in Hp.
        split; [lia|]. intros _. destruct n; [|apply Hb; congruence].
        cbn [br_read_bits_loop br_ret] in H. inversion H. subst.
        cbn [br_bitpos]. lia.
      * inversion H. subst. cbn in Hok. discriminate.
Qed.

Lemma br_read_bits_ok d n s a s' :
  br_read_bits d n s = (a, s') -> br_ok s' = true -> 0 < n ->
  br_bitpos s' = br_bitpos s + n /\ br_bitpos s' <= 8 * size_of d
  /\ br_ok s = true.
Proof.
  intros H Hok Hn.
  destruct (br_read_bits_loop_ok d (Z.to_nat n) 0 s a s' H Hok) as [Hp Hb].
  split; [lia|]. split; [apply Hb; lia|].
  exact (proj2 (br_mono_read_bits d n s a s' H) Hok).
Qed.

(** The SPS walk starts with [profile_idc]: a walk that has not failed
    has consumed at least that byte. *)
Lemma sps_walk_to_vui_ok d (skip : list Z -> Z -> BR unit) profile_idc s a s' :
  (forall sz, br_local (fun d => skip d sz)) ->
  sps_walk_to_vui d (skip d) profile_idc s = (a, s') -> br_ok s' = true ->
  br_bitpos s + 8 <= br_bitpos s' /\ br_ok s = true.
Proof.
  intros Hskip H Hok. unfold sps_walk_to_vui in H.
  unfold br_bind at 1 in H.
  destruct (br_read_bits d 8 s) as [a0 s0] eqn:H0.
  match type of H with
  | ?rest s0 = _ => assert (Hrest : br_mono rest)
  end.
  { br_mono_solve. }
  destruct (Hrest s0 a s' H) as [Hp Hok0].
  destruct (br_read_bits_ok d 8 s a0 s0 H0 (Hok0 Hok)) as (Hp0 & _ & Hoks);
    [lia|].
  split; [lia|exact Hoks].
Qed.

Lemma build_annexb_shape rbsp header_byte :
  header_byte <> 0 ->
  build_annexb_from_rbsp_and_header rbsp header_byte
  = [0; 0; 0; 1; header_byte] ++ epb_encode 0 rbsp.
Proof.
  intros Hhdr. unfold build_annexb_from_rbsp_and_header.
  change (epb_safe_append [0; 0; 0; 1] header_byte) with [0; 0; 0; 1; header_byte].
  rewrite epb_fold_encode. f_equal. f_equal.
  unfold trailing_zeros. cbn [rev app].
  now replace (header_byte =? 0) with false by (symmetry; apply Z.eqb_neq; lia).
Qed.

(** The way back from the Annex B NAL to the RBSP it was built from. *)
Lemma sps_vui_of_annexb_shape rbsp header_byte :
  rbsp <> [] ->
  sps_vui_of_annexb ([0; 0; 0; 1; header_byte] ++ epb_encode 0 rbsp)
  = (let '(ok, info) := parse_sps_vui_info_from_rbsp rbsp in
     if ok then Some info else None).
Proof.
  intros Hne. unfold sps_vui_of_annexb.
  set (body := epb_encode 0 rbsp).
  assert (Hbody : 1 <= size_of body).
  { unfold body. destruct rbsp as [|b t]; [congruence|]. cbn [epb_encode].
    destruct ((2 <=? 0) && (b <=? 3)); unfold size_of; cbn [length]; lia. }
  destruct (find_startcode_4byte header_byte body) as [Hfind Hlen].
  cbv zeta in Hfind, Hlen.
  change ([0; 0; 0; 1; header_byte] ++ body)
    with (0 :: 0 :: 0 :: 1 :: header_byte :: body).
  set (nal := 0 :: 0 :: 0 :: 1 :: header_byte :: body) in *.
  assert (Hsize : size_of nal = 5 + size_of body)
    by (unfold nal, size_of; cbn [length]; lia).
  cbv zeta. rewrite Hfind, Hlen.
  replace (size_of nal <? 5) with false by (symmetry; apply Z.ltb_ge; lia).
  change (0 <? 0) with false. cbv iota.
  replace (size_of nal <=? 0 + 4 + 1) with false by (symmetry; apply Z.leb_gt; lia).
  change (0 + 4 + 1) with (size_of [0; 0; 0; 1; header_byte]).
  change nal with ([0; 0; 0; 1; header_byte] ++ body).
  rewrite slice_tail. unfold body.
  replace (ebsp_to_rbsp (epb_encode 0 rbsp)) with rbsp
    by (symmetry; apply (ebsp_decode_encode rbsp 0 []); lia).
  reflexivity.
Qed.

(** The RBSP that [patch_sps_pic_struct_and_timing] builds: the first [p]
    bits of the original, then the synthesized VUI and trailing bits. *)
Lemma rebuilt_rbsp_bits rbsp p fps_n fps_d :
  (p <= 8 * length rbsp)%nat ->
  exists bw k,
    copy_bits rbsp p br_start bw_init = Some bw
    /\ Forall is_byte (bw_bytes (write_timing_vui bw fps_n fps_d))
    /\ bits_of_bytes (bw_bytes (write_timing_vui bw fps_n fps_d))
       = firstn p (bits_of_bytes rbsp)
         ++ timing_vui_bits fps_n fps_d ++ 1 :: repeat 0 k.
Proof.
  intros Hp.
  destruct (copy_bits_bits rbsp p 0 bw_init bw_init_wf) as (bw & Hc & Hw & Hb);
    [lia|].
  destruct (write_timing_vui_bits bw fps_n fps_d Hw) as (Hw' & H0 & k & Hbits).
  exists bw, k. split; [exact Hc|]. split; [apply Hw'|].
  rewrite <- (bw_bits_aligned _ H0), Hbits, Hb. reflexivity.
Qed.

(** C1, as the code has it.  For every SPS (a type-7 NAL, its payload
    made of bytes) whose RBSP the patcher walks without bit-reader failure
    up to [vui_parameters_present_flag], with its scaling lists, if it
    has any, read alike by the patcher and by the parser, and for every
    [fps_n > 0] and [fps_d > 0] that fit a [guint]: the output of
    [patch_sps_pic_struct_and_timing], taken back to RBSP and parsed with
    [parse_sps_vui_info_from_rbsp], yields [pic_struct_present_flag = 1],
    [timing_info_present_flag = 1], [num_units_in_tick = fps_d] and
    [time_scale = 2 * fps_n] modulo 2^32, which is [2 * fps_n] when
    [fps_n < 2^31]. *)
Theorem patched_sps_roundtrip ebsp header_byte fps_n fps_d :
  let rbsp := ebsp_to_rbsp ebsp in
  let profile_idc := byte_at rbsp 0 in
  Forall is_byte ebsp -> Z.land header_byte 31 = 7 ->
  0 < fps_n < UINT32 -> 0 < fps_d < UINT32 ->
  br_ok (snd ((sps_walk_to_vui rbsp (skip_scaling_list_fixed rbsp) profile_idc ;;;
               br_read_bits rbsp 1) br_start)) = true ->
  sps_walk_to_vui rbsp (skip_scaling_list_delta rbsp) profile_idc br_start
  = sps_walk_to_vui rbsp (skip_scaling_list_fixed rbsp) profile_idc br_start ->
  exists annexb info,
    patch_sps_pic_struct_and_timing ebsp header_byte fps_n fps_d = Some annexb
    /\ sps_vui_of_annexb annexb = Some info
    /\ pic_struct_present_flag info = true
    /\ timing_info_present_flag info = true
    /\ num_units_in_tick info = fps_d
    /\ time_scale info = (2 * fps_n) mod UINT32
    /\ (fps_n < 2 ^ 31 -> time_scale info = 2 * fps_n).
Proof.
  cbv zeta. intros Hbytes Hhdr Hn Hd Hok Hsame.
  set (rbsp := ebsp_to_rbsp ebsp) in *.
  assert (Hhdr0 : header_byte <> 0) by (intros ->; discriminate).
  (* the walk of the patcher *)
  unfold br_bind in Hok.
  destruct (sps_walk_to_vui rbsp (skip_scaling_list_fixed rbsp) (byte_at rbsp 0)
              br_start) as [[] s1] eqn:Hwalk.
  destruct (br_read_bits rbsp 1 s1) as [flag s2] eqn:Hflag. cbn [snd] in Hok.
  destruct (br_read_bits_ok rbsp 1 s1 flag s2 Hflag Hok) as (Hp2 & Hend & Hok1);
    [lia|].
  destruct s1 as [p ok1]. cbn [br_bitpos br_ok] in *. subst ok1.
  destruct (sps_walk_to_vui_ok rbsp skip_scaling_list_fixed _ _ _ _
              br_local_skip_scaling_list_fixed Hwalk eq_refl) as [Hp8 _].
  cbn [br_bitpos br_start] in Hp8.
  assert (HpN : (Z.to_nat p <= 8 * length rbsp)%nat)
    by (unfold size_of in Hend; lia).
  destruct (rebuilt_rbsp_bits rbsp (Z.to_nat p) fps_n fps_d HpN)
    as (bw & k & Hcopy & Hnewbytes & Hnewbits).
  set (new_rbsp := bw_bytes (write_timing_vui bw fps_n fps_d)) in *.
  assert (Hlenbits : length (firstn (Z.to_nat p) (bits_of_bytes rbsp)) = Z.to_nat p).
  { rewrite length_firstn, bits_of_bytes_length. lia. }
  assert (Hnewlen : (Z.to_nat p < 8 * length new_rbsp)%nat).
  { rewrite <- bits_of_bytes_length, Hnewbits, length_app, Hlenbits, length_app.
    cbn [length]. lia. }
  (* the patcher returns the rebuilt NAL *)
  assert (Hpatch : patch_sps_pic_struct_and_timing ebsp header_byte fps_n fps_d
                   = Some ([0; 0; 0; 1; header_byte] ++ epb_encode 0 new_rbsp)).
  { unfold patch_sps_pic_struct_and_timing.
    replace ((fps_n =? 0) || (fps_d =? 0)) with false.
    2:{ symmetry. apply orb_false_iff. split; apply Z.eqb_neq; lia. }
    fold rbsp. rewrite Hwalk. cbn [br_bitpos]. rewrite Hflag, Hok.
    cbn [negb]. rewrite Hcopy. fold new_rbsp.
    now rewrite build_annexb_shape. }
  (* the parser reads the copied prefix as it read the original *)
  assert (Hagree : agree_upto rbsp new_rbsp p).
  { split; [unfold size_of; lia|]. intros i Hi.
    replace i with (Z.of_nat (Z.to_nat i)) by lia.
    rewrite !bit_at_nth by lia. rewrite Hnewbits.
    rewrite app_nth1 by lia. 
    rewrite <- (firstn_skipn (Z.to_nat p) (bits_of_bytes rbsp)) at 1.
    rewrite app_nth1 by lia. reflexivity. }
  assert (Hprofile : byte_at new_rbsp 0 = byte_at rbsp 0).
  { apply first_byte_of_bits; auto.
    - now apply ebsp_to_rbsp_bytes.
    - rewrite bits_of_bytes_length. lia.
    - rewrite bits_of_bytes_length. lia.
    - rewrite Hnewbits, firstn_app, Hlenbits.
      replace (8 - Z.to_nat p)%nat with 0%nat by lia.
      rewrite firstn_firstn, Nat.min_l by lia. cbn [firstn].
      now rewrite app_nil_r. }
  assert (Hwalk' : sps_walk_to_vui new_rbsp (skip_scaling_list_delta new_rbsp)
                     (byte_at new_rbsp 0) br_start = (tt, mkBr p true)).
  { rewrite Hprofile.
    apply (proj2 (br_local_sps_walk_to_vui skip_scaling_list_delta
                    (byte_at rbsp 0) br_local_skip_scaling_list_delta)
             rbsp new_rbsp); [cbn; lia|now rewrite Hsame|exact Hagree]. }
  assert (Hvui : bits_from new_rbsp p
                   (timing_vui_bits fps_n fps_d ++ 1 :: repeat 0 k)).
  { split; [lia|]. eexists _, []. rewrite app_nil_r. split; [exact Hnewbits|].
    exact Hlenbits. }
  pose proof (parse_rebuilt_vui new_rbsp p fps_n fps_d _ Hwalk' Hvui) as Hparse.
  do 2 eexists. split; [exact Hpatch|]. split.
  - rewrite sps_vui_of_annexb_shape.
    + rewrite Hparse. reflexivity.
    + intros Hnil. rewrite Hnil in Hnewlen. cbn in Hnewlen. lia.
  - cbn [pic_struct_present_flag timing_info_present_flag num_units_in_tick
         time_scale].
    change (2 ^ 32) with UINT32. rewrite Z.mod_mod by (unfold UINT32; lia).
    rewrite (Z.mul_comm fps_n 2).
    repeat split.
    + apply Z.mod_small. lia.
    + intros H31. apply Z.mod_small. unfold UINT32. lia.
Qed.

(** Outside the High family no scaling list is met, and the walk of the
    patcher is the walk of the parser. *)
Lemma sps_walks_agree_without_scaling_lists d profile_idc s :
  is_high_profile profile_idc = false ->
  sps_walk_to_vui d (skip_scaling_list_delta d) profile_idc s
  = sps_walk_to_vui d (skip_scaling_list_fixed d) profile_idc s.
Proof. intros H. unfold sps_walk_to_vui. rewrite H. reflexivity. Qed.

Lemma patched_sps_roundtrip_witness :
  exists annexb info,
    patch_sps_pic_struct_and_timing sample_sps 103 30000 1001 = Some annexb
    /\ sps_vui_of_annexb annexb = Some info
    /\ pic_struct_present_flag info = true
    /\ timing_info_present_flag info = true
    /\ num_units_in_tick info = 1001
    /\ time_scale info = (2 * 30000) mod UINT32
    /\ (30000 < 2 ^ 31 -> time_scale info = 2 * 30000).
Proof.
  apply (patched_sps_roundtrip sample_sps 103 30000 1001).
  - unfold sample_sps, is_byte. repeat constructor; lia.
  - reflexivity.
  - unfold UINT32. lia.
  - unfold UINT32. lia.
  - vm_compute. reflexivity.
  - vm_compute. reflexivity.
Defined.

(** [time_scale] is a [guint32]: with [fps_n = 2^31] the product
    [fps_n * 2u] wraps to 0, and that is what the parser finds in the
    patched SPS, not [2 * fps_n]. *)
Lemma time_scale_wraps_counterexample :
  let fps_n := 2147483648 in
  let rbsp := ebsp_to_rbsp sample_sps in
  Forall is_byte sample_sps
  /\ br_ok (snd ((sps_walk_to_vui rbsp (skip_scaling_list_fixed rbsp)
                    (byte_at rbsp 0) ;;; br_read_bits rbsp 1) br_start)) = true
  /\ br_ok (snd ((sps_walk_to_vui rbsp (skip_scaling_list_delta rbsp)
                    (byte_at rbsp 0) ;;; br_read_bits rbsp 1) br_start)) = true
  /\ 0 < fps_n
  /\ exists annexb info,
       patch_sps_pic_struct_and_timing sample_sps 103 fps_n 1 = Some annexb
       /\ sps_vui_of_annexb annexb = Some info
       /\ time_scale info = 0
       /\ time_scale info <> 2 * fps_n.
Proof.
  cbv zeta. split.
  { unfold sample_sps, is_byte. repeat constructor; lia. }
  split; [vm_compute; reflexivity|]. split; [vm_compute; reflexivity|].
  split; [lia|]. do 2 eexists.
  split; [vm_compute; reflexivity|]. split; [vm_compute; reflexivity|].
  split; [reflexivity|]. cbn. lia.
Qed.

(** A scaling list that ends early.  The parser stops reading its deltas
    where the standard says, the patcher reads sixteen codes whatever they
    are: on [sample_sps_scaling_list] the parser finds
    [vui_parameters_present_flag] at bit 83 and the patcher at bit 216.
    The patcher then copies the old VUI with the prefix, and the patched
    SPS parses to the old timing with [pic_struct_present_flag = 0]. *)
Lemma scaling_list_slip_evaluation :
  let rbsp := ebsp_to_rbsp sample_sps_scaling_list in
  br_bitpos (snd (sps_walk_to_vui rbsp (skip_scaling_list_delta rbsp)
                    (byte_at rbsp 0) br_start)) = 83
  /\ sps_walk_to_vui rbsp (skip_scaling_list_fixed rbsp) (byte_at rbsp 0) br_start
     = (tt, mkBr 216 true)
  /\ exists annexb info,
       patch_sps_pic_struct_and_timing sample_sps_scaling_list 103 25 1
       = Some annexb
       /\ sps_vui_of_annexb annexb = Some info
       /\ pic_struct_present_flag info = false
       /\ num_units_in_tick info = 1001
       /\ time_scale info = 60000.
Proof.
  cbv zeta. split; [vm_compute; reflexivity|]. split; [vm_compute; reflexivity|].
  do 2 eexists. split; [vm_compute; reflexivity|].
  split; [vm_compute; reflexivity|]. repeat split.
Qed.

(** ** The loop bounds are never reached

    The loops of the source are modelled with a bound on their
    iterations.  Each bound is large enough: a larger one gives the same
    result. *)

Lemma find_startcode_loop_fuel data size : forall n m i,
  (Z.to_nat (size - 3 - i) <= n)%nat -> (Z.to_nat (size - 3 - i) <= m)%nat ->
  find_startcode_loop data size n i = find_startcode_loop data size m i.
Proof.
  induction n as [|n IH]; intros m i Hn Hm.
  - destruct m; cbn [find_startcode_loop]; auto.
    replace (i + 3 <? size) with false by (symmetry; apply Z.ltb_ge; lia). auto.
  - cbn [find_startcode_loop].
    destruct (i + 3 <? size) eqn:Hlt.
    + apply Z.ltb_lt in Hlt. destruct m as [|m]; [lia|].
      cbn [find_startcode_loop].
      replace (i + 3 <? size) with true by (symmetry; apply Z.ltb_lt; lia).
      rewrite (IH m (i + 1)) by lia. reflexivity.
    + destruct m; cbn [find_startcode_loop]; auto. now rewrite Hlt.
Qed.

Lemma br_read_ue_zeros_fuel data : forall n m zeros s,
  0 <= zeros -> (Z.to_nat (31 - zeros) <= n)%nat -> (Z.to_nat (31 - zeros) <= m)%nat ->
  br_read_ue_zeros data n zeros s = br_read_ue_zeros data m zeros s.
Proof.
  induction n as [|n IH]; intros m zeros s Hz Hn Hm.
  - assert (31 <= zeros) by lia.
    destruct m; cbn [br_read_ue_zeros]; auto.
    destruct (br_read_bit data s) as [bit s1].
    destruct (bit =? 0); auto. destruct (negb (br_ok s1)); auto.
    replace (31 <? zeros + 1) with true by (symmetry; apply Z.ltb_lt; lia). auto.
  - destruct m as [|m].
    + assert (31 <= zeros) by lia. cbn [br_read_ue_zeros].
      destruct (br_read_bit data s) as [bit s1].
      destruct (bit =? 0); auto. destruct (negb (br_ok s1)); auto.
      replace (31 <? zeros + 1) with true by (symmetry; apply Z.ltb_lt; lia). auto.
    + cbn [br_read_ue_zeros].
      destruct (br_read_bit data s) as [bit s1].
      destruct (bit =? 0); auto. destruct (negb (br_ok s1)); auto.
      destruct (31 <? zeros + 1) eqn:H31; auto. apply Z.ltb_ge in H31.
      apply IH; lia.
Qed.

Lemma scan_au_loop_fuel scfg data size : forall n m nal_start st,
  0 <= nal_start ->
  (Z.to_nat (size - nal_start) <= n)%nat -> (Z.to_nat (size - nal_start) <= m)%nat ->
  scan_au_loop scfg data size n nal_start st
  = scan_au_loop scfg data size m nal_start st.
Proof.
  induction n as [|n IH]; intros m nal_start st Hns Hn Hm.
  - destruct m; cbn [scan_au_loop]; auto.
    replace (nal_start <? size) with false by (symmetry; apply Z.ltb_ge; lia). auto.
  - cbn [scan_au_loop]. destruct (nal_start <? size) eqn:Hlt.
    + apply Z.ltb_lt in Hlt. destruct m as [|m]; [lia|]. cbn [scan_au_loop].
      replace (nal_start <? size) with true by (symmetry; apply Z.ltb_lt; lia).
      cbv zeta.
      destruct (unit_end_bounds data size nal_start) as [Hb _]; [lia|].
      cbv zeta in Hb.
      set (next := if find_startcode data size (nal_start + 1) <? 0 then size
                   else find_startcode data size (nal_start + 1)) in *.
      destruct (next =? size); auto.
      assert (0 <= startcode_len_at data size next).
      { destruct (startcode_len_at_cases data size next) as [->|[[-> _]|[-> _]]]; lia. }
      apply IH; lia.
    + destruct m; cbn [scan_au_loop]; auto. now rewrite Hlt.
Qed.

Lemma copy_nals_loop_fuel data size cache : forall n m p out_arr sps_replaced,
  0 <= p ->
  (Z.to_nat (size - p) <= n)%nat -> (Z.to_nat (size - p) <= m)%nat ->
  copy_nals_loop data size cache n p out_arr sps_replaced
  = copy_nals_loop data size cache m p out_arr sps_replaced.
Proof.
  induction n as [|n IH]; intros m p out_arr sps_replaced Hp Hn Hm.
  - destruct m; cbn [copy_nals_loop]; auto.
    replace (p <? size) with false by (symmetry; apply Z.ltb_ge; lia). auto.
  - cbn [copy_nals_loop]. destruct (p <? size) eqn:Hlt.
    + apply Z.ltb_lt in Hlt. destruct m as [|m]; [lia|]. cbn [copy_nals_loop].
      replace (p <? size) with true by (symmetry; apply Z.ltb_lt; lia).
      destruct (find_startcode data size p <? 0) eqn:Hneg; auto.
      apply Z.ltb_ge in Hneg.
      destruct (find_startcode_found data size p _ eq_refl)
        as (Hle & Hlen & Hin); [lia|].
      destruct (size <=? _) eqn:Hout; auto. cbv zeta.
      set (ns := find_startcode data size p
                 + startcode_len_at data size (find_startcode data size p)) in *.
      assert (Hns : p < ns < size)
        by (destruct Hlen as [Hl | Hl]; unfold ns; rewrite Hl in *; lia).
      destruct (unit_end_bounds data size ns) as [Hb _]; [lia|].
      cbv zeta in Hb.
      set (next := if find_startcode data size (ns + 1) <? 0 then size
                   else find_startcode data size (ns + 1)) in *.
      destruct (Z.land (byte_at data ns) 31 =? 7).
      * destruct (negb sps_replaced && cache_populated cache); apply IH; lia.
      * destruct (Z.land (byte_at data ns) 31 =? 6); apply IH; lia.
    + destruct m; cbn [copy_nals_loop]; auto. now rewrite Hlt.
Qed.

Lemma extract_sps_vui_loop_fuel annexb size : forall n m pos,
  0 <= pos ->
  (Z.to_nat (size - pos) <= n)%nat -> (Z.to_nat (size - pos) <= m)%nat ->
  extract_sps_vui_loop annexb size n pos = extract_sps_vui_loop annexb size m pos.
Proof.
  induction n as [|n IH]; intros m pos Hp Hn Hm.
  - destruct m; cbn [extract_sps_vui_loop]; auto.
    replace (pos + 4 <? size) with false by (symmetry; apply Z.ltb_ge; lia). auto.
  - cbn [extract_sps_vui_loop]. destruct (pos + 4 <? size) eqn:Hlt.
    + apply Z.ltb_lt in Hlt. destruct m as [|m]; [lia|].
      cbn [extract_sps_vui_loop].
      replace (pos + 4 <? size) with true by (symmetry; apply Z.ltb_lt; lia).
      destruct (find_startcode annexb size pos <? 0) eqn:Hneg; auto.
      apply Z.ltb_ge in Hneg.
      destruct (find_startcode_found annexb size pos _ eq_refl)
        as (Hle & Hlen & Hin); [lia|].
      destruct (size <=? _) eqn:Hout; auto. cbv zeta.
      set (ns := find_startcode annexb size pos
                 + startcode_len_at annexb size (find_startcode annexb size pos)) in *.
      assert (Hns : pos < ns < size)
        by (destruct Hlen as [Hl | Hl]; unfold ns; rewrite Hl in *; lia).
      destruct (Z.land (byte_at annexb ns) 31 =? 7); auto.
      destruct (find_startcode annexb size ns <? 0) eqn:Hneg2.
      * apply IH; lia.
      * apply Z.ltb_ge in Hneg2.
        destruct (find_startcode_found annexb size ns _ eq_refl) as (Hle2 & _);
          [lia|].
        apply IH; lia.
    + destruct m; cbn [extract_sps_vui_loop]; auto. now rewrite Hlt.
Qed.

(** ** The scenarios of the specification *)

(** Injection disabled: the probe hands the buffer on as it is. *)
Example scenario_disabled scfg g buf :
  inject_sei scfg = false -> h264_sei_inject_probe scfg g buf = (buf, scfg, g).
Proof. intros H. unfold h264_sei_inject_probe. now rewrite H. Qed.

(** No PTS and no attached timecode: output equals input. *)
Example scenario_no_timecode :
  let buf := mkBuffer (sample_sps_nal ++ sample_idr_nal) None GST_CLOCK_TIME_NONE in
  h264_sei_inject_probe sample_config Globals_init buf
  = (buf, sample_config, Globals_init).
Proof. reflexivity. Qed.

(** SPS + IDR with timecode 01:02:03:04 at 25/1: patched SPS, SEI, IDR;
    the SEI payload is 08 04 04 0C 20 80, the bits
    0000 1 00 0 00000 1 0 0 00000100 000011 000010 00001 and padding. *)
Example scenario_sps_idr :
  let data := sample_sps_nal ++ sample_idr_nal in
  let patched := [0; 0; 0; 1; 103; 100; 0; 31; 172; 217; 64; 80; 5; 186; 16;
                  0; 0; 3; 0; 16; 0; 0; 3; 3; 41; 64] in
  let r := rewrite_au sample_config Globals_init data sample_tc in
  fst r = Rewritten (patched
                     ++ [0; 0; 0; 1; 6; 1; 6; 8; 4; 4; 12; 32; 128; 128]
                     ++ sample_idr_nal)
  /\ g_patched_sps_ebsp (snd r) = Some patched
  /\ map (unit_type patched) (nal_units patched 0) = [7]
  /\ option_map time_scale (sps_vui_of_annexb patched) = Some 50
  /\ option_map num_units_in_tick (sps_vui_of_annexb patched) = Some 1
  /\ option_map pic_struct_present_flag (sps_vui_of_annexb patched) = Some true.
Proof. cbv zeta. repeat split; vm_compute; reflexivity. Qed.

(** AUD, SPS, IDR: the AUD stays first. *)
Example scenario_aud :
  let data := sample_aud_nal ++ sample_sps_nal ++ sample_idr_nal in
  match fst (rewrite_au sample_config Globals_init data sample_tc) with
  | Rewritten out =>
      map (unit_type out) (nal_units out 0) = [9; 7; 6; 5]
      /\ firstn 6 out = sample_aud_nal
  | PassThrough => False
  end.
Proof. vm_compute. split; reflexivity. Qed.

(** A later access unit without SPS or IDR: the SEI alone is added. *)
Example scenario_p_slice :
  let first := sample_sps_nal ++ sample_idr_nal in
  let g := snd (rewrite_au sample_config Globals_init first sample_tc) in
  fst (rewrite_au sample_config g sample_slice_nal (mkTc 0 0 0 15 false))
  = Rewritten (build_pic_timing_sei_nal false 15 0 0 0 false ++ sample_slice_nal).
Proof. vm_compute. reflexivity. Qed.

(** 30000/1001 with an upstream timecode 00:10:00:02: drop-frame is
    declared, and the patched SPS carries 60000 / 1001. *)
Example scenario_drop_frame :
  let scfg := mkSeiConfig true 30000 1001 true false 0 0 0 in
  let buf := mkBuffer (sample_sps_nal ++ sample_idr_nal)
               (Some (mkTimeCode 0 10 0 2)) GST_CLOCK_TIME_NONE in
  let patched :=
    cache_bytes (g_patched_sps_ebsp
                   (snd (prepend_h264_sei_timecode scfg Globals_init buf))) in
  fst (timecode_source scfg buf) = Some (mkTc 0 10 0 2 true)
  /\ option_map time_scale (sps_vui_of_annexb patched) = Some 60000
  /\ option_map num_units_in_tick (sps_vui_of_annexb patched) = Some 1001
  /\ option_map pt_cnt_dropped_flag
       (spec_decode_pic_timing_sei (build_pic_timing_sei_nal true 2 0 10 0 false))
     = Some 1.
Proof. cbv zeta. repeat split; vm_compute; reflexivity. Qed.

(** * Further properties of the code *)

(** ** The first start code *)

Lemma startcode_len_at_short data size i :
  size <= i + 3 -> startcode_len_at data size i = 0.
Proof.
  intros H. unfold startcode_len_at.
  replace (i + 3 <? size) with false by (symmetry; apply Z.ltb_ge; lia).
  reflexivity.
Qed.

Lemma find_startcode_loop_first data size : forall n i,
  (Z.to_nat (size - 3 - i) <= n)%nat ->
  let r := find_startcode_loop data size n i in
  (r = -1 /\ forall j, i <= j -> startcode_len_at data size j = 0)
  \/ (i <= r /\ r + 3 < size /\ startcode_len_at data size r <> 0
      /\ forall j, i <= j < r -> startcode_len_at data size j = 0).
Proof.
  induction n as [|n IH]; intros i Hn; cbn [find_startcode_loop].
  - left. split; auto. intros j Hj. apply startcode_len_at_short. lia.
  - destruct (i + 3 <? size) eqn:Hb.
    2:{ left. split; auto. intros j Hj. apply startcode_len_at_short.
        apply Z.ltb_ge in Hb. lia. }
    apply Z.ltb_lt in Hb.
    assert (Hrec : startcode_len_at data size i = 0 ->
      let r := find_startcode_loop data size n (i + 1) in
      (r = -1 /\ forall j, i <= j -> startcode_len_at data size j = 0)
      \/ (i <= r /\ r + 3 < size /\ startcode_len_at data size r <> 0
          /\ forall j, i <= j < r -> startcode_len_at data size j = 0)).
    { intros H0. cbv zeta.
      destruct (IH (i + 1)) as [[Hr Hall]|(H1 & H2 & H3 & Hall)]; [lia| |].
      - left. split; auto. intros j Hj.
        destruct (Z.eq_dec j i) as [->|]; auto. apply Hall. lia.
      - right. repeat split; auto; try lia. intros j Hj.
        destruct (Z.eq_dec j i) as [->|]; auto. apply Hall. lia. }
    assert (Hhere : startcode_len_at data size i <> 0 ->
      i <= i /\ i + 3 < size /\ startcode_len_at data size i <> 0
      /\ forall j, i <= j < i -> startcode_len_at data size j = 0).
    { intros H. repeat split; auto; lia. }
    assert (HL : startcode_len_at data size i
                 = if (byte_at data i =? 0) && (byte_at data (i + 1) =? 0)
                   then if byte_at data (i + 2) =? 1 then 3
                        else if (i + 4 <? size) && (byte_at data (i + 2) =? 0)
                                && (byte_at data (i + 3) =? 1) then 4 else 0
                   else 0).
    { unfold startcode_len_at. apply Z.ltb_lt in Hb. now rewrite Hb. }
    destruct ((byte_at data i =? 0) && (byte_at data (i + 1) =? 0)); auto.
    destruct (byte_at data (i + 2) =? 1).
    + right. apply Hhere. lia.
    + destruct ((i + 4 <? size) && (byte_at data (i + 2) =? 0)
                && (byte_at data (i + 3) =? 1)); auto.
      right. apply Hhere. lia.
Qed.

(** X1.  [find_startcode] reports the first start code at or after [from]
    that is followed by a NAL header byte: either it returns -1 and no
    position from [from] on carries a start code, or it returns a position
    [r >= from] that carries one ([startcode_len_at] is not 0 there, and
    [r + 3 < size]) while no position between [from] and [r] does. *)
Theorem find_startcode_first data size from :
  0 <= from ->
  let r := find_startcode data size from in
  (r = -1 /\ forall j, from <= j -> startcode_len_at data size j = 0)
  \/ (from <= r /\ r + 3 < size /\ startcode_len_at data size r <> 0
      /\ forall j, from <= j < r -> startcode_len_at data size j = 0).
Proof.
  intros _. apply find_startcode_loop_first. lia.
Qed.

Lemma find_startcode_first_witness :
  let data := [9; 0; 0; 1; 65; 0; 0; 0; 1; 66] in
  let r := find_startcode data 10 0 in
  (r = -1 /\ forall j, 0 <= j -> startcode_len_at data 10 j = 0)
  \/ (0 <= r /\ r + 3 < 10 /\ startcode_len_at data 10 r <> 0
      /\ forall j, 0 <= j < r -> startcode_len_at data 10 j = 0).
Proof.
  exact (find_startcode_first [9; 0; 0; 1; 65; 0; 0; 0; 1; 66] 10 0
           (Z.le_refl 0)).
Defined.

Lemma find_startcode_none data size from :
  (forall j, from <= j -> startcode_len_at data size j = 0) ->
  find_startcode data size from = -1.
Proof.
  intros Hall.
  destruct (find_startcode_loop_first data size (Z.to_nat (size - 3 - from)) from)
    as [[Hr _]|(H1 & _ & H3 & _)]; [lia|exact Hr|].
  exfalso. apply H3. apply Hall. exact H1.
Qed.

(** ** No start code inside a built NAL *)

Lemma byte_at_app_l a b i : 0 <= i < size_of a -> byte_at (a ++ b) i = byte_at a i.
Proof.
  unfold byte_at, size_of. intros H.
  destruct (i <? 0) eqn:Hi; [apply Z.ltb_lt in Hi; lia|].
  apply app_nth1. lia.
Qed.

Lemma byte_at_app_r a b i :
  size_of a <= i -> byte_at (a ++ b) i = byte_at b (i - size_of a).
Proof.
  unfold byte_at, size_of. intros H.
  destruct (i <? 0) eqn:Hi; [apply Z.ltb_lt in Hi; lia|].
  destruct (i - Z.of_nat (length a) <? 0) eqn:Hj; [apply Z.ltb_lt in Hj; lia|].
  rewrite app_nth2 by lia. f_equal. lia.
Qed.

Lemma epb_safe_append_free k arr b :
  0 <= k -> emulation_free_from k arr ->
  emulation_free_from k (epb_safe_append arr b).
Proof.
  intros Hk Hfree i Hi Hlt H0 H1. unfold epb_safe_append in *.
  pose proof (size_of_nonneg arr) as Hn.
  destruct ((2 <=? size_of arr) && (byte_at arr (size_of arr - 2) =? 0)
            && (byte_at arr (size_of arr - 1) =? 0) && (b <=? 3)) eqn:Hc.
  - rewrite <- app_assoc in *. cbn [app] in *.
    rewrite size_of_app in Hlt. change (size_of [3; b]) with 2 in Hlt.
    destruct (Z_lt_dec (i + 2) (size_of arr)) as [Hin|Hout].
    + rewrite byte_at_app_l in * by lia. now apply Hfree.
    + destruct (Z.eq_dec (i + 2) (size_of arr)) as [He|Hne].
      * rewrite (byte_at_app_r arr _ (i + 2)) by lia.
        replace (i + 2 - size_of arr) with 0 by lia. cbn. lia.
      * rewrite (byte_at_app_r arr _ (i + 1)) in H1 by lia.
        replace (i + 1 - size_of arr) with 0 in H1 by lia. cbn in H1. lia.
  - rewrite size_of_app in Hlt. change (size_of [b]) with 1 in Hlt.
    destruct (Z_lt_dec (i + 2) (size_of arr)) as [Hin|Hout].
    + rewrite byte_at_app_l in * by lia. now apply Hfree.
    + assert (He : i + 2 = size_of arr) by lia.
      rewrite byte_at_app_l in H0, H1 by lia.
      rewrite (byte_at_app_r arr _ (i + 2)) by lia.
      replace (i + 2 - size_of arr) with 0 by lia. cbn.
      replace (size_of arr - 2) with i in Hc by lia.
      replace (size_of arr - 1) with (i + 1) in Hc by lia.
      rewrite H0, H1 in Hc.
      replace (2 <=? size_of arr) with true in Hc
        by (symmetry; apply Z.leb_le; lia).
      cbn in Hc. apply Z.leb_gt in Hc. lia.
Qed.

Lemma epb_fold_free k x : forall arr,
  0 <= k -> emulation_free_from k arr ->
  emulation_free_from k (fold_left epb_safe_append x arr).
Proof.
  induction x as [|b x IH]; intros arr Hk H; cbn [fold_left]; auto.
  apply IH; auto. now apply epb_safe_append_free.
Qed.

Lemma emulation_free_no_startcode k data i :
  emulation_free_from k data -> k <= i ->
  startcode_len_at data (size_of data) i = 0.
Proof.
  intros Hfree Hi. unfold startcode_len_at.
  destruct (i + 3 <? size_of data) eqn:H3; cbn [andb]; auto.
  apply Z.ltb_lt in H3.
  destruct (byte_at data i =? 0) eqn:H0; cbn [andb]; auto.
  destruct (byte_at data (i + 1) =? 0) eqn:H1; cbn [andb]; auto.
  apply Z.eqb_eq in H0, H1.
  pose proof (Hfree i Hi ltac:(lia) H0 H1) as Hge.
  replace (byte_at data (i + 2) =? 1) with false
    by (symmetry; apply Z.eqb_neq; lia).
  replace (byte_at data (i + 2) =? 0) with false
    by (symmetry; apply Z.eqb_neq; lia).
  now rewrite andb_false_r.
Qed.

Lemma emulation_free_find_startcode k data from :
  emulation_free_from k data -> k <= from ->
  find_startcode data (size_of data) from = -1.
Proof.
  intros Hfree Hk. apply find_startcode_none. intros j Hj.
  apply (emulation_free_no_startcode k); auto. lia.
Qed.

Lemma startcode_prefix_free : emulation_free_from 2 [0; 0; 0; 1].
Proof. intros i Hi Hlt. change (size_of [0; 0; 0; 1]) with 4 in Hlt. lia. Qed.

Lemma build_annexb_head rbsp header_byte :
  build_annexb_from_rbsp_and_header rbsp header_byte
  = [0; 0; 0; 1; header_byte]
    ++ epb_encode (trailing_zeros [0; 0; 0; 1; header_byte]) rbsp.
Proof.
  unfold build_annexb_from_rbsp_and_header.
  change (epb_safe_append [0; 0; 0; 1] header_byte) with [0; 0; 0; 1; header_byte].
  apply epb_fold_encode.
Qed.

Lemma build_annexb_free rbsp header_byte :
  emulation_free_from 2 (build_annexb_from_rbsp_and_header rbsp header_byte).
Proof.
  unfold build_annexb_from_rbsp_and_header.
  apply epb_fold_free; [lia|]. apply epb_safe_append_free; [lia|].
  exact startcode_prefix_free.
Qed.

(** A buffer that opens with a 4-byte start code and a header byte and
    carries no start code after that is one NAL unit for the loops of the
    rewriter. *)
Lemma single_nal_units hdr rest :
  let nal := 0 :: 0 :: 0 :: 1 :: hdr :: rest in
  emulation_free_from 2 nal ->
  nal_units nal 0 = [(0, 4, size_of nal)].
Proof.
  intros nal Hfree. unfold nal_units.
  assert (Hsize : size_of nal = 5 + size_of rest).
  { unfold nal, size_of. cbn [length]. lia. }
  pose proof (size_of_nonneg rest) as Hrest.
  destruct (Z.to_nat (size_of nal)) as [|n] eqn:Hn; [lia|].
  cbn [nal_units_loop].
  replace (0 <? size_of nal) with true by (symmetry; apply Z.ltb_lt; lia).
  destruct (find_startcode_4byte hdr rest) as [Hsc Hlen].
  fold nal in Hsc, Hlen. rewrite Hsc, Hlen.
  change (0 <? 0) with false. cbn iota. change (0 + 4) with 4.
  replace (size_of nal <=? 4) with false by (symmetry; apply Z.leb_gt; lia).
  rewrite (emulation_free_find_startcode 2) by (auto; lia).
  change (-1 <? 0) with true. cbn iota. f_equal.
  destruct n as [|n]; cbn [nal_units_loop]; auto.
  now rewrite Z.ltb_irrefl.
Qed.

(** X2.  A NAL built by [build_annexb_from_rbsp_and_header] holds exactly
    one start code, its own: whatever the header byte and the RBSP bytes
    are, the scan of the rewriter finds in it a single NAL unit, with its
    start code at offset 0, its header byte at offset 4 and its end at the
    end of the buffer, and [find_startcode] finds nothing from the header
    byte on. *)
Theorem built_nal_is_one_unit rbsp header_byte :
  let nal := build_annexb_from_rbsp_and_header rbsp header_byte in
  nal_units nal 0 = [(0, 4, size_of nal)]
  /\ byte_at nal 4 = header_byte
  /\ find_startcode nal (size_of nal) 4 = -1.
Proof.
  cbv zeta. pose proof (build_annexb_free rbsp header_byte) as Hfree.
  split; [|split].
  - revert Hfree. rewrite build_annexb_head. cbn [app].
    apply single_nal_units.
  - rewrite build_annexb_head. reflexivity.
  - apply (emulation_free_find_startcode 2); auto. lia.
Qed.

Lemma sei_nal_free drop_frame frame seconds minutes hours inc :
  emulation_free_from 2
    (build_pic_timing_sei_nal drop_frame frame seconds minutes hours inc).
Proof.
  rewrite build_pic_timing_sei_nal_shape.
  assert (H : emulation_free_from 2 [0; 0; 0; 1; 6; 1; if inc then 9 else 6]).
  { replace [0; 0; 0; 1; 6; 1; if inc then 9 else 6]
      with (fold_left epb_safe_append [6; 1; if inc then 9 else 6] [0; 0; 0; 1])
      by (destruct inc; reflexivity).
    apply epb_fold_free; [lia|exact startcode_prefix_free]. }
  set (pl := pic_timing_payload drop_frame frame seconds minutes hours inc ++ [128]).
  replace (epb_encode 0 pl)
    with (epb_encode (trailing_zeros [0; 0; 0; 1; 6; 1; if inc then 9 else 6]) pl)
    by (destruct inc; reflexivity).
  rewrite <- epb_fold_encode. apply epb_fold_free; [lia|exact H].
Qed.

(** X3.  The Picture Timing SEI NAL that the rewriter injects holds exactly
    one start code, its own, whatever the timecode: the scan of the
    rewriter finds in it a single NAL unit, of type 6, that ends at the end
    of the buffer. *)
Theorem sei_nal_is_one_unit drop_frame frame seconds minutes hours inc :
  let sei := build_pic_timing_sei_nal drop_frame frame seconds minutes hours inc in
  nal_units sei 0 = [(0, 4, size_of sei)]
  /\ map (unit_type sei) (nal_units sei 0) = [6]
  /\ find_startcode sei (size_of sei) 4 = -1.
Proof.
  cbv zeta.
  pose proof (sei_nal_free drop_frame frame seconds minutes hours inc) as Hfree.
  assert (Hu : nal_units
                 (build_pic_timing_sei_nal drop_frame frame seconds minutes hours inc) 0
               = [(0, 4, size_of (build_pic_timing_sei_nal drop_frame frame seconds
                                    minutes hours inc))]).
  { revert Hfree. rewrite build_pic_timing_sei_nal_shape. cbn [app].
    apply single_nal_units. }
  split; [exact Hu|split].
  - rewrite Hu. rewrite build_pic_timing_sei_nal_shape. reflexivity.
  - apply (emulation_free_find_startcode 2); auto. lia.
Qed.

(** ** Emulation prevention: round trip and sizes *)

(** X4.  The payload of a NAL built by [build_annexb_from_rbsp_and_header]
    with a header byte other than 0 decodes back to the RBSP it was built
    from: the NAL is the 4-byte start code, the header byte, and bytes
    that [ebsp_to_rbsp] turns into the RBSP again, whatever bytes the RBSP
    holds. *)
Theorem built_nal_payload_roundtrip rbsp header_byte :
  header_byte <> 0 ->
  let nal := build_annexb_from_rbsp_and_header rbsp header_byte in
  firstn 5 nal = [0; 0; 0; 1; header_byte]
  /\ ebsp_to_rbsp (skipn 5 nal) = rbsp.
Proof.
  intros Hh. cbv zeta. rewrite build_annexb_shape by auto.
  split; [reflexivity|].
  cbn [app skipn]. unfold ebsp_to_rbsp.
  now rewrite (ebsp_decode_encode rbsp 0 []) by lia.
Qed.

Lemma built_nal_payload_roundtrip_witness :
  let nal := build_annexb_from_rbsp_and_header [66; 0; 0; 1; 0; 0; 0; 3] 103 in
  firstn 5 nal = [0; 0; 0; 1; 103]
  /\ ebsp_to_rbsp (skipn 5 nal) = [66; 0; 0; 1; 0; 0; 0; 3].
Proof.
  apply (built_nal_payload_roundtrip [66; 0; 0; 1; 0; 0; 0; 3] 103). lia.
Defined.

(** X5.  Bytes that nowhere hold two zero bytes followed by a byte that is
    at most 3 need no emulation prevention and carry none: both
    [rbsp_to_ebsp] and [ebsp_to_rbsp] return them unchanged. *)
Theorem clean_bytes_pass_unchanged (x : list Z) :
  has_forbidden x = false -> rbsp_to_ebsp x = x /\ ebsp_to_rbsp x = x.
Proof.
  intros Hf.
  assert (He : rbsp_to_ebsp x = x).
  { unfold rbsp_to_ebsp. rewrite epb_fold_encode. cbn [app].
    apply epb_encode_clean; [cbn; lia|exact Hf]. }
  split; [exact He|].
  rewrite <- He at 1. apply ebsp_roundtrip_any.
Qed.

Lemma clean_bytes_pass_unchanged_witness :
  rbsp_to_ebsp [0; 0; 4; 0; 1; 0; 0] = [0; 0; 4; 0; 1; 0; 0]
  /\ ebsp_to_rbsp [0; 0; 4; 0; 1; 0; 0] = [0; 0; 4; 0; 1; 0; 0].
Proof. exact (clean_bytes_pass_unchanged [0; 0; 4; 0; 1; 0; 0] eq_refl). Defined.

Lemma epb_encode_size x : forall z,
  0 <= z <= 2 ->
  size_of x <= size_of (epb_encode z x) <= size_of x + (size_of x + z) / 2.
Proof.
  unfold size_of.
  induction x as [|b x IH]; intros z Hz; cbn [epb_encode].
  - cbn [length]. pose proof (Z.div_pos (0 + z) 2). lia.
  - destruct ((2 <=? z) && (b <=? 3)) eqn:Hc.
    + apply andb_prop in Hc. destruct Hc as [Hc _]. apply Z.leb_le in Hc.
      specialize (IH (if b =? 0 then 1 else 0)).
      cbn [length]. rewrite !Nat2Z.inj_succ.
      destruct (b =? 0); specialize (IH ltac:(lia));
        pose proof (Z.div_mod (Z.of_nat (length x) + 1) 2 ltac:(lia));
        pose proof (Z.mod_pos_bound (Z.of_nat (length x) + 1) 2 ltac:(lia));
        pose proof (Z.div_mod (Z.of_nat (length x) + 0) 2 ltac:(lia));
        pose proof (Z.mod_pos_bound (Z.of_nat (length x) + 0) 2 ltac:(lia));
        pose proof (Z.div_mod (Z.succ (Z.of_nat (length x)) + z) 2 ltac:(lia));
        pose proof (Z.mod_pos_bound (Z.succ (Z.of_nat (length x)) + z) 2 ltac:(lia));
        lia.
    + cbn [length]. rewrite !Nat2Z.inj_succ.
      destruct (b =? 0) eqn:Hb.
      * apply Z.eqb_eq in Hb. subst b. rewrite andb_true_r in Hc.
        apply Z.leb_gt in Hc. specialize (IH (z + 1) ltac:(lia)).
        pose proof (Z.div_mod (Z.of_nat (length x) + (z + 1)) 2 ltac:(lia));
        pose proof (Z.mod_pos_bound (Z.of_nat (length x) + (z + 1)) 2 ltac:(lia));
        pose proof (Z.div_mod (Z.succ (Z.of_nat (length x)) + z) 2 ltac:(lia));
        pose proof (Z.mod_pos_bound (Z.succ (Z.of_nat (length x)) + z) 2 ltac:(lia));
        lia.
      * specialize (IH 0 ltac:(lia)).
        pose proof (Z.div_mod (Z.of_nat (length x) + 0) 2 ltac:(lia));
        pose proof (Z.mod_pos_bound (Z.of_nat (length x) + 0) 2 ltac:(lia));
        pose proof (Z.div_mod (Z.succ (Z.of_nat (length x)) + z) 2 ltac:(lia));
        pose proof (Z.mod_pos_bound (Z.succ (Z.of_nat (length x)) + z) 2 ltac:(lia));
        lia.
Qed.

Lemma ebsp_to_rbsp_loop_size ebsp : forall rbsp zeros,
  size_of (ebsp_to_rbsp_loop ebsp rbsp zeros) <= size_of rbsp + size_of ebsp.
Proof.
  unfold size_of.
  induction ebsp as [|b e IH]; intros rbsp zeros; cbn [ebsp_to_rbsp_loop length].
  - lia.
  - destruct ((2 <=? zeros) && (b =? 3)).
    + specialize (IH rbsp 0). lia.
    + specialize (IH (rbsp ++ [b]) (if b =? 0 then (zeros + 1) mod UINT32 else 0)).
      rewrite length_app in IH. cbn [length] in IH. lia.
Qed.

(** X6.  Emulation prevention adds at most one byte for every two bytes of
    RBSP and never removes one; [ebsp_to_rbsp] never returns more bytes
    than it is given. *)
Theorem emulation_prevention_sizes (x : list Z) :
  size_of x <= size_of (rbsp_to_ebsp x) <= size_of x + size_of x / 2
  /\ size_of (ebsp_to_rbsp x) <= size_of x.
Proof.
  split.
  - unfold rbsp_to_ebsp. rewrite epb_fold_encode. cbn [app].
    change (trailing_zeros []) with 0.
    pose proof (epb_encode_size x 0 ltac:(lia)) as H.
    now rewrite Z.add_0_r in H.
  - unfold ebsp_to_rbsp.
    pose proof (ebsp_to_rbsp_loop_size x [] 0) as H.
    now change (size_of []) with 0 in H.
Qed.

(** ** Bit writer and bit reader *)

Lemma bw_put_fields_bits fields : forall bw,
  bw_wf bw -> Forall (fun f => 0 <= snd f <= 32) fields ->
  bw_wf (bw_put_fields bw fields)
  /\ bw_bits (bw_put_fields bw fields) = bw_bits bw ++ fields_bits fields.
Proof.
  induction fields as [|[v n] fs IH]; intros bw Hwf Hall; cbn [bw_put_fields fold_left].
  - split; auto. unfold fields_bits. cbn. now rewrite app_nil_r.
  - inversion Hall as [|? ? Hn Hrest]; subst. cbn [fst snd] in *.
    destruct (bw_put_bits_bits bw v n Hwf ltac:(lia)) as [Hwf1 Hb1].
    destruct (IH _ Hwf1 Hrest) as [Hwf2 Hb2].
    split; [exact Hwf2|].
    unfold bw_put_fields in Hb2. rewrite Hb2, Hb1, <- app_assoc. reflexivity.
Qed.

Lemma br_read_fields_from data fields : forall pos,
  Forall (fun f => 0 <= snd f <= 32) fields ->
  bits_from data pos (fields_bits fields) ->
  br_read_fields data (map snd fields) (mkBr pos true)
  = (map (fun f => fst f mod 2 ^ snd f) fields,
     mkBr (pos + fold_right Z.add 0 (map snd fields)) true).
Proof.
  induction fields as [|[v n] fs IH]; intros pos Hall Hbits;
    cbn [br_read_fields map fold_right fst snd].
  - unfold br_ret. now rewrite Z.add_0_r.
  - inversion Hall as [|? ? Hn Hrest]; subst. cbn [fst snd] in *.
    unfold fields_bits in Hbits. cbn [flat_map fst snd] in Hbits.
    apply bits_from_app in Hbits. destruct Hbits as [H1 H2].
    rewrite val_bits_length in H2.
    unfold br_bind. rewrite (br_read_bits_from data pos n v) by auto.
    replace (Z.of_nat (Z.to_nat n)) with n in H2 by lia.
    rewrite (IH (pos + n) Hrest H2). unfold br_ret.
    now rewrite Z.add_assoc.
Qed.

(** X7.  What the bit writer writes, the bit reader reads: after any run of
    fields written from [bw_init] with [bw_put_bits], each up to 32 bits
    wide, and [bw_flush_zero_align], reading the same widths in the same
    order with [br_read_bits] from the bytes of the writer returns the low
    [num_bits] bits of each value, without failure, and stops right after
    the last field. *)
Theorem written_fields_read_back (fields : list (Z * Z)) :
  Forall (fun f => 0 <= snd f <= 32) fields ->
  let data := bw_bytes (bw_flush_zero_align (bw_put_fields bw_init fields)) in
  br_read_fields data (map snd fields) br_start
  = (map (fun f => fst f mod 2 ^ snd f) fields,
     mkBr (fold_right Z.add 0 (map snd fields)) true).
Proof.
  intros Hall. cbv zeta.
  destruct (bw_put_fields_bits fields bw_init bw_init_wf Hall) as [Hwf Hb].
  destruct (bw_flush_zero_align_bits _ Hwf) as [Hal Hfl].
  rewrite (bw_bits_aligned _ Hal) in Hfl.
  change (bw_bits bw_init) with (@nil Z) in Hb. cbn [app] in Hb.
  rewrite Hb in Hfl.
  unfold br_start.
  rewrite (br_read_fields_from _ fields 0 Hall); [reflexivity|].
  split; [lia|]. eapply bits_at_start. exact Hfl.
Qed.

Lemma written_fields_read_back_witness :
  let fields := [(5, 3); (0, 1); (4294967295, 32); (300, 8); (1, 1)] in
  let data := bw_bytes (bw_flush_zero_align (bw_put_fields bw_init fields)) in
  br_read_fields data (map snd fields) br_start
  = (map (fun f => fst f mod 2 ^ snd f) fields,
     mkBr (fold_right Z.add 0 (map snd fields)) true).
Proof.
  apply (written_fields_read_back
           [(5, 3); (0, 1); (4294967295, 32); (300, 8); (1, 1)]).
  repeat constructor; cbn; lia.
Defined.

Lemma br_read_bits_loop_failed data n : forall val s,
  n <> O -> br_ok s = false ->
  fst (br_read_bits_loop data n val s) = 0
  /\ br_ok (snd (br_read_bits_loop data n val s)) = false.
Proof.
  destruct n as [|n]; intros val s Hn Hok; [congruence|].
  cbn [br_read_bits_loop]. unfold br_read_bit.
  destruct (size_of data * 8 <=? br_bitpos s); cbn [br_ok negb]; auto.
  rewrite Hok. cbn [negb]. auto.
Qed.

(** X8.  A failure of the bit reader is never cleared by a later read:
    once [ok] is false, [br_read_bits] of one bit or more and [br_read_ue]
    return 0 and leave [ok] false. *)
Theorem reader_failure_is_sticky data s n :
  br_ok s = false -> 0 < n ->
  fst (br_read_bits data n s) = 0
  /\ br_ok (snd (br_read_bits data n s)) = false
  /\ fst (br_read_ue data s) = 0
  /\ br_ok (snd (br_read_ue data s)) = false.
Proof.
  intros Hok Hn.
  destruct (br_read_bits_loop_failed data (Z.to_nat n) 0 s ltac:(lia) Hok)
    as [H1 H2].
  split; [exact H1|split; [exact H2|]].
  unfold br_read_ue, br_bind. cbn [br_read_ue_zeros]. unfold br_read_bit.
  destruct (size_of data * 8 <=? br_bitpos s); cbn [br_ok negb Z.eqb].
  - unfold br_ret. cbn. auto.
  - destruct (bit_at data (br_bitpos s) =? 0).
    + rewrite Hok. cbn. auto.
    + cbn. auto.
Qed.

Lemma reader_failure_is_sticky_witness :
  let s := snd (br_read_bits [255] 16 br_start) in
  fst (br_read_bits [255; 255] 4 s) = 0
  /\ br_ok (snd (br_read_bits [255; 255] 4 s)) = false
  /\ fst (br_read_ue [255; 255] s) = 0
  /\ br_ok (snd (br_read_ue [255; 255] s)) = false.
Proof.
  apply (reader_failure_is_sticky [255; 255]
           (snd (br_read_bits [255] 16 br_start)) 4); [reflexivity|lia].
Defined.

Lemma br_read_bits_loop_past_end data n : forall val s,
  n <> O -> 8 * size_of data < br_bitpos s + Z.of_nat n ->
  fst (br_read_bits_loop data n val s) = 0
  /\ br_ok (snd (br_read_bits_loop data n val s)) = false.
Proof.
  induction n as [|n IH]; intros val s Hn Hlt; [congruence|].
  cbn [br_read_bits_loop]. unfold br_read_bit.
  destruct (size_of data * 8 <=? br_bitpos s) eqn:Hend; cbn [br_ok negb]; auto.
  apply Z.leb_gt in Hend.
  destruct (br_ok s) eqn:Hok; cbn [negb]; auto.
  destruct n as [|n'].
  - lia.
  - apply IH; [congruence|]. cbn [br_bitpos]. lia.
Qed.

(** X9.  Reading past the end of the buffer fails: when fewer than [n] bits
    are left from the position of the reader, [br_read_bits] of [n] bits
    returns 0 and leaves [ok] false. *)
Theorem read_past_end_fails data s n :
  0 < n -> 8 * size_of data < br_bitpos s + n ->
  fst (br_read_bits data n s) = 0
  /\ br_ok (snd (br_read_bits data n s)) = false.
Proof.
  intros Hn Hlt. apply br_read_bits_loop_past_end; lia.
Qed.

Lemma read_past_end_fails_witness :
  fst (br_read_bits [171; 205] 9 (mkBr 8 true)) = 0
  /\ br_ok (snd (br_read_bits [171; 205] 9 (mkBr 8 true))) = false.
Proof.
  apply (read_past_end_fails [171; 205] (mkBr 8 true) 9);
    [lia|vm_compute; reflexivity].
Defined.

Lemma br_read_bit_from data pos b l ok :
  bits_from data pos (b :: l) ->
  br_read_bit data (mkBr pos ok) = (b, mkBr (pos + 1) ok)
  /\ bits_from data (pos + 1) l.
Proof.
  intros [Hpos H]. split.
  - pose proof (br_read_bit_at data (Z.to_nat pos) b l ok H) as Hr.
    now rewrite Z2Nat.id in Hr by lia.
  - split; [lia|]. apply bits_at_cons in H.
    now replace (Z.to_nat (pos + 1)) with (S (Z.to_nat pos)) by lia.
Qed.

Lemma br_read_ue_zeros_prefix data k : forall n zeros pos l,
  (k <= n)%nat -> 0 <= zeros -> zeros + Z.of_nat k <= 31 ->
  bits_from data pos (repeat 0 k ++ 1 :: l) ->
  br_read_ue_zeros data n zeros (mkBr pos true)
  = (Some (zeros + Z.of_nat k), mkBr (pos + Z.of_nat k + 1) true)
  /\ bits_from data (pos + Z.of_nat k + 1) l.
Proof.
  induction k as [|k IH]; intros n zeros pos l Hn Hz Hle Hbits;
    cbn [repeat app] in Hbits.
  - destruct (br_read_bit_from _ _ _ _ true Hbits) as [Hr Hl].
    rewrite !Z.add_0_r.
    split; [|exact Hl].
    destruct n; cbn [br_read_ue_zeros]; rewrite Hr; reflexivity.
  - destruct (br_read_bit_from _ _ _ _ true Hbits) as [Hr Hl].
    destruct n as [|n]; [lia|].
    cbn [br_read_ue_zeros]. rewrite Hr. cbn [Z.eqb br_ok negb].
    replace (31 <? zeros + 1) with false by (symmetry; apply Z.ltb_ge; lia).
    destruct (IH n (zeros + 1) (pos + 1) l ltac:(lia) ltac:(lia) ltac:(lia) Hl)
      as [H1 H2].
    replace (zeros + Z.of_nat (S k)) with (zeros + 1 + Z.of_nat k) by lia.
    replace (pos + Z.of_nat (S k) + 1) with (pos + 1 + Z.of_nat k + 1) by lia.
    split; [exact H1|exact H2].
Qed.

(** X10.  [br_read_ue] decodes the exp-Golomb code word of the standard: on
    [k] zero bits, a one bit and [k] bits that spell [info], with
    [k <= 31], it returns [2^k - 1 + info] without failure and stops right
    after the code word. *)
Theorem br_read_ue_decodes data pos k info :
  0 <= k <= 31 -> 0 <= info < 2 ^ k ->
  bits_from data pos (repeat 0 (Z.to_nat k) ++ 1 :: val_bits (Z.to_nat k) info) ->
  br_read_ue data (mkBr pos true)
  = (2 ^ k - 1 + info, mkBr (pos + 2 * k + 1) true).
Proof.
  intros Hk Hinfo Hbits.
  destruct (br_read_ue_zeros_prefix data (Z.to_nat k) 32 0 pos _
              ltac:(lia) ltac:(lia) ltac:(lia) Hbits) as [Hz Hrest].
  rewrite Z2Nat.id in Hz, Hrest by lia. rewrite Z.add_0_l in Hz.
  unfold br_read_ue, br_bind. rewrite Hz.
  destruct (k =? 0) eqn:Hk0.
  - apply Z.eqb_eq in Hk0. subst k. unfold br_ret.
    change (2 ^ 0) with 1 in *.
    replace (1 - 1 + info) with 0 by lia.
    replace (pos + 2 * 0 + 1) with (pos + 0 + 1) by lia. reflexivity.
  - apply Z.eqb_neq in Hk0.
    replace (val_bits (Z.to_nat k) info) with (val_bits (Z.to_nat k) info ++ [])
      in Hrest by apply app_nil_r.
    apply bits_from_app in Hrest. destruct Hrest as [Hrest _].
    rewrite (br_read_bits_from data (pos + k + 1) k info) by (auto; lia).
    unfold br_ret. rewrite Z.shiftl_1_l, (Z.mod_small info) by lia.
    assert (Hpow : 2 ^ k <= 2 ^ 31) by (apply Z.pow_le_mono_r; lia).
    rewrite Z.mod_small by (unfold UINT32; lia).
    f_equal. f_equal. lia.
Qed.

Lemma br_read_ue_decodes_witness :
  br_read_ue [255; 26; 0] (mkBr 8 true) = (2 ^ 3 - 1 + 5, mkBr (8 + 2 * 3 + 1) true).
Proof.
  apply (br_read_ue_decodes [255; 26; 0] 8 3 5); [lia|lia|].
  split; [lia|].
  exists (val_bits 8 255), (val_bits 1 0 ++ val_bits 8 0). split; reflexivity.
Defined.

Lemma br_read_ue_zeros_overlong data k : forall n zeros pos,
  k <> O -> 0 <= zeros -> zeros + Z.of_nat k = 32 ->
  bits_from data pos (repeat 0 k) ->
  fst (br_read_ue_zeros data n zeros (mkBr pos true)) = None
  /\ br_ok (snd (br_read_ue_zeros data n zeros (mkBr pos true))) = false.
Proof.
  induction k as [|k IH]; intros n zeros pos Hk Hz Hsum Hbits; [congruence|].
  cbn [repeat] in Hbits.
  destruct (br_read_bit_from _ _ _ _ true Hbits) as [Hr Hl].
  assert (Hstep : forall m, fst (br_read_ue_zeros data m (zeros + 1) (mkBr (pos + 1) true)) = None
                            /\ br_ok (snd (br_read_ue_zeros data m (zeros + 1)
                                             (mkBr (pos + 1) true))) = false
                  \/ k = O).
  { intros m. destruct k as [|k']; [now right|left].
    apply IH; auto; lia. }
  destruct n as [|n]; cbn [br_read_ue_zeros]; rewrite Hr; cbn [Z.eqb br_ok negb].
  - destruct (31 <? zeros + 1); cbn; auto.
  - destruct (31 <? zeros + 1) eqn:H31; cbn [fst snd br_ok]; auto.
    apply Z.ltb_ge in H31.
    destruct (Hstep n) as [H|H]; [exact H|lia].
Qed.

(** X11.  [br_read_ue] rejects a code word with more than 31 leading zero
    bits: on 32 zero bits it returns 0 and leaves [ok] false, whatever
    follows. *)
Theorem br_read_ue_rejects_32_zeros data pos :
  bits_from data pos (repeat 0 32) ->
  fst (br_read_ue data (mkBr pos true)) = 0
  /\ br_ok (snd (br_read_ue data (mkBr pos true))) = false.
Proof.
  intros Hbits.
  destruct (br_read_ue_zeros_overlong data 32 32 0 pos ltac:(lia) ltac:(lia)
              ltac:(lia) Hbits) as [H1 H2].
  unfold br_read_ue, br_bind.
  destruct (br_read_ue_zeros data 32 0 (mkBr pos true)) as [z s] eqn:E.
  cbn [fst snd] in H1, H2. subst z. unfold br_ret. cbn [fst snd]. auto.
Qed.

Lemma br_read_ue_rejects_32_zeros_witness :
  fst (br_read_ue [128; 0; 0; 0; 0; 255] (mkBr 1 true)) = 0
  /\ br_ok (snd (br_read_ue [128; 0; 0; 0; 0; 255] (mkBr 1 true))) = false.
Proof.
  apply (br_read_ue_rejects_32_zeros [128; 0; 0; 0; 0; 255] 1).
  split; [lia|].
  exists [1], (repeat 0 7 ++ val_bits 8 255). split; reflexivity.
Defined.

Lemma bw_put_rbsp_trailing_bits_exact bw :
  bw_wf bw ->
  bw_wf (bw_put_rbsp_trailing_bits bw)
  /\ bw_bits_filled (bw_put_rbsp_trailing_bits bw) = 0
  /\ bw_bits (bw_put_rbsp_trailing_bits bw)
     = bw_bits bw ++ 1 :: repeat 0 (Z.to_nat (7 - bw_bits_filled bw)).
Proof.
  intros Hwf.
  split; [now apply bw_put_rbsp_trailing_bits_wf|].
  destruct (bw_put_bit_bits bw 1 Hwf) as [Hwf1 Hb1].
  pose proof (bw_put_bit_filled bw 1 Hwf) as Hf1.
  assert (Hrange : 0 <= bw_bits_filled bw < 8) by (destruct Hwf; auto).
  unfold bw_put_rbsp_trailing_bits.
  destruct (bw_zero_pad_bits 8 (bw_put_bit bw 1) Hwf1) as [Hal2 Hb2].
  { right. destruct Hwf1 as [? _]. change (Z.of_nat 8) with 8. lia. }
  split; [exact Hal2|].
  rewrite Hb2, Hb1, Hf1, <- app_assoc. cbn [app]. change (Z.land 1 1) with 1.
  do 3 f_equal.
  assert (Hc : bw_bits_filled bw = 0 \/ bw_bits_filled bw = 1
               \/ bw_bits_filled bw = 2 \/ bw_bits_filled bw = 3
               \/ bw_bits_filled bw = 4 \/ bw_bits_filled bw = 5
               \/ bw_bits_filled bw = 6 \/ bw_bits_filled bw = 7) by lia.
  destruct Hc as [-> | [-> | [-> | [-> | [-> | [-> | [-> | ->]]]]]]]; reflexivity.
Qed.

(** X12.  Both ways of ending a run of bits leave the writer on a byte
    boundary with every bit in its bytes: [bw_flush_zero_align] adds the
    zero bits that are missing to the boundary and none when the writer is
    already aligned; [bw_put_rbsp_trailing_bits] adds a one bit and then
    the zero bits that are missing, a whole byte 0x80 when the writer is
    already aligned. *)
Theorem bit_writer_alignment bw :
  bw_wf bw ->
  let f := bw_bits_filled bw in
  bw_bits_filled (bw_flush_zero_align bw) = 0
  /\ bits_of_bytes (bw_bytes (bw_flush_zero_align bw))
     = bw_bits bw ++ repeat 0 (Z.to_nat ((8 - f) mod 8))
  /\ bw_bits_filled (bw_put_rbsp_trailing_bits bw) = 0
  /\ bits_of_bytes (bw_bytes (bw_put_rbsp_trailing_bits bw))
     = bw_bits bw ++ 1 :: repeat 0 (Z.to_nat (7 - f)).
Proof.
  intros Hwf. cbv zeta.
  destruct (bw_flush_zero_align_bits bw Hwf) as [Hal Hfl].
  rewrite (bw_bits_aligned _ Hal) in Hfl.
  destruct (bw_put_rbsp_trailing_bits_exact bw Hwf) as (_ & Hal2 & Hb2).
  rewrite (bw_bits_aligned _ Hal2) in Hb2.
  auto.
Qed.

Lemma bit_writer_alignment_witness :
  let bw := bw_put_bits bw_init 5 3 in
  bw_bits_filled (bw_flush_zero_align bw) = 0
  /\ bits_of_bytes (bw_bytes (bw_flush_zero_align bw))
     = bw_bits bw ++ repeat 0 (Z.to_nat ((8 - bw_bits_filled bw) mod 8))
  /\ bw_bits_filled (bw_put_rbsp_trailing_bits bw) = 0
  /\ bits_of_bytes (bw_bytes (bw_put_rbsp_trailing_bits bw))
     = bw_bits bw ++ 1 :: repeat 0 (Z.to_nat (7 - bw_bits_filled bw)).
Proof.
  apply (bit_writer_alignment (bw_put_bits bw_init 5 3)).
  split; [split; [vm_compute; discriminate|vm_compute; reflexivity]
         |vm_compute; constructor].
Defined.

(** ** The flag patcher *)

Lemma br_local_hrd_parameters : br_local hrd_parameters.
Proof. unfold hrd_parameters. br_local_solve. Qed.

Lemma br_local_vui_walk_to_pic_struct : br_local vui_walk_to_pic_struct.
Proof.
  pose proof br_local_hrd_parameters as Hhrd.
  unfold vui_walk_to_pic_struct.
  repeat first
    [ apply br_local_ret
    | apply br_local_read_bits
    | apply br_local_read_ue
    | apply br_local_when
    | apply br_local_if
    | assumption
    | match goal with
      | |- br_local (fun _ => match ?x with _ => _ end) => destruct x
      end
    | (apply br_local_bind; [|intros ?]) ].
Qed.

Lemma set_nth_length l : forall n v, length (set_nth l n v) = length l.
Proof.
  induction l as [|x l IH]; intros [|n] v; cbn [set_nth length]; auto.
Qed.

Lemma set_nth_nth l : forall n v k,
  (n < length l)%nat ->
  nth k (set_nth l n v) 0 = if (k =? n)%nat then v else nth k l 0.
Proof.
  induction l as [|x l IH]; intros [|n] v [|k] Hn; cbn [set_nth nth length] in *;
    try lia; auto.
  rewrite IH by lia. reflexivity.
Qed.

Lemma byte_at_set_nth l n v j :
  (n < length l)%nat ->
  byte_at (set_nth l n v) j = if j =? Z.of_nat n then v else byte_at l j.
Proof.
  intros Hn. unfold byte_at.
  destruct (j <? 0) eqn:Hj.
  - apply Z.ltb_lt in Hj.
    now replace (j =? Z.of_nat n) with false by (symmetry; apply Z.eqb_neq; lia).
  - apply Z.ltb_ge in Hj. rewrite set_nth_nth by auto.
    destruct (Nat.eqb_spec (Z.to_nat j) n) as [He|Hne].
    + now replace (j =? Z.of_nat n) with true by (symmetry; apply Z.eqb_eq; lia).
    + now replace (j =? Z.of_nat n) with false by (symmetry; apply Z.eqb_neq; lia).
Qed.

Lemma testbit_one n : Z.testbit 1 n = (n =? 0).
Proof. destruct n as [|p|p]; try reflexivity; destruct p; reflexivity. Qed.

Lemma land_shiftr_testbit v m :
  0 <= m -> Z.land (Z.shiftr v m) 1 = Z.b2z (Z.testbit v m).
Proof.
  intros Hm. pose proof (bit_of_testbit v (Z.to_nat m)) as H.
  unfold bit_of in H. now rewrite Z2Nat.id in H by lia.
Qed.

Lemma shiftr3_land7 i : i = 8 * Z.shiftr i 3 + Z.land i 7 /\ 0 <= Z.land i 7 < 8.
Proof.
  rewrite Z.shiftr_div_pow2 by lia. change 7 with (Z.ones 3).
  rewrite Z.land_ones by lia. change (2 ^ 3) with 8.
  split; [apply Z.div_mod; lia|apply Z.mod_pos_bound; lia].
Qed.

(** The store [data[bitpos >> 3] |= 1 << (7 - (bitpos & 7))] sets the bit
    at bit index [bitpos] and leaves every other bit as it was. *)
Lemma set_bit_bit_at rbsp bitpos i :
  0 <= bitpos < 8 * size_of rbsp ->
  bit_at (set_nth rbsp (Z.to_nat (Z.shiftr bitpos 3))
            (Z.lor (byte_at rbsp (Z.shiftr bitpos 3))
               (Z.shiftl 1 (7 - Z.land bitpos 7)) mod 256)) i
  = if i =? bitpos then 1 else bit_at rbsp i.
Proof.
  intros Hb. unfold bit_at.
  destruct (shiftr3_land7 bitpos) as [Hbq Hbr].
  destruct (shiftr3_land7 i) as [Hiq Hir].
  assert (Hidx : (Z.to_nat (Z.shiftr bitpos 3) < length rbsp)%nat)
    by (unfold size_of in Hb; lia).
  rewrite byte_at_set_nth by exact Hidx.
  rewrite Z2Nat.id by lia.
  destruct (Z.eqb_spec (Z.shiftr i 3) (Z.shiftr bitpos 3)) as [He|Hne].
  - rewrite !land_shiftr_testbit by lia. rewrite He.
    change 256 with (2 ^ 8). rewrite Z.mod_pow2_bits_low by lia.
    rewrite Z.lor_spec, Z.shiftl_spec, testbit_one by lia.
    destruct (Z.eqb_spec i bitpos) as [Hi|Hi].
    + subst i.
      replace (7 - Z.land bitpos 7 - (7 - Z.land bitpos 7) =? 0) with true
        by (symmetry; apply Z.eqb_eq; lia).
      now rewrite orb_true_r.
    + replace (7 - Z.land i 7 - (7 - Z.land bitpos 7) =? 0) with false
        by (symmetry; apply Z.eqb_neq; lia).
      now rewrite orb_false_r.
  - replace (i =? bitpos) with false by (symmetry; apply Z.eqb_neq; congruence).
    reflexivity.
Qed.

Lemma br_read_one_bit data p :
  0 <= p < 8 * size_of data ->
  br_read_bits data 1 (mkBr p true) = (bit_at data p, mkBr (p + 1) true).
Proof.
  intros Hp. unfold br_read_bits. change (Z.to_nat 1) with 1%nat.
  cbn [br_read_bits_loop]. unfold br_read_bit. cbn [br_bitpos br_ok].
  replace (size_of data * 8 <=? p) with false by (symmetry; apply Z.leb_gt; lia).
  cbn [negb br_ok br_read_bits_loop]. unfold br_ret.
  change (Z.shiftl 0 1 mod UINT32) with 0. now rewrite Z.lor_0_l.
Qed.

(** What the flag patcher computes before it builds the NAL: the walks
    succeed, the VUI is present, and [bitpos] is where the walk of the VUI
    stops. *)
Lemma flag_patch_inv ebsp header_byte annexb :
  patch_sps_pic_struct_flag_to_one ebsp header_byte = Some annexb ->
  let rbsp := ebsp_to_rbsp ebsp in
  exists flag p1 h bitpos,
    (sps_walk_to_vui rbsp (skip_scaling_list_fixed rbsp) (byte_at rbsp 0) ;;;
     br_read_bits rbsp 1) br_start = (flag, mkBr p1 true)
    /\ flag <> 0
    /\ vui_walk_to_pic_struct rbsp (mkBr p1 true) = (h, mkBr bitpos true)
    /\ 9 <= p1 <= bitpos
    /\ annexb
       = build_annexb_from_rbsp_and_header
           (set_nth rbsp (Z.to_nat (Z.shiftr bitpos 3))
              (Z.lor (byte_at rbsp (Z.shiftr bitpos 3))
                 (Z.shiftl 1 (7 - Z.land bitpos 7)) mod 256)) header_byte.
Proof.
  intros H. cbv zeta. unfold patch_sps_pic_struct_flag_to_one in H.
  set (rbsp := ebsp_to_rbsp ebsp) in *.
  destruct ((sps_walk_to_vui rbsp (skip_scaling_list_fixed rbsp) (byte_at rbsp 0) ;;;
             br_read_bits rbsp 1) br_start) as [flag [p1 ok1]] eqn:Hwalk.
  cbn [br_ok] in H.
  destruct ok1; cbn [negb orb] in H; [|discriminate].
  destruct (flag =? 0) eqn:Hflag; [discriminate|].
  destruct (vui_walk_to_pic_struct rbsp (mkBr p1 true)) as [h [bitpos ok2]] eqn:Hvui.
  cbn [br_ok br_bitpos] in H.
  destruct ok2; cbn [negb] in H; [|discriminate].
  exists flag, p1, h, bitpos.
  split; [reflexivity|]. split; [now apply Z.eqb_neq|]. split; [exact Hvui|].
  split; [|now inversion H].
  unfold br_bind in Hwalk.
  destruct (sps_walk_to_vui rbsp (skip_scaling_list_fixed rbsp) (byte_at rbsp 0)
              br_start) as [[] s0] eqn:Hw0.
  destruct (br_read_bits_ok rbsp 1 s0 _ _ Hwalk eq_refl) as (Hp1 & _ & Hok0);
    [lia|].
  destruct s0 as [p0 ok0]. cbn [br_bitpos br_ok] in *. subst ok0.
  destruct (sps_walk_to_vui_ok rbsp skip_scaling_list_fixed _ _ _ _
              br_local_skip_scaling_list_fixed Hw0 eq_refl) as [Hp8 _].
  cbn [br_bitpos br_start] in Hp8.
  destruct (proj1 br_local_vui_walk_to_pic_struct rbsp _ _ _ Hvui) as [Hmono _].
  cbn [br_bitpos] in Hmono. lia.
Qed.

(** X14.  The flag patcher changes one bit at most: the RBSP inside the NAL
    that [patch_sps_pic_struct_flag_to_one] returns has the length of the
    RBSP it was given, and there is a bit index such that every bit at
    another index is the same in both and the bit at that index, when it
    is inside the RBSP, is 1 in the output. *)
Theorem flag_patch_sets_one_bit ebsp header_byte annexb :
  header_byte <> 0 ->
  patch_sps_pic_struct_flag_to_one ebsp header_byte = Some annexb ->
  let rbsp := ebsp_to_rbsp ebsp in
  let patched := ebsp_to_rbsp (skipn 5 annexb) in
  length patched = length rbsp
  /\ exists bitpos, forall i,
       bit_at patched i
       = if (i =? bitpos) && (bitpos <? 8 * size_of rbsp) then 1
         else bit_at rbsp i.
Proof.
  intros Hhdr H. cbv zeta.
  destruct (flag_patch_inv _ _ _ H) as (flag & p1 & h & bitpos & _ & _ & _ & Hp & ->).
  set (rbsp := ebsp_to_rbsp ebsp) in *.
  rewrite build_annexb_shape by auto. cbn [app skipn].
  assert (Hdec : forall x, ebsp_to_rbsp (epb_encode 0 x) = x).
  { intros x. unfold ebsp_to_rbsp. now rewrite (ebsp_decode_encode x 0 []) by lia. }
  rewrite !Hdec.
  split; [apply set_nth_length|].
  exists bitpos. intros i.
  destruct (bitpos <? 8 * size_of rbsp) eqn:Hin.
  - apply Z.ltb_lt in Hin. rewrite andb_true_r.
    apply set_bit_bit_at. lia.
  - apply Z.ltb_ge in Hin. rewrite andb_false_r.
    replace (set_nth rbsp (Z.to_nat (Z.shiftr bitpos 3))
               (Z.lor (byte_at rbsp (Z.shiftr bitpos 3))
                  (Z.shiftl 1 (7 - Z.land bitpos 7)) mod 256)) with rbsp;
      [reflexivity|].
    destruct (shiftr3_land7 bitpos) as [Hq Hr].
    assert (Hidx : (length rbsp <= Z.to_nat (Z.shiftr bitpos 3))%nat)
      by (unfold size_of in Hin; lia).
    generalize (Z.lor (byte_at rbsp (Z.shiftr bitpos 3))
                  (Z.shiftl 1 (7 - Z.land bitpos 7)) mod 256).
    revert Hidx. generalize (Z.to_nat (Z.shiftr bitpos 3)).
    clear. induction rbsp as [|x l IH]; intros [|n] Hn v; cbn [set_nth length] in *;
      auto; try lia.
    f_equal. apply IH. lia.
Qed.

Lemma flag_patch_sets_one_bit_witness :
  let annexb := [0; 0; 0; 1; 103; 100; 0; 31; 172; 217; 64; 80; 5; 187; 1; 16;
                 0; 0; 3; 0; 16; 0; 0; 3; 3; 33; 241; 131; 25; 96] in
  let rbsp := ebsp_to_rbsp sample_sps in
  let patched := ebsp_to_rbsp (skipn 5 annexb) in
  length patched = length rbsp
  /\ exists bitpos, forall i,
       bit_at patched i
       = if (i =? bitpos) && (bitpos <? 8 * size_of rbsp) then 1
         else bit_at rbsp i.
Proof.
  apply (flag_patch_sets_one_bit sample_sps 103); [lia|vm_compute; reflexivity].
Defined.

(** The parser on an RBSP on which the walks up to
    [pic_struct_present_flag] are known. *)
Lemma parse_through d flag p1 h bitpos ps s3 :
  (sps_walk_to_vui d (skip_scaling_list_delta d) (byte_at d 0) ;;;
   br_read_bits d 1) br_start = (flag, mkBr p1 true) ->
  flag <> 0 ->
  vui_walk_to_pic_struct d (mkBr p1 true) = (h, mkBr bitpos true) ->
  br_read_bits d 1 (mkBr bitpos true) = (ps, s3) ->
  parse_sps_vui_info_from_rbsp d
  = (br_ok s3,
     let hrd := negb (vh_nal_hrd_parameters_present_flag h =? 0)
                || negb (vh_vcl_hrd_parameters_present_flag h =? 0) in
     let timing := negb (vh_timing_info_present_flag h =? 0) in
     mkSpsVuiInfo true (negb (ps =? 0)) hrd
       ((vh_cpb_removal_delay_length_minus1 h + 1) mod UINT32)
       ((vh_dpb_output_delay_length_minus1 h + 1) mod UINT32)
       (if hrd then vh_time_offset_length h else 0)
       timing
       (if timing then vh_num_units_in_tick h else 0)
       (if timing then vh_time_scale h else 0)
       (if timing then negb (vh_fixed_frame_rate_flag h =? 0) else false)).
Proof.
  intros Hwalk Hflag Hvui Hps. unfold parse_sps_vui_info_from_rbsp.
  rewrite Hwalk. cbv beta iota.
  replace (flag =? 0) with false by (symmetry; now apply Z.eqb_neq).
  cbn [br_ok negb orb]. rewrite Hvui. cbv beta iota. rewrite Hps. reflexivity.
Qed.

(** X13.  Patching an SPS with [patch_sps_pic_struct_flag_to_one] and
    parsing the result gives what parsing the original gives, with
    [pic_struct_present_flag] set: for an SPS NAL that the parser reads
    without failure and whose scaling lists, if it has any, are read alike
    by the patcher and by the parser, every other field of the parsed VUI
    is kept. *)
Theorem flag_patch_roundtrip ebsp header_byte annexb :
  let rbsp := ebsp_to_rbsp ebsp in
  let info := snd (parse_sps_vui_info_from_rbsp rbsp) in
  Z.land header_byte 31 = 7 ->
  sps_walk_to_vui rbsp (skip_scaling_list_delta rbsp) (byte_at rbsp 0) br_start
  = sps_walk_to_vui rbsp (skip_scaling_list_fixed rbsp) (byte_at rbsp 0) br_start ->
  fst (parse_sps_vui_info_from_rbsp rbsp) = true ->
  patch_sps_pic_struct_flag_to_one ebsp header_byte = Some annexb ->
  sps_vui_of_annexb annexb
  = Some (mkSpsVuiInfo (vui_present info) true (cpb_dpb_delays_present_flag info)
            (cpb_removal_delay_length info) (dpb_output_delay_length info)
            (time_offset_length info) (timing_info_present_flag info)
            (num_units_in_tick info) (time_scale info)
            (fixed_frame_rate_flag info)).
Proof.
  cbv zeta. intros Hhdr Hsame Hok Hpatch.
  assert (Hhdr0 : header_byte <> 0) by (intros ->; discriminate).
  destruct (flag_patch_inv _ _ _ Hpatch)
    as (flag & p1 & h & bitpos & Hwalk & Hflag & Hvui & Hp & ->).
  set (rbsp := ebsp_to_rbsp ebsp) in *.
  (* the parser on the original *)
  assert (Hwalkd : (sps_walk_to_vui rbsp (skip_scaling_list_delta rbsp)
                      (byte_at rbsp 0) ;;; br_read_bits rbsp 1) br_start
                   = (flag, mkBr p1 true)).
  { unfold br_bind in *. now rewrite Hsame. }
  destruct (br_read_bits rbsp 1 (mkBr bitpos true)) as [ps s3] eqn:Hps.
  rewrite (parse_through rbsp flag p1 h bitpos ps s3 Hwalkd Hflag Hvui Hps) in *.
  cbn [fst snd] in *.
  destruct (br_read_bits_ok rbsp 1 _ _ _ Hps Hok) as (Hp3 & Hend & _); [lia|].
  cbn [br_bitpos] in Hp3.
  (* the patched RBSP *)
  set (rbsp' := set_nth rbsp (Z.to_nat (Z.shiftr bitpos 3))
                  (Z.lor (byte_at rbsp (Z.shiftr bitpos 3))
                     (Z.shiftl 1 (7 - Z.land bitpos 7)) mod 256)).
  assert (Hbits : forall i, bit_at rbsp' i = if i =? bitpos then 1 else bit_at rbsp i).
  { intros i. apply set_bit_bit_at. lia. }
  assert (Hsize : size_of rbsp' = size_of rbsp).
  { unfold size_of, rbsp'. now rewrite set_nth_length. }
  assert (Hagree : agree_upto rbsp rbsp' bitpos).
  { split; [lia|]. intros i Hi. rewrite Hbits.
    now replace (i =? bitpos) with false by (symmetry; apply Z.eqb_neq; lia). }
  assert (Hprofile : byte_at rbsp' 0 = byte_at rbsp 0).
  { destruct (shiftr3_land7 bitpos) as [Hq Hr].
    unfold rbsp'. rewrite byte_at_set_nth by (unfold size_of in *; lia).
    now replace (0 =? Z.of_nat (Z.to_nat (Z.shiftr bitpos 3))) with false
      by (symmetry; apply Z.eqb_neq; lia). }
  assert (Hlocal : br_local (fun d => sps_walk_to_vui d (skip_scaling_list_delta d)
                                        (byte_at rbsp 0) ;;; br_read_bits d 1)).
  { apply (br_local_bind
             (fun d => sps_walk_to_vui d (skip_scaling_list_delta d) (byte_at rbsp 0))
             (fun _ d => br_read_bits d 1)).
    - apply br_local_sps_walk_to_vui. apply br_local_skip_scaling_list_delta.
    - intros _. apply br_local_read_bits. }
  assert (Hwalk' : (sps_walk_to_vui rbsp' (skip_scaling_list_delta rbsp')
                      (byte_at rbsp' 0) ;;; br_read_bits rbsp' 1) br_start
                   = (flag, mkBr p1 true)).
  { rewrite Hprofile.
    apply (proj2 Hlocal rbsp rbsp'); [cbn; lia|exact Hwalkd|].
    apply (agree_upto_le _ _ bitpos); [exact Hagree|lia]. }
  assert (Hvui' : vui_walk_to_pic_struct rbsp' (mkBr p1 true)
                  = (h, mkBr bitpos true)).
  { apply (proj2 br_local_vui_walk_to_pic_struct rbsp rbsp');
      [cbn; lia|exact Hvui|exact Hagree]. }
  assert (Hps' : br_read_bits rbsp' 1 (mkBr bitpos true)
                 = (1, mkBr (bitpos + 1) true)).
  { rewrite br_read_one_bit by lia. rewrite Hbits, Z.eqb_refl. reflexivity. }
  rewrite build_annexb_shape by exact Hhdr0.
  rewrite sps_vui_of_annexb_shape.
  2:{ intros Hnil. rewrite Hnil in Hsize. change (size_of []) with 0 in Hsize. lia. }
  rewrite (parse_through rbsp' flag p1 h bitpos 1 _ Hwalk' Hflag Hvui' Hps').
  reflexivity.
Qed.

Lemma flag_patch_roundtrip_witness :
  sps_vui_of_annexb
    [0; 0; 0; 1; 103; 100; 0; 31; 172; 217; 64; 80; 5; 187; 1; 16;
     0; 0; 3; 0; 16; 0; 0; 3; 3; 33; 241; 131; 25; 96]
  = Some (mkSpsVuiInfo true true false 24 24 0 true 1 50 false).
Proof.
  apply (flag_patch_roundtrip sample_sps 103); vm_compute; reflexivity.
Defined.

(** ** The timing patcher *)

Lemma write_timing_vui_bits_exact bw fps_n fps_d :
  bw_wf bw ->
  bw_bits_filled (write_timing_vui bw fps_n fps_d) = 0
  /\ exists k, (k < 8)%nat /\
       bw_bits (write_timing_vui bw fps_n fps_d)
       = bw_bits bw ++ timing_vui_bits fps_n fps_d ++ 1 :: repeat 0 k.
Proof.
  intros W0. unfold write_timing_vui, timing_vui_bits.
  remember (bw_bits bw) as base eqn:B0. symmetry in B0.
  cbv zeta. repeat bw_step.
  match goal with W : bw_wf ?b, B : bw_bits ?b = _ |- _ =>
    destruct (bw_put_rbsp_trailing_bits_exact b W) as (_ & H0 & Hk);
    assert (Hf : 0 <= bw_bits_filled b < 8) by (destruct W; auto);
    rewrite B in Hk;
    split; [exact H0|];
    exists (Z.to_nat (7 - bw_bits_filled b)); split; [lia|]
  end.
  rewrite Hk. change (Z.land 1 1) with 1.
  change (Z.to_nat 1) with 1%nat. change (Z.to_nat 32) with 32%nat.
  rewrite <- !app_assoc. reflexivity.
Qed.

Lemma some_eq {A} (a b : A) : Some a = Some b -> a = b.
Proof. intros H. now inversion H. Qed.

(** What the timing patcher computes before it builds the NAL. *)
Lemma timing_patch_inv ebsp header_byte fps_n fps_d :
  fps_n <> 0 -> fps_d <> 0 ->
  let rbsp := ebsp_to_rbsp ebsp in
  let walk := (sps_walk_to_vui rbsp (skip_scaling_list_fixed rbsp) (byte_at rbsp 0) ;;;
               br_read_bits rbsp 1) br_start in
  let p := br_bitpos (snd (sps_walk_to_vui rbsp (skip_scaling_list_fixed rbsp)
                             (byte_at rbsp 0) br_start)) in
  (br_ok (snd walk) = false
   /\ patch_sps_pic_struct_and_timing ebsp header_byte fps_n fps_d = None)
  \/ (br_ok (snd walk) = true /\ 8 <= p < 8 * size_of rbsp
      /\ exists bw,
           copy_bits rbsp (Z.to_nat p) br_start bw_init = Some bw
           /\ bw_wf bw
           /\ bw_bits bw = firstn (Z.to_nat p) (bits_of_bytes rbsp)
           /\ patch_sps_pic_struct_and_timing ebsp header_byte fps_n fps_d
              = Some (build_annexb_from_rbsp_and_header
                        (bw_bytes (write_timing_vui bw fps_n fps_d)) header_byte)).
Proof.
  intros Hn Hd. cbv zeta. unfold patch_sps_pic_struct_and_timing.
  replace ((fps_n =? 0) || (fps_d =? 0)) with false
    by (symmetry; apply orb_false_iff; split; now apply Z.eqb_neq).
  set (rbsp := ebsp_to_rbsp ebsp). unfold br_bind.
  destruct (sps_walk_to_vui rbsp (skip_scaling_list_fixed rbsp) (byte_at rbsp 0)
              br_start) as [[] s1] eqn:Hwalk.
  cbn [snd]. destruct (br_read_bits rbsp 1 s1) as [flag s2] eqn:Hflag.
  cbn [snd]. destruct (br_ok s2) eqn:Hok; cbn [negb]; [right|left; auto].
  destruct (br_read_bits_ok rbsp 1 s1 flag s2 Hflag Hok) as (Hp2 & Hend & Hok1);
    [lia|].
  destruct s1 as [p ok1]. cbn [br_bitpos br_ok] in *. subst ok1.
  destruct (sps_walk_to_vui_ok rbsp skip_scaling_list_fixed _ _ _ _
              br_local_skip_scaling_list_fixed Hwalk eq_refl) as [Hp8 _].
  cbn [br_bitpos br_start] in Hp8.
  split; [reflexivity|]. split; [lia|].
  destruct (copy_bits_bits rbsp (Z.to_nat p) 0 bw_init bw_init_wf)
    as (bw & Hc & Hw & Hb); [unfold size_of in *; lia|].
  exists bw. change (mkBr (Z.of_nat 0) true) with br_start in Hc.
  split; [exact Hc|]. split; [exact Hw|]. split; [exact Hb|].
  now rewrite Hc.
Qed.

(** X15.  With a frame rate ([fps_n] and [fps_d] not 0),
    [patch_sps_pic_struct_and_timing] returns NULL exactly when the bit
    reader fails before the end of [vui_parameters_present_flag]: an SPS
    that declares no VUI is patched all the same. *)
Theorem timing_patch_fails_only_on_walk ebsp header_byte fps_n fps_d :
  fps_n <> 0 -> fps_d <> 0 ->
  let rbsp := ebsp_to_rbsp ebsp in
  patch_sps_pic_struct_and_timing ebsp header_byte fps_n fps_d = None
  <-> br_ok (snd ((sps_walk_to_vui rbsp (skip_scaling_list_fixed rbsp)
                     (byte_at rbsp 0) ;;; br_read_bits rbsp 1) br_start)) = false.
Proof.
  intros Hn Hd. cbv zeta.
  destruct (timing_patch_inv ebsp header_byte fps_n fps_d Hn Hd)
    as [[Hok Hnone]|(Hok & _ & bw & _ & _ & _ & Hsome)].
  - split; auto.
  - rewrite Hsome, Hok. split; discriminate.
Qed.

Lemma timing_patch_fails_only_on_walk_witness :
  let rbsp := ebsp_to_rbsp [66; 0; 30] in
  patch_sps_pic_struct_and_timing [66; 0; 30] 103 25 1 = None
  <-> br_ok (snd ((sps_walk_to_vui rbsp (skip_scaling_list_fixed rbsp)
                     (byte_at rbsp 0) ;;; br_read_bits rbsp 1) br_start)) = false.
Proof.
  apply (timing_patch_fails_only_on_walk [66; 0; 30] 103 25 1); lia.
Defined.

(** X16.  What [patch_sps_pic_struct_and_timing] builds, bit by bit: the
    RBSP inside the NAL it returns is the given RBSP up to the bit before
    [vui_parameters_present_flag], then the flag set and a VUI that holds
    the timing ([num_units_in_tick = fps_d], [time_scale = 2 * fps_n]) and
    [pic_struct_present_flag = 1], then a one bit and fewer than 8 zero
    bits to the byte boundary.  Whatever followed in the SPS it was given,
    its VUI if it had one, is not kept. *)
Theorem timing_patch_content ebsp header_byte fps_n fps_d annexb :
  header_byte <> 0 -> fps_n <> 0 -> fps_d <> 0 ->
  patch_sps_pic_struct_and_timing ebsp header_byte fps_n fps_d = Some annexb ->
  let rbsp := ebsp_to_rbsp ebsp in
  let p := br_bitpos (snd (sps_walk_to_vui rbsp (skip_scaling_list_fixed rbsp)
                             (byte_at rbsp 0) br_start)) in
  exists k, (k < 8)%nat /\
    bits_of_bytes (ebsp_to_rbsp (skipn 5 annexb))
    = firstn (Z.to_nat p) (bits_of_bytes rbsp)
      ++ timing_vui_bits fps_n fps_d ++ 1 :: repeat 0 k.
Proof.
  intros Hhdr Hn Hd Hpatch. cbv zeta.
  destruct (timing_patch_inv ebsp header_byte fps_n fps_d Hn Hd)
    as [[_ Hnone]|(_ & _ & bw & _ & Hw & Hb & Hsome)]; [congruence|].
  rewrite Hsome in Hpatch. apply some_eq in Hpatch. rewrite <- Hpatch.
  clear Hpatch Hsome.
  rewrite build_annexb_shape by exact Hhdr. cbn [app skipn].
  unfold ebsp_to_rbsp at 1. rewrite (ebsp_decode_encode _ 0 []) by lia.
  cbn [app].
  destruct (write_timing_vui_bits_exact bw fps_n fps_d Hw) as (H0 & k & Hk & Hbits).
  exists k. split; [exact Hk|].
  now rewrite <- (bw_bits_aligned _ H0), Hbits, Hb.
Qed.

Lemma timing_patch_content_witness :
  let annexb := [0; 0; 0; 1; 103; 100; 0; 31; 172; 217; 64; 80; 5; 186; 16; 0;
                 0; 62; 144; 0; 14; 166; 9; 64] in
  let rbsp := ebsp_to_rbsp sample_sps in
  let p := br_bitpos (snd (sps_walk_to_vui rbsp (skip_scaling_list_fixed rbsp)
                             (byte_at rbsp 0) br_start)) in
  exists k, (k < 8)%nat /\
    bits_of_bytes (ebsp_to_rbsp (skipn 5 annexb))
    = firstn (Z.to_nat p) (bits_of_bytes rbsp)
      ++ timing_vui_bits 30000 1001 ++ 1 :: repeat 0 k.
Proof.
  apply (timing_patch_content sample_sps 103 30000 1001);
    [lia|lia|lia|vm_compute; reflexivity].
Defined.

(** ** The SPS of an access unit *)

(** X17.  An access unit that is one SPS NAL built by
    [build_annexb_from_rbsp_and_header] from an RBSP that is not empty
    gives [extract_sps_vui_from_au] what the RBSP gives the parser: the
    start code is found, the payload is taken to the end of the buffer and
    freed of its emulation prevention bytes, and the result and the VUI
    are those of [parse_sps_vui_info_from_rbsp] on the RBSP itself.  (With
    an empty RBSP the NAL is a header byte alone and the parser would read
    [rbsp[0]] outside its array.) *)
Theorem extract_from_built_sps rbsp header_byte :
  Z.land header_byte 31 = 7 ->
  rbsp <> [] ->
  extract_sps_vui_from_au (build_annexb_from_rbsp_and_header rbsp header_byte)
  = parse_sps_vui_info_from_rbsp rbsp.
Proof.
  intros Hhdr _.
  assert (Hhdr0 : header_byte <> 0) by (intros ->; discriminate).
  pose proof (build_annexb_free rbsp header_byte) as Hfree.
  rewrite build_annexb_shape in * by exact Hhdr0.
  set (body := epb_encode 0 rbsp) in *.
  destruct (find_startcode_4byte header_byte body) as [Hfind Hlen].
  cbv zeta in Hfind, Hlen.
  change ([0; 0; 0; 1; header_byte] ++ body)
    with (0 :: 0 :: 0 :: 1 :: header_byte :: body) in *.
  set (nal := 0 :: 0 :: 0 :: 1 :: header_byte :: body) in *.
  assert (Hsize : size_of nal = 5 + size_of body)
    by (unfold nal, size_of; cbn [length]; lia).
  pose proof (size_of_nonneg body) as Hbody.
  unfold extract_sps_vui_from_au.
  destruct (Z.to_nat (size_of nal)) as [|n] eqn:Hn; [lia|].
  cbn [extract_sps_vui_loop].
  replace (0 + 4 <? size_of nal) with true by (symmetry; apply Z.ltb_lt; lia).
  rewrite Hfind, Hlen. change (0 <? 0) with false. cbv iota.
  change (0 + 4) with 4.
  replace (size_of nal <=? 4) with false by (symmetry; apply Z.leb_gt; lia).
  rewrite (emulation_free_find_startcode 2) by (auto; lia).
  change (-1 <? 0) with true. cbv iota.
  change (byte_at nal 4) with header_byte. rewrite Hhdr.
  change (7 =? 7) with true. cbv iota.
  change (4 + 1) with (size_of [0; 0; 0; 1; header_byte]).
  change nal with ([0; 0; 0; 1; header_byte] ++ body).
  rewrite slice_tail. unfold body.
  replace (ebsp_to_rbsp (epb_encode 0 rbsp)) with rbsp
    by (symmetry; apply (ebsp_decode_encode rbsp 0 []); lia).
  reflexivity.
Qed.

Lemma extract_from_built_sps_witness :
  extract_sps_vui_from_au
    (build_annexb_from_rbsp_and_header (ebsp_to_rbsp sample_sps) 103)
  = parse_sps_vui_info_from_rbsp (ebsp_to_rbsp sample_sps).
Proof.
  apply (extract_from_built_sps (ebsp_to_rbsp sample_sps) 103);
    [reflexivity|vm_compute; discriminate].
Defined.

(** ** The timecode taken from the PTS *)

Lemma update_est_fps_fields scfg pts :
  let scfg' := update_est_fps scfg pts in
  inject_sei scfg' = inject_sei scfg /\ fps_n scfg' = fps_n scfg
  /\ fps_d scfg' = fps_d scfg /\ prefer_pts scfg' = prefer_pts scfg
  /\ verbose scfg' = verbose scfg
  /\ (est_fps scfg = 0 \/ 12 <= est_fps scfg <= 120 ->
      est_fps scfg' = 0 \/ 12 <= est_fps scfg' <= 120).
Proof.
  cbv zeta. unfold update_est_fps.
  destruct (negb (last_pts_ns scfg =? 0)); [|tauto].
  destruct (0 <? (pts - last_pts_ns scfg) mod UINT64); [|tauto].
  destruct ((12 <=? (GST_SECOND / ((pts - last_pts_ns scfg) mod UINT64)) mod UINT32)
            && ((GST_SECOND / ((pts - last_pts_ns scfg) mod UINT64)) mod UINT32
                <=? 120)) eqn:Hc; [|tauto].
  cbn [set_est_fps inject_sei fps_n fps_d prefer_pts verbose est_fps].
  apply andb_prop in Hc. destruct Hc as [H1 H2].
  apply Z.leb_le in H1, H2. repeat split; auto.
Qed.

Lemma timecode_from_pts_fields scfg pts :
  let scfg' := snd (timecode_from_pts scfg pts) in
  inject_sei scfg' = inject_sei scfg /\ fps_n scfg' = fps_n scfg
  /\ fps_d scfg' = fps_d scfg /\ prefer_pts scfg' = prefer_pts scfg
  /\ verbose scfg' = verbose scfg
  /\ (est_fps scfg = 0 \/ 12 <= est_fps scfg <= 120 ->
      est_fps scfg' = 0 \/ 12 <= est_fps scfg' <= 120).
Proof.
  cbv zeta. unfold timecode_from_pts.
  destruct ((0 <? fps_n scfg) && (0 <? fps_d scfg)); cbn [snd]; [tauto|].
  cbn [set_last_pts_ns inject_sei fps_n fps_d prefer_pts verbose est_fps].
  apply update_est_fps_fields.
Qed.

Lemma div_lt_of_mul_lt a b c : 0 <= a -> 0 < b -> a < b * c -> a / b < c.
Proof. intros Ha Hb H. apply Z.div_lt_upper_bound; auto. Qed.

Lemma timecode_from_pts_range scfg pts :
  0 <= fps_n scfg < UINT32 -> 0 <= fps_d scfg < UINT32 ->
  est_fps scfg = 0 \/ 12 <= est_fps scfg <= 120 ->
  let tc := fst (timecode_from_pts scfg pts) in
  let scfg' := snd (timecode_from_pts scfg pts) in
  0 <= hours tc < 24 /\ 0 <= minutes tc < 60 /\ 0 <= seconds tc < 60
  /\ 0 <= frame tc
  /\ (if (0 <? fps_n scfg) && (0 <? fps_d scfg)
      then frame tc * fps_d scfg < fps_n scfg
      else frame tc < (if est_fps scfg' =? 0 then 25 else est_fps scfg')
           /\ frame tc < 120)
  /\ (est_fps scfg' = 0 \/ 12 <= est_fps scfg' <= 120).
Proof.
  intros Hn Hd Hest. cbv zeta.
  pose proof (timecode_from_pts_fields scfg pts) as Hfields. cbv zeta in Hfields.
  destruct Hfields as (_ & _ & _ & _ & _ & Hest'). specialize (Hest' Hest).
  revert Hest'. unfold timecode_from_pts.
  set (sec_total := pts / GST_SECOND).
  assert (Hh : 0 <= ((sec_total / 3600) mod 24) mod UINT32 < 24).
  { pose proof (Z.mod_pos_bound (sec_total / 3600) 24 ltac:(lia)).
    rewrite Z.mod_small; unfold UINT32; lia. }
  assert (Hm : 0 <= ((sec_total / 60) mod 60) mod UINT32 < 60).
  { pose proof (Z.mod_pos_bound (sec_total / 60) 60 ltac:(lia)).
    rewrite Z.mod_small; unfold UINT32; lia. }
  assert (Hs : 0 <= (sec_total mod 60) mod UINT32 < 60).
  { pose proof (Z.mod_pos_bound sec_total 60 ltac:(lia)).
    rewrite Z.mod_small; unfold UINT32; lia. }
  pose proof (Z.mod_pos_bound pts GST_SECOND ltac:(unfold GST_SECOND; lia)) as Hfrac.
  set (frac := pts mod GST_SECOND) in *.
  destruct ((0 <? fps_n scfg) && (0 <? fps_d scfg)) eqn:Hc;
    cbn [fst snd hours minutes seconds frame]; intros Hest'.
  - apply andb_prop in Hc. destruct Hc as [Hc1 Hc2]. apply Z.ltb_lt in Hc1, Hc2.
    assert (Hnum : 0 <= frac * fps_n scfg < GST_SECOND * fps_n scfg)
      by (unfold GST_SECOND in *; nia).
    assert (Hden : 0 < GST_SECOND * fps_d scfg < UINT64)
      by (unfold GST_SECOND, UINT32, UINT64 in *; nia).
    rewrite (Z.mod_small (frac * fps_n scfg))
      by (unfold GST_SECOND, UINT32, UINT64 in *; nia).
    rewrite (Z.mod_small (GST_SECOND * fps_d scfg)) by lia.
    assert (Hq : 0 <= frac * fps_n scfg / (GST_SECOND * fps_d scfg)) 
      by (apply Z.div_pos; lia).
    assert (Hq2 : frac * fps_n scfg / (GST_SECOND * fps_d scfg) * fps_d scfg
                  < fps_n scfg).
    { pose proof (Z.mul_div_le (frac * fps_n scfg) (GST_SECOND * fps_d scfg)
                    ltac:(lia)) as Hle.
      unfold GST_SECOND in *. nia. }
    assert (Hq3 : frac * fps_n scfg / (GST_SECOND * fps_d scfg) < UINT32) by nia.
    rewrite (Z.mod_small (frac * fps_n scfg / (GST_SECOND * fps_d scfg))) by lia.
    repeat split; try lia; auto.
  - set (scfg' := set_last_pts_ns (update_est_fps scfg pts) pts) in *.
    set (fps := if est_fps scfg' =? 0 then 25 else est_fps scfg') in *.
    assert (Hfps : 12 <= fps <= 120).
    { unfold fps. destruct (Z.eqb_spec (est_fps scfg') 0); lia. }
    rewrite (Z.mod_small (frac * fps))
      by (unfold GST_SECOND, UINT64 in *; nia).
    assert (Hq : 0 <= frac * fps / GST_SECOND) 
      by (apply Z.div_pos; unfold GST_SECOND in *; nia).
    assert (Hq2 : frac * fps / GST_SECOND < fps).
    { apply div_lt_of_mul_lt; unfold GST_SECOND in *; nia. }
    rewrite (Z.mod_small (frac * fps / GST_SECOND)) by (unfold UINT32; lia).
    repeat split; try lia; auto.
Qed.

(** X18.  The timecode derived from the PTS is always a valid one: hours
    below 24, minutes and seconds below 60, and a frame index below the
    frame rate, that is [frame * fps_d < fps_n] when the rate is
    configured and [frame] below the estimate in use (25, or the stored
    estimate, which stays 0 or within 12..120) when it is not. *)
Theorem pts_timecode_in_range scfg pts :
  0 <= fps_n scfg < UINT32 -> 0 <= fps_d scfg < UINT32 ->
  est_fps scfg = 0 \/ 12 <= est_fps scfg <= 120 ->
  let tc := fst (timecode_from_pts scfg pts) in
  let scfg' := snd (timecode_from_pts scfg pts) in
  0 <= hours tc < 24 /\ 0 <= minutes tc < 60 /\ 0 <= seconds tc < 60
  /\ 0 <= frame tc
  /\ (if (0 <? fps_n scfg) && (0 <? fps_d scfg)
      then frame tc * fps_d scfg < fps_n scfg
      else frame tc < (if est_fps scfg' =? 0 then 25 else est_fps scfg')
           /\ frame tc < 120)
  /\ (est_fps scfg' = 0 \/ 12 <= est_fps scfg' <= 120).
Proof. apply timecode_from_pts_range. Qed.

Lemma pts_timecode_in_range_witness :
  let scfg := mkSeiConfig true 30000 1001 true false 0 0 0 in
  let pts := 86399999999999 in
  let tc := fst (timecode_from_pts scfg pts) in
  let scfg' := snd (timecode_from_pts scfg pts) in
  0 <= hours tc < 24 /\ 0 <= minutes tc < 60 /\ 0 <= seconds tc < 60
  /\ 0 <= frame tc
  /\ (if (0 <? fps_n scfg) && (0 <? fps_d scfg)
      then frame tc * fps_d scfg < fps_n scfg
      else frame tc < (if est_fps scfg' =? 0 then 25 else est_fps scfg')
           /\ frame tc < 120)
  /\ (est_fps scfg' = 0 \/ 12 <= est_fps scfg' <= 120).
Proof.
  apply (pts_timecode_in_range (mkSeiConfig true 30000 1001 true false 0 0 0)
           86399999999999); cbn; unfold UINT32; lia.
Defined.

(** ** What the probe keeps *)

Lemma timecode_source_fields scfg inbuf :
  let scfg' := snd (timecode_source scfg inbuf) in
  inject_sei scfg' = inject_sei scfg /\ fps_n scfg' = fps_n scfg
  /\ fps_d scfg' = fps_d scfg /\ prefer_pts scfg' = prefer_pts scfg
  /\ verbose scfg' = verbose scfg
  /\ (est_fps scfg = 0 \/ 12 <= est_fps scfg <= 120 ->
      est_fps scfg' = 0 \/ 12 <= est_fps scfg' <= 120).
Proof.
  cbv zeta. unfold timecode_source.
  destruct (buf_tc_meta inbuf); cbn [snd]; [tauto|].
  destruct (prefer_pts scfg && negb (buf_pts inbuf =? GST_CLOCK_TIME_NONE));
    cbn [snd]; [|tauto].
  pose proof (timecode_from_pts_fields scfg (buf_pts inbuf)) as H.
  destruct (timecode_from_pts scfg (buf_pts inbuf)) as [tc s]. exact H.
Qed.

Lemma probe_config scfg g buf :
  snd (fst (h264_sei_inject_probe scfg g buf))
  = if inject_sei scfg then snd (timecode_source scfg buf) else scfg.
Proof.
  unfold h264_sei_inject_probe, prepend_h264_sei_timecode.
  destruct (inject_sei scfg); cbn [negb]; [|reflexivity].
  destruct (timecode_source scfg buf) as [[tc|] s]; cbn [snd]; [|reflexivity].
  destruct (rewrite_au s g (buf_data buf) tc). reflexivity.
Qed.

(** X19.  Whatever buffers pass the probe, the configuration it was
    installed with is kept: [inject_sei], [fps_n], [fps_d], [prefer_pts]
    and [verbose] never change, and the frame-rate estimate [est_fps],
    once 0 or within 12..120, stays 0 or within 12..120. *)
Theorem probe_keeps_configuration scfg g buf :
  est_fps scfg = 0 \/ 12 <= est_fps scfg <= 120 ->
  let scfg' := snd (fst (h264_sei_inject_probe scfg g buf)) in
  inject_sei scfg' = inject_sei scfg /\ fps_n scfg' = fps_n scfg
  /\ fps_d scfg' = fps_d scfg /\ prefer_pts scfg' = prefer_pts scfg
  /\ verbose scfg' = verbose scfg
  /\ (est_fps scfg' = 0 \/ 12 <= est_fps scfg' <= 120).
Proof.
  intros Hest. cbv zeta. rewrite probe_config.
  destruct (inject_sei scfg) eqn:Hinj; [|rewrite Hinj; tauto].
  pose proof (timecode_source_fields scfg buf) as H. cbv zeta in H.
  rewrite Hinj in H. destruct H as (H1 & H2 & H3 & H4 & H5 & H6).
  repeat split; auto.
Qed.

Lemma probe_keeps_configuration_witness :
  let scfg := mkSeiConfig true 0 0 true false 3560000000 0 0 in
  let buf := mkBuffer [0; 0; 0; 1; 65; 154] None 3600000000 in
  let scfg' := snd (fst (h264_sei_inject_probe scfg Globals_init buf)) in
  inject_sei scfg' = inject_sei scfg /\ fps_n scfg' = fps_n scfg
  /\ fps_d scfg' = fps_d scfg /\ prefer_pts scfg' = prefer_pts scfg
  /\ verbose scfg' = verbose scfg
  /\ (est_fps scfg' = 0 \/ 12 <= est_fps scfg' <= 120).
Proof.
  apply (probe_keeps_configuration
           (mkSeiConfig true 0 0 true false 3560000000 0 0) Globals_init
           (mkBuffer [0; 0; 0; 1; 65; 154] None 3600000000)).
  left. reflexivity.
Defined.

Lemma scan_nal_cache scfg data nal_start next st c :
  patched_cache st = Some c ->
  patched_cache (scan_nal scfg data nal_start next st) = Some c.
Proof.
  intros H. unfold scan_nal.
  destruct ((Z.land (byte_at data nal_start) 31 =? 9) && negb (insert_after_aud st));
    [exact H|].
  destruct (Z.land (byte_at data nal_start) 31 =? 7).
  - cbn [patched_cache]. now rewrite H.
  - destruct (Z.land (byte_at data nal_start) 31 =? 5); exact H.
Qed.

Lemma scan_au_loop_cache scfg data size c : forall n nal_start st,
  patched_cache st = Some c ->
  patched_cache (scan_au_loop scfg data size n nal_start st) = Some c.
Proof.
  induction n as [|n IH]; intros nal_start st H; cbn [scan_au_loop]; auto.
  destruct (nal_start <? size); auto.
  match goal with
  | |- context [scan_nal scfg data nal_start ?nx st] =>
      pose proof (scan_nal_cache scfg data nal_start nx st c H) as H1;
      set (next := nx) in *
  end.
  destruct (next =? size); auto.
Qed.

Lemma rewrite_au_cache scfg g data tc c :
  g_patched_sps_ebsp g = Some c ->
  g_patched_sps_ebsp (snd (rewrite_au scfg g data tc)) = Some c.
Proof.
  intros H. unfold rewrite_au.
  pose proof (build_sei_for_au_cache g data tc) as Hc.
  destruct (build_sei_for_au g data tc) as [sei g1]. cbn [snd] in Hc.
  rewrite H in Hc.
  set (pos0 := find_startcode data (size_of data) 0).
  set (sc_len := if 0 <=? pos0 then startcode_len_at data (size_of data) pos0 else 0).
  set (st0 := mkAuScan false (-1) false false (g_patched_sps_ebsp g1)).
  assert (H0 : patched_cache st0 = Some c) by exact Hc.
  set (st := if 0 <? sc_len
             then scan_au_loop scfg data (size_of data) (Z.to_nat (size_of data))
                    (pos0 + sc_len) st0
             else st0).
  assert (Hst : patched_cache st = Some c).
  { unfold st. destruct (0 <? sc_len); auto. now apply scan_au_loop_cache. }
  destruct (pos0 <? 0); cbn [snd g_patched_sps_ebsp]; exact Hst.
Qed.

(** X20.  The patched SPS is built once: when [g_patched_sps_ebsp] holds a
    patched SPS, no buffer that passes the probe replaces or clears it,
    not even one that carries another SPS. *)
Theorem patched_sps_cache_is_frozen scfg g buf c :
  g_patched_sps_ebsp g = Some c ->
  g_patched_sps_ebsp (snd (h264_sei_inject_probe scfg g buf)) = Some c.
Proof.
  intros H. unfold h264_sei_inject_probe, prepend_h264_sei_timecode.
  destruct (negb (inject_sei scfg)); [exact H|].
  destruct (timecode_source scfg buf) as [[tc|] s]; [|exact H].
  pose proof (rewrite_au_cache s g (buf_data buf) tc c H) as Hc.
  destruct (rewrite_au s g (buf_data buf) tc). exact Hc.
Qed.

Lemma patched_sps_cache_is_frozen_witness :
  let g := mkGlobals SpsVuiInfo_zero false (Some [0; 0; 0; 1; 103; 66]) in
  let buf := mkBuffer (sample_sps_nal ++ sample_idr_nal) None 40000000 in
  g_patched_sps_ebsp (snd (h264_sei_inject_probe sample_config g buf))
  = Some [0; 0; 0; 1; 103; 66].
Proof.
  apply (patched_sps_cache_is_frozen sample_config
           (mkGlobals SpsVuiInfo_zero false (Some [0; 0; 0; 1; 103; 66]))
           (mkBuffer (sample_sps_nal ++ sample_idr_nal) None 40000000)).
  reflexivity.
Defined.



(** ** The GOP timecode *)

Lemma forall_below (P : Z -> bool) (n : nat) :
  forallb (fun k => P (Z.of_nat k)) (seq 0 n) = true ->
  forall v, 0 <= v < Z.of_nat n -> P v = true.
Proof.
  intros H v Hv. rewrite forallb_forall in H.
  specialize (H (Z.to_nat v)). rewrite Z2Nat.id in H by lia.
  apply H. apply in_seq. lia.
Qed.

Lemma to_bcd_bits value bits : to_bcd value bits = to_bcd value 6.
Proof. unfold to_bcd. destruct (bits =? 6); reflexivity. Qed.

Lemma to_bcd_small v : 0 <= v < 100 -> to_bcd v 6 = bcd v.
Proof.
  intros Hv. apply Z.eqb_eq.
  apply (forall_below (fun v => to_bcd v 6 =? bcd v) 100); [|exact Hv].
  vm_compute. reflexivity.
Qed.

(** X23.  [to_bcd] packs the two decimal digits of a value below 100 into
    one byte, the tens in the high nibble and the units in the low one;
    its [bits] argument has no effect on the result. *)
Theorem to_bcd_digits value bits :
  0 <= value < 100 ->
  to_bcd value bits = 16 * (value / 10) + value mod 10
  /\ Z.shiftr (to_bcd value bits) 4 = value / 10
  /\ Z.land (to_bcd value bits) 15 = value mod 10.
Proof.
  intros Hv. rewrite to_bcd_bits, (to_bcd_small value Hv).
  split; [reflexivity|].
  assert (H : (Z.shiftr (bcd value) 4 =? value / 10)
              && (Z.land (bcd value) 15 =? value mod 10) = true).
  { apply (forall_below
             (fun v => (Z.shiftr (bcd v) 4 =? v / 10)
                       && (Z.land (bcd v) 15 =? v mod 10)) 100); [|exact Hv].
    vm_compute. reflexivity. }
  apply andb_prop in H. destruct H as [H1 H2].
  split; now apply Z.eqb_eq.
Qed.

Lemma to_bcd_digits_witness :
  to_bcd 59 7 = 16 * (59 / 10) + 59 mod 10
  /\ Z.shiftr (to_bcd 59 7) 4 = 59 / 10
  /\ Z.land (to_bcd 59 7) 15 = 59 mod 10.
Proof. apply (to_bcd_digits 59 7). lia. Defined.

Lemma land_shiftl_low a b k :
  0 <= k -> 0 <= a < 2 ^ k -> Z.land a (Z.shiftl b k) = 0.
Proof.
  intros Hk Ha. apply Z.bits_inj'. intros n Hn.
  rewrite Z.land_spec, Z.bits_0.
  destruct (Z.lt_ge_cases n k) as [Hlt|Hge].
  - rewrite (Z.shiftl_spec_low b k n Hlt). apply andb_false_r.
  - rewrite <- (Z.mod_small a (2 ^ k)) by lia.
    rewrite Z.mod_pow2_bits_high by lia. reflexivity.
Qed.

Lemma lor_shiftl_add a b k :
  0 <= k -> 0 <= a < 2 ^ k -> Z.lor a (Z.shiftl b k) = a + b * 2 ^ k.
Proof.
  intros Hk Ha.
  pose proof (Z.add_lor_land a (Z.shiftl b k)) as H.
  rewrite land_shiftl_low, Z.add_0_r in H by auto.
  rewrite H, Z.shiftl_mul_pow2 by lia. reflexivity.
Qed.

(** The four bytes of a [guint32], most significant first, spell it. *)
Lemma be32_bytes tc :
  0 <= tc < 2 ^ 32 ->
  Z.land (Z.shiftr tc 24) 255 * 2 ^ 24 + Z.land (Z.shiftr tc 16) 255 * 2 ^ 16
  + Z.land (Z.shiftr tc 8) 255 * 2 ^ 8 + Z.land tc 255 = tc.
Proof.
  intros Htc. change 255 with (Z.ones 8).
  rewrite !Z.land_ones, !Z.shiftr_div_pow2 by lia.
  change (2 ^ 24) with (256 * (256 * 256)). change (2 ^ 16) with (256 * 256).
  change (2 ^ 8) with 256. change (2 ^ 32) with (256 * (256 * (256 * 256))) in Htc.
  rewrite <- !Z.div_div by lia.
  pose proof (Z.div_mod tc 256 ltac:(lia)).
  pose proof (Z.mod_pos_bound tc 256 ltac:(lia)).
  set (q1 := tc / 256) in *.
  pose proof (Z.div_mod q1 256 ltac:(lia)).
  pose proof (Z.mod_pos_bound q1 256 ltac:(lia)).
  set (q2 := q1 / 256) in *.
  pose proof (Z.div_mod q2 256 ltac:(lia)).
  pose proof (Z.mod_pos_bound q2 256 ltac:(lia)).
  set (q3 := q2 / 256) in *.
  rewrite (Z.mod_small q3) by lia. lia.
Qed.

Lemma bcd_field_small v n w :
  forallb (fun k => (Z.land (to_bcd (Z.of_nat k) 6) (Z.ones w) =? bcd (Z.of_nat k))
                    && (bcd (Z.of_nat k) <? 2 ^ w)) (seq 0 n) = true ->
  0 <= v < Z.of_nat n ->
  Z.land (to_bcd v 6) (Z.ones w) = bcd v /\ 0 <= bcd v < 2 ^ w.
Proof.
  intros H Hv.
  pose proof (forall_below
                (fun v => (Z.land (to_bcd v 6) (Z.ones w) =? bcd v)
                          && (bcd v <? 2 ^ w)) n H v Hv) as Hb.
  apply andb_prop in Hb. destruct Hb as [H1 H2].
  apply Z.eqb_eq in H1. apply Z.ltb_lt in H2.
  split; [exact H1|]. split; [|exact H2].
  unfold bcd. pose proof (Z.div_pos v 10). pose proof (Z.mod_pos_bound v 10). lia.
Qed.

Lemma tc_25bit_sum drop_frame frame seconds minutes hours :
  0 <= frame < 40 -> 0 <= seconds < 60 -> 0 <= minutes < 40 -> 0 <= hours < 20 ->
  tc_25bit drop_frame frame seconds minutes hours
  = bcd frame + bcd seconds * 2 ^ 6 + bcd minutes * 2 ^ 13 + bcd hours * 2 ^ 19
    + (if drop_frame then 2 ^ 24 else 0).
Proof.
  intros Hf Hs Hm Hh. unfold tc_25bit.
  rewrite (to_bcd_bits seconds 7), (to_bcd_bits hours 5).
  change 63 with (Z.ones 6). change 127 with (Z.ones 7). change 31 with (Z.ones 5).
  destruct (bcd_field_small frame 40 6 ltac:(vm_compute; reflexivity) Hf) as [-> Bf].
  destruct (bcd_field_small seconds 60 7 ltac:(vm_compute; reflexivity) Hs) as [-> Bs].
  destruct (bcd_field_small minutes 40 6 ltac:(vm_compute; reflexivity) Hm) as [-> Bm].
  destruct (bcd_field_small hours 20 5 ltac:(vm_compute; reflexivity) Hh) as [-> Bh].
  cbv zeta. rewrite Z.lor_0_l.
  change (2 ^ 6) with 64 in *. change (2 ^ 7) with 128 in *.
  change (2 ^ 5) with 32 in *.
  rewrite (lor_shiftl_add (bcd frame) (bcd seconds) 6)
    by (change (2 ^ 6) with 64; lia).
  rewrite (lor_shiftl_add _ (bcd minutes) 13)
    by (change (2 ^ 6) with 64; change (2 ^ 13) with 8192; lia).
  rewrite (lor_shiftl_add _ (bcd hours) 19)
    by (change (2 ^ 6) with 64; change (2 ^ 13) with 8192;
        change (2 ^ 19) with 524288; lia).
  destruct drop_frame; [|lia].
  rewrite (lor_shiftl_add _ 1 24)
    by (change (2 ^ 6) with 64; change (2 ^ 13) with 8192;
        change (2 ^ 19) with 524288; change (2 ^ 24) with 16777216; lia).
  lia.
Qed.

(** X24.  The 25 bytes of [build_ffmpeg_timecode_sei]: 21 bytes that do not
    depend on the timecode (a 16-byte UUID, "GA94", 3), then four bytes
    that, read most significant first, hold the drop-frame flag in bit 24
    and the binary coded decimal digits of hours, minutes, seconds and
    frame in bits 19-23, 13-18, 6-12 and 0-5, for every timecode whose
    digits fit these fields: frame and minutes below 40, hours below 20,
    seconds below 60. *)
Theorem ffmpeg_timecode_sei_layout drop_frame frame seconds minutes hours :
  0 <= frame < 40 -> 0 <= seconds < 60 -> 0 <= minutes < 40 -> 0 <= hours < 20 ->
  let out := build_ffmpeg_timecode_sei drop_frame frame seconds minutes hours in
  length out = 25%nat
  /\ firstn 21 out = [79; 120; 202; 66; 76; 71; 17; 217; 148; 8; 0; 32; 12; 154;
                      102; 0; 71; 65; 57; 52; 3]
  /\ byte_at out 21 * 2 ^ 24 + byte_at out 22 * 2 ^ 16 + byte_at out 23 * 2 ^ 8
     + byte_at out 24
     = bcd frame + bcd seconds * 2 ^ 6 + bcd minutes * 2 ^ 13 + bcd hours * 2 ^ 19
       + (if drop_frame then 2 ^ 24 else 0).
Proof.
  intros Hf Hs Hm Hh. cbv zeta.
  split; [reflexivity|]. split; [reflexivity|].
  unfold build_ffmpeg_timecode_sei.
  change (byte_at ?l 21) with (nth 21 l 0). change (byte_at ?l 22) with (nth 22 l 0).
  change (byte_at ?l 23) with (nth 23 l 0). change (byte_at ?l 24) with (nth 24 l 0).
  cbn [nth].
  pose proof (tc_25bit_sum drop_frame frame seconds minutes hours Hf Hs Hm Hh) as Hsum.
  rewrite be32_bytes; [exact Hsum|].
  rewrite Hsum.
  assert (Bf : 0 <= bcd frame < 64).
  { unfold bcd. pose proof (Z.div_pos frame 10).
    pose proof (Z.mod_pos_bound frame 10).
    assert (frame / 10 < 4) by (apply Z.div_lt_upper_bound; lia). lia. }
  assert (Bs : 0 <= bcd seconds < 128).
  { unfold bcd. pose proof (Z.div_pos seconds 10).
    pose proof (Z.mod_pos_bound seconds 10).
    assert (seconds / 10 < 6) by (apply Z.div_lt_upper_bound; lia). lia. }
  assert (Bm : 0 <= bcd minutes < 64).
  { unfold bcd. pose proof (Z.div_pos minutes 10).
    pose proof (Z.mod_pos_bound minutes 10).
    assert (minutes / 10 < 4) by (apply Z.div_lt_upper_bound; lia). lia. }
  assert (Bh : 0 <= bcd hours < 32).
  { unfold bcd. pose proof (Z.div_pos hours 10).
    pose proof (Z.mod_pos_bound hours 10).
    assert (hours / 10 < 2) by (apply Z.div_lt_upper_bound; lia). lia. }
  change (2 ^ 6) with 64. change (2 ^ 13) with 8192.
  change (2 ^ 19) with 524288. change (2 ^ 24) with 16777216.
  change (2 ^ 32) with 4294967296.
  destruct drop_frame; lia.
Qed.

Lemma ffmpeg_timecode_sei_layout_witness :
  let out := build_ffmpeg_timecode_sei true 29 59 39 19 in
  length out = 25%nat
  /\ firstn 21 out = [79; 120; 202; 66; 76; 71; 17; 217; 148; 8; 0; 32; 12; 154;
                      102; 0; 71; 65; 57; 52; 3]
  /\ byte_at out 21 * 2 ^ 24 + byte_at out 22 * 2 ^ 16 + byte_at out 23 * 2 ^ 8
     + byte_at out 24
     = bcd 29 + bcd 59 * 2 ^ 6 + bcd 39 * 2 ^ 13 + bcd 19 * 2 ^ 19
       + (if true then 2 ^ 24 else 0).
Proof. apply (ffmpeg_timecode_sei_layout true 29 59 39 19); lia. Defined.

Lemma land_to_bcd_wraps v lo hi w off :
  forallb (fun k => Z.land (to_bcd (Z.of_nat k) 6) (Z.ones w)
                    =? Z.land (to_bcd (Z.of_nat k - off) 6) (Z.ones w))
    (seq lo (hi - lo)) = true ->
  Z.of_nat lo <= v < Z.of_nat hi ->
  Z.land (to_bcd v 6) (Z.ones w) = Z.land (to_bcd (v - off) 6) (Z.ones w).
Proof.
  intros H Hv. rewrite forallb_forall in H.
  specialize (H (Z.to_nat v)). rewrite Z2Nat.id in H by lia.
  apply Z.eqb_eq. apply H. apply in_seq. lia.
Qed.

(** X25.  The fields of the GOP timecode are too narrow for every valid
    timecode: the tens digit of the minutes is cut to two bits and that of
    the hours to one, so that minutes 40..59 give the bytes of minutes
    0..19, and hours 20..23 the bytes of hours 0..3. *)
Theorem ffmpeg_timecode_sei_wraps drop_frame frame seconds minutes hours :
  (40 <= minutes < 60 ->
   build_ffmpeg_timecode_sei drop_frame frame seconds minutes hours
   = build_ffmpeg_timecode_sei drop_frame frame seconds (minutes - 40) hours)
  /\ (20 <= hours < 24 ->
      build_ffmpeg_timecode_sei drop_frame frame seconds minutes hours
      = build_ffmpeg_timecode_sei drop_frame frame seconds minutes (hours - 20)).
Proof.
  split; intros H; unfold build_ffmpeg_timecode_sei, tc_25bit;
    rewrite !(to_bcd_bits _ 5);
    change 63 with (Z.ones 6); change 31 with (Z.ones 5).
  - rewrite (land_to_bcd_wraps minutes 40 60 6 40 ltac:(vm_compute; reflexivity))
      by (cbn; lia).
    reflexivity.
  - rewrite (land_to_bcd_wraps hours 20 24 5 20 ltac:(vm_compute; reflexivity))
      by (cbn; lia).
    reflexivity.
Qed.

Lemma ffmpeg_timecode_sei_wraps_witness :
  build_ffmpeg_timecode_sei false 12 34 45 23
  = build_ffmpeg_timecode_sei false 12 34 (45 - 40) 23
  /\ build_ffmpeg_timecode_sei false 12 34 45 23
     = build_ffmpeg_timecode_sei false 12 34 45 (23 - 20).
Proof.
  split.
  - apply (proj1 (ffmpeg_timecode_sei_wraps false 12 34 45 23)). lia.
  - apply (proj2 (ffmpeg_timecode_sei_wraps false 12 34 45 23)). lia.
Defined.

(** ** The command line *)

Lemma parse_args_loop_last atoi a cfg :
  App.parse_args_loop atoi [a] cfg
  = match App.parse_arg atoi a None cfg with
    | None => None
    | Some (cfg, _) => Some cfg
    end.
Proof. reflexivity. Qed.

Lemma parse_args_loop_next atoi a v rest cfg :
  App.parse_args_loop atoi (a :: v :: rest) cfg
  = match App.parse_arg atoi a (Some v) cfg with
    | None => None
    | Some (cfg, true) => App.parse_args_loop atoi rest cfg
    | Some (cfg, false) => App.parse_args_loop atoi (v :: rest) cfg
    end.
Proof. reflexivity. Qed.

Lemma parse_args_loop_inv atoi (P : App.AppConfig -> Prop) :
  (forall a next cfg cfg' took,
      P cfg -> App.parse_arg atoi a next cfg = Some (cfg', took) -> P cfg') ->
  forall args cfg cfg',
    P cfg -> App.parse_args_loop atoi args cfg = Some cfg' -> P cfg'.
Proof.
  intros Hstep args.
  assert (H : forall n args, (length args <= n)%nat ->
              forall cfg cfg', P cfg ->
                App.parse_args_loop atoi args cfg = Some cfg' -> P cfg').
  { induction n as [|n IH]; intros l Hlen cfg cfg' Hp Hl.
    - destruct l; [|cbn in Hlen; lia]. cbn in Hl. now inversion Hl; subst.
    - destruct l as [|a [|v rest']];
        [|rewrite parse_args_loop_last in Hl|rewrite parse_args_loop_next in Hl].
      + cbn in Hl. now inversion Hl; subst.
      + destruct (App.parse_arg atoi a None cfg) as [[c t]|] eqn:Ha; [|discriminate].
        inversion Hl; subst. eapply Hstep; eauto.
      + destruct (App.parse_arg atoi a (Some v) cfg) as [[c t]|] eqn:Ha;
          [|discriminate].
        pose proof (Hstep _ _ _ _ _ Hp Ha) as Hc.
        destruct t; (eapply IH; [|exact Hc|exact Hl]); cbn [length] in *; lia. }
  intros cfg cfg'. apply (H (length args) args). lia.
Qed.

Lemma parse_args_loop_keeps atoi {T} (f : App.AppConfig -> T) (o : string) :
  (forall a next cfg cfg' took,
      a <> o -> App.parse_arg atoi a next cfg = Some (cfg', took) -> f cfg' = f cfg) ->
  forall args cfg cfg',
    ~ In o args -> App.parse_args_loop atoi args cfg = Some cfg' -> f cfg' = f cfg.
Proof.
  intros Hstep args.
  assert (H : forall n args, (length args <= n)%nat ->
              forall cfg cfg', ~ In o args ->
                App.parse_args_loop atoi args cfg = Some cfg' -> f cfg' = f cfg).
  { induction n as [|n IH]; intros l Hlen cfg cfg' Hin Hl.
    - destruct l; [|cbn in Hlen; lia]. cbn in Hl. now inversion Hl; subst.
    - destruct l as [|a [|v rest']];
        [|rewrite parse_args_loop_last in Hl|rewrite parse_args_loop_next in Hl].
      + cbn in Hl. now inversion Hl; subst.
      + destruct (App.parse_arg atoi a None cfg) as [[c t]|] eqn:Ha; [|discriminate].
        inversion Hl; subst. eapply Hstep; [|exact Ha].
        intros ->. apply Hin. now left.
      + destruct (App.parse_arg atoi a (Some v) cfg) as [[c t]|] eqn:Ha;
          [|discriminate].
        assert (Hc : f c = f cfg).
        { eapply Hstep; [|exact Ha]. intros ->. apply Hin. now left. }
        rewrite <- Hc.
        destruct t; (eapply IH; [| |exact Hl]); cbn [length] in *; try lia;
          intros Hi; apply Hin; cbn [In] in *; tauto. }
  intros cfg cfg'. apply (H (length args) args). lia.
Qed.

(** Every way [parse_arg] can succeed, one goal for each. *)
Ltac parse_arg_cases H :=
  unfold App.parse_arg in H;
  repeat match type of H with
         | context [if ?c then _ else _] => destruct c eqn:?
         end;
  inversion H; subst; clear H.

Lemma parse_args_final atoi args cfg :
  App.parse_args atoi args = Some cfg ->
  App.parse_args_loop atoi args App.defaults = Some cfg
  /\ (App.discover cfg = true
      \/ (App.ndi_name cfg <> None
          /\ (App.srt_uri cfg <> None \/ App.stdout_mode cfg = true))).
Proof.
  unfold App.parse_args. intros H.
  destruct (App.parse_args_loop atoi args App.defaults) as [c|]; [|discriminate].
  destruct (App.discover c) eqn:Hd.
  - inversion H; subst. auto.
  - destruct (App.ndi_name c) eqn:Hn; [|discriminate].
    destruct (App.srt_uri c) eqn:Hs.
    + inversion H; subst. split; auto. right. rewrite Hn, Hs.
      split; [discriminate|left; discriminate].
    + destruct (App.stdout_mode c) eqn:Ho; [|discriminate].
      inversion H; subst. split; auto. right. rewrite Hn.
      split; [discriminate|now right].
Qed.

(** X26.  What a command line that [parse_args] accepts guarantees,
    whatever [atoi] returns: the GOP size and the timeout are never
    negative; zero-latency mode is on (no option turns it off); and either
    discovery was asked for, or an NDI source name was given together with
    an SRT URI or [--stdout]. *)
Theorem parse_args_accepted atoi args cfg :
  App.parse_args atoi args = Some cfg ->
  0 <= App.gop_size cfg /\ 0 <= App.timeout_seconds cfg
  /\ App.zerolatency cfg = true
  /\ (App.discover cfg = true
      \/ (App.ndi_name cfg <> None
          /\ (App.srt_uri cfg <> None \/ App.stdout_mode cfg = true))).
Proof.
  intros H. apply parse_args_final in H. destruct H as [Hloop Hreq].
  assert (Hinv : 0 <= App.gop_size cfg /\ 0 <= App.timeout_seconds cfg
                 /\ App.zerolatency cfg = true).
  { apply (parse_args_loop_inv atoi
             (fun c => 0 <= App.gop_size c /\ 0 <= App.timeout_seconds c
                       /\ App.zerolatency c = true))
      with (args := args) (cfg := App.defaults); [|cbn; lia|exact Hloop].
    intros a next c c' took (Hg & Ht & Hz) Ha.
    parse_arg_cases Ha; cbn; repeat split; auto; lia. }
  tauto.
Qed.

Lemma parse_args_accepted_witness :
  let atoi := fun s : string => if (s =? "-5")%string then -5 else 25 in
  let args := ["--ndi-name"; "Camera 1"; "--stdout"; "--gop-size"; "-5";
               "--timeout"; "25"]%string in
  let cfg := App.mkAppConfig (Some "Camera 1"%string) None true "x264enc" 6000 0
               "aac" 0 true true 25 None true "timecode" false false in
  0 <= App.gop_size cfg /\ 0 <= App.timeout_seconds cfg
  /\ App.zerolatency cfg = true
  /\ (App.discover cfg = true
      \/ (App.ndi_name cfg <> None
          /\ (App.srt_uri cfg <> None \/ App.stdout_mode cfg = true))).
Proof.
  apply (parse_args_accepted
           (fun s : string => if (s =? "-5")%string then -5 else 25)
           ["--ndi-name"; "Camera 1"; "--stdout"; "--gop-size"; "-5";
            "--timeout"; "25"]%string).
  vm_compute. reflexivity.
Defined.

Lemma parse_arg_keeps_encoder atoi a next cfg cfg' took :
  a <> "--encoder"%string ->
  App.parse_arg atoi a next cfg = Some (cfg', took) ->
  App.encoder cfg' = App.encoder cfg.
Proof.
  intros Hne Ha. parse_arg_cases Ha; try reflexivity.
  exfalso. apply Hne.
  match goal with
  | H : (_ =? "--encoder")%string && _ = true |- _ =>
      apply andb_prop in H; destruct H as [H _]; now apply String.eqb_eq in H
  end.
Qed.

Lemma parse_arg_keeps_bitrate atoi a next cfg cfg' took :
  a <> "--bitrate"%string ->
  App.parse_arg atoi a next cfg = Some (cfg', took) ->
  App.bitrate_kbps cfg' = App.bitrate_kbps cfg.
Proof.
  intros Hne Ha. parse_arg_cases Ha; try reflexivity.
  exfalso. apply Hne.
  match goal with
  | H : (_ =? "--bitrate")%string && _ = true |- _ =>
      apply andb_prop in H; destruct H as [H _]; now apply String.eqb_eq in H
  end.
Qed.

Lemma parse_arg_keeps_audio_codec atoi a next cfg cfg' took :
  a <> "--audio-codec"%string ->
  App.parse_arg atoi a next cfg = Some (cfg', took) ->
  App.audio_codec cfg' = App.audio_codec cfg.
Proof.
  intros Hne Ha. parse_arg_cases Ha; try reflexivity.
  exfalso. apply Hne.
  match goal with
  | H : (_ =? "--audio-codec")%string && _ = true |- _ =>
      apply andb_prop in H; destruct H as [H _]; now apply String.eqb_eq in H
  end.
Qed.

Lemma parse_arg_keeps_timestamp_mode atoi a next cfg cfg' took :
  a <> "--timestamp-mode"%string ->
  App.parse_arg atoi a next cfg = Some (cfg', took) ->
  App.timestamp_mode cfg' = App.timestamp_mode cfg.
Proof.
  intros Hne Ha. parse_arg_cases Ha; try reflexivity.
  exfalso. apply Hne.
  match goal with
  | H : (_ =? "--timestamp-mode")%string && _ = true |- _ =>
      apply andb_prop in H; destruct H as [H _]; now apply String.eqb_eq in H
  end.
Qed.

Lemma parse_arg_keeps_with_audio atoi a next cfg cfg' took :
  a <> "--no-audio"%string ->
  App.parse_arg atoi a next cfg = Some (cfg', took) ->
  App.with_audio cfg' = App.with_audio cfg.
Proof.
  intros Hne Ha. parse_arg_cases Ha; try reflexivity.
  exfalso. apply Hne.
  match goal with
  | H : (_ =? "--no-audio")%string = true |- _ => now apply String.eqb_eq in H
  end.
Qed.

Lemma parse_arg_keeps_inject_sei atoi a next cfg cfg' took :
  a <> "--no-sei"%string ->
  App.parse_arg atoi a next cfg = Some (cfg', took) ->
  App.inject_sei cfg' = App.inject_sei cfg.
Proof.
  intros Hne Ha. parse_arg_cases Ha; try reflexivity.
  exfalso. apply Hne.
  match goal with
  | H : (_ =? "--no-sei")%string = true |- _ => now apply String.eqb_eq in H
  end.
Qed.

(** X27.  An option that is not on the command line leaves its default: in
    an accepted configuration the encoder is "x264enc", the video bitrate
    6000 kbps, the audio codec "aac", the timestamp mode "timecode", audio
    is on and SEI injection is on, each unless the option that changes it
    occurs among the arguments. *)
Theorem parse_args_defaults atoi args cfg :
  App.parse_args atoi args = Some cfg ->
  (~ In "--encoder"%string args -> App.encoder cfg = "x264enc"%string)
  /\ (~ In "--bitrate"%string args -> App.bitrate_kbps cfg = 6000)
  /\ (~ In "--audio-codec"%string args -> App.audio_codec cfg = "aac"%string)
  /\ (~ In "--timestamp-mode"%string args
      -> App.timestamp_mode cfg = "timecode"%string)
  /\ (~ In "--no-audio"%string args -> App.with_audio cfg = true)
  /\ (~ In "--no-sei"%string args -> App.inject_sei cfg = true).
Proof.
  intros H. apply parse_args_final in H. destruct H as [Hloop _].
  repeat split; intros Hin.
  - apply (parse_args_loop_keeps atoi App.encoder _
             (parse_arg_keeps_encoder atoi) args _ _ Hin Hloop).
  - apply (parse_args_loop_keeps atoi App.bitrate_kbps _
             (parse_arg_keeps_bitrate atoi) args _ _ Hin Hloop).
  - apply (parse_args_loop_keeps atoi App.audio_codec _
             (parse_arg_keeps_audio_codec atoi) args _ _ Hin Hloop).
  - apply (parse_args_loop_keeps atoi App.timestamp_mode _
             (parse_arg_keeps_timestamp_mode atoi) args _ _ Hin Hloop).
  - apply (parse_args_loop_keeps atoi App.with_audio _
             (parse_arg_keeps_with_audio atoi) args _ _ Hin Hloop).
  - apply (parse_args_loop_keeps atoi App.inject_sei _
             (parse_arg_keeps_inject_sei atoi) args _ _ Hin Hloop).
Qed.

Lemma parse_args_defaults_witness :
  let args := ["--ndi-name"; "Camera 1"; "--srt-uri"; "srt://h:9000";
               "--no-audio"]%string in
  let cfg := App.mkAppConfig (Some "Camera 1"%string) (Some "srt://h:9000"%string)
               false "x264enc" 6000 0 "aac" 0 true true 0 None false "timecode"
               false false in
  (~ In "--encoder"%string args -> App.encoder cfg = "x264enc"%string)
  /\ (~ In "--bitrate"%string args -> App.bitrate_kbps cfg = 6000)
  /\ (~ In "--audio-codec"%string args -> App.audio_codec cfg = "aac"%string)
  /\ (~ In "--timestamp-mode"%string args
      -> App.timestamp_mode cfg = "timecode"%string)
  /\ (~ In "--no-audio"%string args -> App.with_audio cfg = true)
  /\ (~ In "--no-sei"%string args -> App.inject_sei cfg = true).
Proof.
  apply (parse_args_defaults (fun _ => 0)
           ["--ndi-name"; "Camera 1"; "--srt-uri"; "srt://h:9000";
            "--no-audio"]%string).
  vm_compute. reflexivity.
Defined.

Lemma not_in_cons_eqb (a o : string) l :
  ~ In a (o :: l) -> (a =? o)%string = false /\ ~ In a l.
Proof.
  intros H. split.
  - apply String.eqb_neq. intros ->. apply H. now left.
  - intros Hi. apply H. now right.
Qed.

Lemma parse_arg_unknown atoi a next cfg :
  ~ In a App.option_names -> App.parse_arg atoi a next cfg = None.
Proof.
  intros H. unfold App.option_names in H.
  repeat match type of H with
         | ~ In _ (_ :: _) =>
             apply not_in_cons_eqb in H;
             let E := fresh "E" in destruct H as [E H]
         end.
  unfold App.parse_arg.
  repeat match goal with
         | E : (a =? _)%string = false |- _ => rewrite E; clear E
         end.
  cbn [andb]. destruct ((a =? "--help")%string || (a =? "-h")%string); reflexivity.
Qed.

Lemma parse_arg_missing_value atoi a cfg :
  In a App.value_option_names -> App.parse_arg atoi a None cfg = None.
Proof.
  intros H. unfold App.value_option_names in H. cbn [In] in H.
  repeat match type of H with
         | _ \/ _ => destruct H as [H|H]
         end; try contradiction; subst a; reflexivity.
Qed.

(** X28.  What [parse_args] refuses: a first argument that is not one of
    its sixteen options, which is the case of [--help] and [-h], whatever
    follows; an option that takes a value when it comes last, without its
    value; and the empty command line. *)
Theorem parse_args_refused atoi a args :
  (~ In a App.option_names -> App.parse_args atoi (a :: args) = None)
  /\ (In a App.value_option_names -> App.parse_args atoi [a] = None)
  /\ App.parse_args atoi [] = None.
Proof.
  split; [|split; [|reflexivity]].
  - intros H. unfold App.parse_args.
    destruct args as [|v rest];
      [rewrite parse_args_loop_last|rewrite parse_args_loop_next];
      now rewrite parse_arg_unknown.
  - intros H. unfold App.parse_args. rewrite parse_args_loop_last.
    now rewrite parse_arg_missing_value.
Qed.

Lemma parse_args_refused_witness :
  App.parse_args (fun _ => 0) ["--help"; "--ndi-name"; "Camera 1"; "--stdout"]%string
  = None
  /\ App.parse_args (fun _ => 0) ["--bitrate"]%string = None.
Proof.
  split.
  - apply (proj1 (parse_args_refused (fun _ => 0) "--help"%string
                    ["--ndi-name"; "Camera 1"; "--stdout"]%string)).
    vm_compute. intros H.
    repeat match type of H with
           | _ \/ _ => destruct H as [H|H]
           end; try discriminate; contradiction.
  - apply (proj1 (proj2 (parse_args_refused (fun _ => 0) "--bitrate"%string []))).
    vm_compute. tauto.
Defined.

(** X29.  [build_audio_pipeline] on its edges: a codec name that is none of
    "aac", "mp3", "ac3" and "smpte302m" gives the pipeline of "aac";
    "smpte302m" gives the same pipeline whatever the bitrate; a bitrate
    that is 0 or negative gives the pipeline without a [bitrate] property;
    and every pipeline starts with [audioconvert]. *)
Theorem audio_pipeline_edges audio_codec kbps :
  (~ In audio_codec ["aac"; "mp3"; "ac3"; "smpte302m"]%string ->
   App.build_audio_pipeline audio_codec kbps = App.build_audio_pipeline "aac" kbps)
  /\ App.build_audio_pipeline "smpte302m" kbps
     = App.build_audio_pipeline "smpte302m" 0
  /\ (kbps <= 0 ->
      App.build_audio_pipeline audio_codec kbps
      = App.build_audio_pipeline audio_codec 0)
  /\ prefix "audioconvert ! " (App.build_audio_pipeline audio_codec kbps) = true.
Proof.
  split; [|split; [reflexivity|split]].
  - intros H.
    repeat match type of H with
           | ~ In _ (_ :: _) =>
               apply not_in_cons_eqb in H;
               let E := fresh "E" in destruct H as [E H]
           end.
    unfold App.build_audio_pipeline. rewrite E, E0, E1, E2. reflexivity.
  - intros Hk. unfold App.build_audio_pipeline.
    replace (0 <? kbps) with false by (symmetry; apply Z.ltb_ge; lia).
    reflexivity.
  - unfold App.build_audio_pipeline.
    destruct (audio_codec =? "aac")%string; [destruct (0 <? kbps); reflexivity|].
    destruct (audio_codec =? "mp3")%string; [destruct (0 <? kbps); reflexivity|].
    destruct (audio_codec =? "ac3")%string; [destruct (0 <? kbps); reflexivity|].
    destruct (audio_codec =? "smpte302m")%string; [reflexivity|].
    destruct (0 <? kbps); reflexivity.
Qed.

Lemma audio_pipeline_edges_witness :
  App.build_audio_pipeline "opus" 128 = App.build_audio_pipeline "aac" 128
  /\ App.build_audio_pipeline "mp3" (-1) = App.build_audio_pipeline "mp3" 0.
Proof.
  split.
  - apply (proj1 (audio_pipeline_edges "opus" 128)).
    vm_compute. intros H.
    repeat match type of H with
           | _ \/ _ => destruct H as [H|H]
           end; try discriminate; contradiction.
  - apply (proj1 (proj2 (proj2 (audio_pipeline_edges "mp3" (-1))))). lia.
Defined.

(** ** The drop-frame flag *)

Lemma is_ntsc_rate_spec n d :
  is_ntsc_rate n d = true <-> (n = 30000 \/ n = 60000) /\ d = 1001.
Proof.
  unfold is_ntsc_rate. rewrite orb_true_iff, !andb_true_iff, !Z.eqb_eq. tauto.
Qed.

(** X30.  Whichever source the timecode comes from, the upstream timecode
    meta or the PTS, the drop-frame flag given to the SEI follows the
    configured rate alone: it is set exactly when [fps_n / fps_d] is
    30000/1001 or 60000/1001, and so never with an estimated rate. *)
Theorem drop_frame_follows_configured_rate scfg inbuf tc scfg' :
  timecode_source scfg inbuf = (Some tc, scfg') ->
  drop_frame tc = true
  <-> (fps_n scfg = 30000 \/ fps_n scfg = 60000) /\ fps_d scfg = 1001.
Proof.
  intros H. rewrite <- is_ntsc_rate_spec. unfold timecode_source in H.
  destruct (buf_tc_meta inbuf) as [m|].
  - injection H as Htc _. rewrite <- Htc. cbn [drop_frame].
    destruct (Z.eqb_spec (fps_d scfg) 0) as [H0|H0]; [|reflexivity].
    rewrite !is_ntsc_rate_spec. lia.
  - destruct (prefer_pts scfg && negb (buf_pts inbuf =? GST_CLOCK_TIME_NONE));
      [|discriminate].
    unfold timecode_from_pts in H.
    destruct ((0 <? fps_n scfg) && (0 <? fps_d scfg)) eqn:Hc;
      injection H as Htc _; rewrite <- Htc; cbn [drop_frame]; [reflexivity|].
    rewrite is_ntsc_rate_spec. split; [discriminate|].
    intros [Hn Hd]. apply andb_false_iff in Hc.
    destruct Hc as [Hc|Hc]; apply Z.ltb_ge in Hc; lia.
Qed.

Lemma drop_frame_follows_configured_rate_witness :
  let scfg := mkSeiConfig true 30000 1001 true false 0 0 0 in
  drop_frame (fst (timecode_from_pts scfg 40000000)) = true
  <-> (fps_n scfg = 30000 \/ fps_n scfg = 60000) /\ fps_d scfg = 1001.
Proof.
  apply (drop_frame_follows_configured_rate
           (mkSeiConfig true 30000 1001 true false 0 0 0)
           (mkBuffer sample_idr_nal None 40000000) _
           (snd (timecode_from_pts (mkSeiConfig true 30000 1001 true false 0 0 0)
                   40000000))).
  reflexivity.
Defined.

(** * The output of the rewriter, scanned again *)

(** ** The patched SPS cache is one SPS NAL *)

Lemma patch_sps_flag_built ebsp hdr c :
  patch_sps_pic_struct_flag_to_one ebsp hdr = Some c ->
  exists rbsp, c = build_annexb_from_rbsp_and_header rbsp hdr.
Proof.
  unfold patch_sps_pic_struct_flag_to_one.
  destruct ((sps_walk_to_vui _ _ _ ;;; br_read_bits _ 1) br_start) as [v s].
  destruct (negb (br_ok s) || (v =? 0)); [discriminate|].
  destruct (vui_walk_to_pic_struct _ s) as [x s'].
  destruct (negb (br_ok s')); [discriminate|].
  intros H. apply some_eq in H. eexists. symmetry. exact H.
Qed.

Lemma patch_sps_built ebsp hdr fps_n fps_d c :
  patch_sps_pic_struct_and_timing ebsp hdr fps_n fps_d = Some c ->
  exists rbsp, c = build_annexb_from_rbsp_and_header rbsp hdr.
Proof.
  unfold patch_sps_pic_struct_and_timing.
  destruct ((fps_n =? 0) || (fps_d =? 0)); [apply patch_sps_flag_built|].
  destruct (sps_walk_to_vui _ _ _ br_start) as [x s].
  destruct (br_read_bits _ 1 s) as [y s'].
  destruct (negb (br_ok s')); [discriminate|].
  destruct (copy_bits _ _ br_start bw_init) as [bw|]; [|discriminate].
  intros H. apply some_eq in H. eexists. symmetry. exact H.
Qed.

Lemma scan_unit_patched_cache scfg data st u :
  patched_sps_cache (patched_cache st) ->
  patched_sps_cache (patched_cache (scan_unit scfg data st u)).
Proof.
  destruct u as [[sc ns] next]. intros H. unfold scan_unit, scan_nal.
  destruct ((Z.land (byte_at data ns) 31 =? 9) && negb (insert_after_aud st));
    [exact H|].
  destruct (Z.land (byte_at data ns) 31 =? 7) eqn:H7.
  2:{ destruct (Z.land (byte_at data ns) 31 =? 5); exact H. }
  apply Z.eqb_eq in H7. cbn [patched_cache].
  destruct (patched_cache st) as [c|]; [exact H|].
  destruct (ns + 1 <? next); [|exact I].
  destruct (patch_sps_pic_struct_and_timing _ _ _ _) as [c|] eqn:Hp; [|exact I].
  apply patch_sps_built in Hp. destruct Hp as [rbsp ->].
  exists rbsp, (byte_at data ns). auto.
Qed.

Lemma scan_units_patched_cache scfg data units : forall st,
  patched_sps_cache (patched_cache st) ->
  patched_sps_cache (patched_cache (fold_left (scan_unit scfg data) units st)).
Proof.
  induction units as [|u units IH]; intros st H; cbn [fold_left]; auto.
  apply IH. now apply scan_unit_patched_cache.
Qed.

(** ** Bytes of the pieces of a buffer *)






(** ** Start codes and the prefix 00 00 01 *)




(** ** The units of the scan *)








(** ** Where a header byte of type 7 can be *)










(** ** The RBSP handed to the parser *)

Lemma extract_sps_vui_loop_rbsp annexb size : forall n pos,
  extract_sps_vui_loop annexb size n pos
  = match extract_sps_rbsp_loop annexb size n pos with
    | Some rbsp => parse_sps_vui_info_from_rbsp rbsp
    | None => (false, SpsVuiInfo_zero)
    end.
Proof.
  induction n as [|n IH]; intros pos; [reflexivity|].
  cbn [extract_sps_vui_loop extract_sps_rbsp_loop].
  destruct (pos + 4 <? size); [|reflexivity].
  destruct (find_startcode annexb size pos <? 0); [reflexivity|].
  destruct (size <=? _); [reflexivity|]. cbv zeta.
  destruct (Z.land _ 31 =? 7); [reflexivity|]. apply IH.
Qed.

(** [extract_sps_vui_from_au] returns what the parser makes of the RBSP of
    the first SPS NAL, and fails without calling it when there is none. *)
Lemma extract_sps_vui_from_au_rbsp annexb :
  extract_sps_vui_from_au annexb
  = match extract_sps_rbsp annexb with
    | Some rbsp => parse_sps_vui_info_from_rbsp rbsp
    | None => (false, SpsVuiInfo_zero)
    end.
Proof. apply extract_sps_vui_loop_rbsp. Qed.

(** An SPS NAL that is a header byte alone, before an IDR slice: the
    parser is called on an empty RBSP. *)
Example header_only_sps_rbsp :
  extract_sps_rbsp ([0; 0; 0; 1; 103] ++ sample_idr_nal) = Some [].
Proof. reflexivity. Qed.

(** ** The cache along the run of the probe *)

Lemma scan_au_loop_patched_cache scfg data size : forall n nal_start st,
  patched_sps_cache (patched_cache st) ->
  patched_sps_cache (patched_cache (scan_au_loop scfg data size n nal_start st)).
Proof.
  induction n as [|n IH]; intros nal_start st H; [exact H|].
  cbn [scan_au_loop]. destruct (nal_start <? size); [|exact H]. cbv zeta.
  set (next := if find_startcode data size (nal_start + 1) <? 0 then size
               else find_startcode data size (nal_start + 1)).
  pose proof (scan_unit_patched_cache scfg data st (0, nal_start, next) H) as H'.
  cbn [scan_unit] in H'.
  destruct (next =? size); [exact H'|]. apply IH. exact H'.
Qed.

Lemma rewrite_au_patched_cache scfg g data tc :
  patched_sps_cache (g_patched_sps_ebsp g) ->
  patched_sps_cache (g_patched_sps_ebsp (snd (rewrite_au scfg g data tc))).
Proof.
  intros H. unfold rewrite_au.
  pose proof (build_sei_for_au_cache g data tc) as Hc.
  destruct (build_sei_for_au g data tc) as [sei g1]. cbn [snd] in Hc.
  rewrite <- Hc in H. cbv zeta.
  set (st0 := mkAuScan false (-1) false false (g_patched_sps_ebsp g1)).
  assert (H0 : patched_sps_cache (patched_cache st0)) by exact H.
  set (st := if 0 <? _ then scan_au_loop scfg data (size_of data) _ _ st0 else st0).
  assert (Hst : patched_sps_cache (patched_cache st)).
  { unfold st. destruct (0 <? _); [|exact H0].
    apply scan_au_loop_patched_cache. exact H0. }
  destruct (find_startcode data (size_of data) 0 <? 0); exact Hst.
Qed.

(** The probe starts with an empty cache and only ever stores in it a NAL
    built with the header byte of an SPS. *)
Lemma probe_patched_cache scfg g buf :
  patched_sps_cache (g_patched_sps_ebsp g) ->
  patched_sps_cache (g_patched_sps_ebsp (snd (h264_sei_inject_probe scfg g buf))).
Proof.
  intros H. unfold h264_sei_inject_probe, prepend_h264_sei_timecode.
  destruct (negb (inject_sei scfg)); [exact H|].
  destruct (timecode_source scfg buf) as [[tc|] s]; [|exact H].
  pose proof (rewrite_au_patched_cache s g (buf_data buf) tc H) as H'.
  destruct (rewrite_au s g (buf_data buf) tc) as [r g']. exact H'.
Qed.

Lemma probe_run_patched_cache bufs : forall scfg g,
  patched_sps_cache (g_patched_sps_ebsp g) ->
  patched_sps_cache
    (g_patched_sps_ebsp
       (snd (fold_left (fun st buf => let '(_, scfg, g) :=
                                        h264_sei_inject_probe (fst st) (snd st) buf in
                                      (scfg, g))
               bufs (scfg, g)))).
Proof.
  induction bufs as [|buf bufs IH]; intros scfg g H; [exact H|].
  cbn [fold_left fst snd].
  pose proof (probe_patched_cache scfg g buf H) as H'.
  destruct (h264_sei_inject_probe scfg g buf) as [[b s'] g']. apply IH. exact H'.
Qed.




(** ** The scan of the output reaches the patched SPS *)













(** ** Layout of a rewritten access unit, NAL by NAL *)


